(** * Cue timeline and visual grounding engine: model and properties

    A shallow embedding of the algorithmic core of the narration pipeline:
    [main.py] (draft cue timeline, grid snap), [audio_utils.py] (cue-snapped
    audio builder) and [video_utils.py] (lexicon matcher, query builder,
    provider rankers, visual resolver, slideshow spans).

    Conventions.
    - Times are integer milliseconds ([Z]).
    - A pydub [AudioSegment] is modelled at the millisecond resolution of its
      public interface ([len], [+], [seg[:ms]], [silent(duration=ms)]).
    - Python [float] scores are modelled as exact rationals ([Q]).
    - Text is a [string] of bytes (UTF-8).  Every text primitive coincides with
      Python's on ASCII text; bytes above 127, for which Python consults the
      Unicode database, pass through case folding and accent stripping
      unchanged.
    - The iteration order of a Python [set] of strings depends on the
      per-process string hash seed.  It is an explicit parameter [set_iter]
      of every function that iterates over a set. *)

From Stdlib Require Import ZArith List String Ascii Bool Lia QArith Sorted Permutation.
Import ListNotations.
Open Scope Z_scope.

(* ================================================================= *)
(** * Part I: the model *)
(* ================================================================= *)

(** ** Python builtins used by the code *)

Module py.

(** [round(n / d)] for an exact quotient with [d > 0]: round half to even. *)
Definition round_div (n d : Z) : Z :=
  let q := n / d in
  let r := n mod d in
  if 2 * r <? d then q
  else if d <? 2 * r then q + 1
  else if Z.even q then q else q + 1.

End py.

(** ** pydub.AudioSegment, one value per millisecond *)

Module pydub.

Definition AudioSegment := list Z.

(** [AudioSegment.silent(duration=d)]: a negative duration yields no frames. *)
Definition silent (duration : Z) : AudioSegment := repeat 0 (Z.to_nat duration).

(** [len(seg)] in milliseconds. *)
Definition len (seg : AudioSegment) : Z := Z.of_nat (List.length seg).

(** [seg[:stop]]: the stop is clamped to the length, a negative stop counts
    from the end. *)
Definition slice_to (seg : AudioSegment) (stop : Z) : AudioSegment :=
  let e := Z.min stop (len seg) in
  let e := if e <? 0 then len seg - Z.abs e else e in
  firstn (Z.to_nat e) seg.

(** Truth value of a segment: it defines [__len__], so an empty one is falsy. *)
Definition truthy (seg : AudioSegment) : bool := negb (len seg =? 0).

End pydub.

Import pydub.

(** ** The cue dictionary *)

Record Cue : Type := mkCue {
  cue_start : Z;
  cue_end : Z;
  cue_text : string;
  cue_lang : string;
  cue_repeat : Z;
  cue_is_primary : bool;
  cue_tags : list string
}.

Definition set_times (c : Cue) (s e : Z) : Cue :=
  mkCue s e (cue_text c) (cue_lang c) (cue_repeat c) (cue_is_primary c) (cue_tags c).

(** ** audio_utils.py *)

Module audio_utils.

(** [_normalize] changes frame rate, channel count and sample width, not
    the duration. *)
Definition _normalize (seg : AudioSegment) : AudioSegment := seg.

Section Builder.

(** [safe_tts_to_segment(text, lang, provider=settings.TTS_PROVIDER)]:
    the external speech capability. *)
Variable safe_tts_to_segment : string -> string -> AudioSegment.





End Builder.


End audio_utils.

(** ** main.py: draft timeline and grid snap *)

Module main.

(** The values [main] reads from the settings module. *)
Record Settings : Type := mkSettings {
  PRIMARY_REPEAT_CNT : Z;
  SECONDARY_REPEAT_CNT : Z;
  PAUSE_REP_MS : Z;
  PAUSE_SENT_MS : Z;
  ENABLE_BILINGUAL : bool;
  primary_code : string;
  secondary_code : string
}.

(** One parsed input line: (primary, secondary, tags). *)
Definition LogicalLine : Type := (string * string * list string)%type.

Section Draft.

Variable settings : Settings.
Variable safe_tts_to_segment : string -> string -> AudioSegment.

Definition silence_rep : AudioSegment :=
  audio_utils._normalize (silent (PAUSE_REP_MS settings)).
Definition silence_sent : AudioSegment :=
  audio_utils._normalize (silent (PAUSE_SENT_MS settings)).

Definition _tts (text lang_code : string) : AudioSegment :=
  safe_tts_to_segment text lang_code.

(** [_tts(text, code) or _normalize(AudioSegment.silent(duration=800))] *)
Definition tts_or_silence (text lang_code : string) : AudioSegment :=
  let seg := _tts text lang_code in
  if truthy seg then seg else audio_utils._normalize (silent 800).

Definition total_ms (repeat_cnt dur : Z) : Z :=
  repeat_cnt * dur + Z.max 0 (repeat_cnt - 1) * len silence_rep.

(** The loop over [logical_lines], started with the cursor at [t]; returns
    the cues appended to [cues_draft] and the final cursor. *)
Fixpoint draft_loop (logical_lines : list LogicalLine) (t : Z) : list Cue * Z :=
  match logical_lines with
  | [] => ([], t)
  | (primary, secondary, tags) :: rest =>
      let seg_one := tts_or_silence primary (primary_code settings) in
      let dur_one := len seg_one in
      let total_ms_primary := total_ms (PRIMARY_REPEAT_CNT settings) dur_one in
      let c1 := mkCue t (t + total_ms_primary) primary (primary_code settings)
                      (PRIMARY_REPEAT_CNT settings) true tags in
      let t := t + total_ms_primary in
      let t := t + Z.max (len silence_sent) 1700 in
      let '(c2, t) :=
        if ENABLE_BILINGUAL settings && negb (String.eqb secondary "") then
          let seg_two := tts_or_silence secondary (secondary_code settings) in
          let dur_two := len seg_two in
          let total_ms_secondary := total_ms (SECONDARY_REPEAT_CNT settings) dur_two in
          ([mkCue t (t + total_ms_secondary) secondary (secondary_code settings)
                  (SECONDARY_REPEAT_CNT settings) false []],
           t + total_ms_secondary)
        else ([], t) in
      let t := t + len silence_sent in
      let '(cues, t_end) := draft_loop rest t in
      (c1 :: c2 ++ cues, t_end)
  end.

(** [cues_draft] after the loop, with [t = 0] initially. *)
Definition cues_draft (logical_lines : list LogicalLine) : list Cue :=
  fst (draft_loop logical_lines 0).

End Draft.

(** The fallback bound when the subtitles module cannot be imported:
    [def round_to_ass_grid(x: int) -> int: return x]. *)
Definition round_to_ass_grid_fallback (x : Z) : Z := x.

(** Modelled from the spec: [subtitles.round_to_ass_grid] is imported by
    [main.py] but the subtitles module is not part of the sources.  The
    spec says the grid-snap pass "rounds every start_ms/end_ms to the
    nearest unit of a fixed sub-second grid (e.g. 10ms)". *)
Definition ASS_GRID_MS : Z := 10.

(** Modelled from the spec: a function rounds onto the grid when its value
    is a grid point and no grid point is nearer to the argument. *)
Definition rounds_to_nearest_grid_unit (f : Z -> Z) : Prop :=
  forall x, (f x) mod ASS_GRID_MS = 0 /\ 2 * Z.abs (f x - x) <= ASS_GRID_MS.

(** Modelled from the spec: the rounding with ties resolved as Python's
    [round] does (half to even). *)
Definition round_to_ass_grid (x : Z) : Z :=
  ASS_GRID_MS * py.round_div x ASS_GRID_MS.

(** [for c in cues_src: c["start"] = round_to_ass_grid(c["start"]);
    c["end"] = round_to_ass_grid(c["end"])] *)
Definition snap_to_ass_grid (round_fn : Z -> Z) (cues_src : list Cue) : list Cue :=
  map (fun c => set_times c (round_fn (cue_start c)) (round_fn (cue_end c))) cues_src.

End main.

(** ** Python [str] operations *)

Module pystr.

Definition code (c : ascii) : N := N_of_ascii c.

Definition between (lo hi : N) (c : ascii) : bool :=
  ((lo <=? code c) && (code c <=? hi))%N.

(** [c.isspace()], also the class [\s] of [re]. *)
Definition is_space (c : ascii) : bool := between 9 13 c || between 28 32 c.

(** Membership in [string.punctuation]. *)
Definition is_punctuation (c : ascii) : bool :=
  between 33 47 c || between 58 64 c || between 91 96 c || between 123 126 c.

Definition is_lower_or_digit (c : ascii) : bool := between 97 122 c || between 48 57 c.

(** The class [\w] of [re]: letters, digits and the underscore; a byte above
    127 is part of a letter of a non-Latin script. *)
Definition is_word (c : ascii) : bool :=
  between 48 57 c || between 65 90 c || between 97 122 c
  || (code c =? 95)%N || (128 <=? code c)%N.

Definition is_digit (c : ascii) : bool := between 48 57 c.

Definition lower_char (c : ascii) : ascii :=
  if between 65 90 c then ascii_of_N (code c + 32) else c.

Fixpoint map_chars (f : ascii -> ascii) (s : string) : string :=
  match s with
  | EmptyString => EmptyString
  | String c s' => String (f c) (map_chars f s')
  end.

Fixpoint filter_chars (p : ascii -> bool) (s : string) : string :=
  match s with
  | EmptyString => EmptyString
  | String c s' => if p c then String c (filter_chars p s') else filter_chars p s'
  end.

Fixpoint forall_chars (p : ascii -> bool) (s : string) : bool :=
  match s with
  | EmptyString => true
  | String c s' => p c && forall_chars p s'
  end.

(** [s.lower()] *)
Definition lower (s : string) : string := map_chars lower_char s.

Definition nonempty (s : string) : bool :=
  match s with EmptyString => false | _ => true end.

(** [s.lstrip()], [s.rstrip()], [s.strip()] *)
Fixpoint lstrip (s : string) : string :=
  match s with
  | EmptyString => EmptyString
  | String c s' => if is_space c then lstrip s' else s
  end.

Fixpoint rstrip (s : string) : string :=
  match s with
  | EmptyString => EmptyString
  | String c s' =>
      let r := rstrip s' in
      if is_space c && negb (nonempty r) then EmptyString else String c r
  end.

Definition strip (s : string) : string := rstrip (lstrip s).

(** [s.startswith(p)] *)
Fixpoint startswith (p s : string) : bool :=
  match p, s with
  | EmptyString, _ => true
  | String a p', String b s' => Ascii.eqb a b && startswith p' s'
  | String _ _, EmptyString => false
  end.

Fixpoint drop (n : nat) (s : string) : string :=
  match n, s with
  | O, _ => s
  | S n', String _ s' => drop n' s'
  | S _, EmptyString => EmptyString
  end.

(** [s.find(sub)], as an option *)
Fixpoint find_from (sub s : string) (i : nat) : option nat :=
  if startswith sub s then Some i
  else match s with
       | EmptyString => None
       | String _ s' => find_from sub s' (S i)
       end.

Definition find (sub s : string) : option nat := find_from sub s 0.

(** [sub in s] *)
Definition contains (sub s : string) : bool :=
  match find sub s with Some _ => true | None => false end.

(** [s.replace(old, new)]: all occurrences, left to right, not overlapping;
    an empty [old] matches before every character and at the end. *)
Fixpoint replace_skip (old new : string) (skip : nat) (s : string) : string :=
  match s with
  | EmptyString => EmptyString
  | String c s' =>
      match skip with
      | S k => replace_skip old new k s'
      | O =>
          if startswith old s
          then new ++ replace_skip old new (String.length old - 1) s'
          else String c (replace_skip old new 0 s')
      end
  end.

Fixpoint intersperse (new s : string) : string :=
  match s with
  | EmptyString => new
  | String c s' => new ++ String c (intersperse new s')
  end.

Definition replace (old new s : string) : string :=
  match old with
  | EmptyString => intersperse new s
  | _ => replace_skip old new 0 s
  end.

(** [re.sub(r"\s+", " ", s)] *)
Fixpoint collapse_ws_from (in_space : bool) (s : string) : string :=
  match s with
  | EmptyString => EmptyString
  | String c s' =>
      if is_space c then
        if in_space then collapse_ws_from true s'
        else String " " (collapse_ws_from true s')
      else String c (collapse_ws_from false s')
  end.

Definition collapse_ws (s : string) : string := collapse_ws_from false s.

(** [s.split()]: the maximal runs of characters that are not whitespace. *)
Fixpoint split_ws_from (cur : string) (s : string) : list string :=
  match s with
  | EmptyString => if nonempty cur then [cur] else []
  | String c s' =>
      if is_space c then
        if nonempty cur then cur :: split_ws_from EmptyString s'
        else split_ws_from EmptyString s'
      else split_ws_from (cur ++ String c EmptyString) s'
  end.

Definition split (s : string) : list string := split_ws_from EmptyString s.

(** [s.split(sep)] for a separator of one character. *)
Fixpoint split_on_from (sep : ascii) (cur : string) (s : string) : list string :=
  match s with
  | EmptyString => [cur]
  | String c s' =>
      if Ascii.eqb c sep then cur :: split_on_from sep EmptyString s'
      else split_on_from sep (cur ++ String c EmptyString) s'
  end.

Definition split_on (sep : ascii) (s : string) : list string :=
  split_on_from sep EmptyString s.

(** [sep.join(parts)] *)
Definition join (sep : string) (parts : list string) : string := String.concat sep parts.

(** [x in xs] for a list or set of strings. *)
Definition mem (x : string) (xs : list string) : bool := existsb (String.eqb x) xs.

(** [s[:n]] *)
Fixpoint take (n : nat) (s : string) : string :=
  match n, s with
  | O, _ => EmptyString
  | S n', String c s' => String c (take n' s')
  | S _, EmptyString => EmptyString
  end.

(** [re.search(rf"\b{re.escape(v)}\b", s)]: the start of the leftmost
    occurrence of [v] with a word boundary on both sides. *)
Definition boundary (before after : option ascii) : bool :=
  let w o := match o with Some c => is_word c | None => false end in
  xorb (w before) (w after).

Definition head_char (s : string) : option ascii :=
  match s with EmptyString => None | String c _ => Some c end.

Fixpoint last_char (s : string) : option ascii :=
  match s with
  | EmptyString => None
  | String c EmptyString => Some c
  | String _ s' => last_char s'
  end.

Definition matches_word_at (v : string) (prev : option ascii) (s : string) : bool :=
  startswith v s
  && boundary prev (head_char s)
  && boundary (match last_char v with Some c => Some c | None => prev end)
              (head_char (drop (String.length v) s)).

Fixpoint word_search_from (v : string) (prev : option ascii) (s : string) (i : nat)
  : option nat :=
  if matches_word_at v prev s then Some i
  else match s with
       | EmptyString => None
       | String c s' => word_search_from v (Some c) s' (S i)
       end.

Definition word_search (v s : string) : option nat :=
  word_search_from v None s 0.

(** [re.match(r"[a-z0-9]+$", w)]: [$] also matches before a final newline. *)
Definition match_ascii_word (w : string) : bool :=
  let body :=
    match last_char w with
    | Some c => if (code c =? 10)%N then take (String.length w - 1) w else w
    | None => w
    end in
  nonempty body && forall_chars is_lower_or_digit body.

(** [w.isdigit()] on ASCII text. *)
Definition isdigit (w : string) : bool := nonempty w && forall_chars is_digit w.

(** [re.sub(r"\s+", rep, s)] *)
Fixpoint sub_ws_runs_from (rep : string) (in_space : bool) (s : string) : string :=
  match s with
  | EmptyString => EmptyString
  | String c s' =>
      if is_space c then
        if in_space then sub_ws_runs_from rep true s'
        else rep ++ sub_ws_runs_from rep true s'
      else String c (sub_ws_runs_from rep false s')
  end.

Definition sub_ws_runs (rep s : string) : string := sub_ws_runs_from rep false s.

(** [re.sub(r"\s{2,}", " ", s)]: [run] is the run of whitespace being read,
    which is kept when it is one character long. *)
Inductive ws_run : Type := NoRun | OneWs (c : ascii) | ManyWs.

Definition pending_ws (run : ws_run) : string :=
  match run with
  | NoRun => EmptyString
  | OneWs w => String w EmptyString
  | ManyWs => " "
  end.

Fixpoint sub_ws2_from (run : ws_run) (s : string) : string :=
  match s with
  | EmptyString => pending_ws run
  | String c s' =>
      if is_space c then
        sub_ws2_from (match run with NoRun => OneWs c | _ => ManyWs end) s'
      else pending_ws run ++ String c (sub_ws2_from NoRun s')
  end.

Definition sub_ws2 (s : string) : string := sub_ws2_from NoRun s.

End pystr.

(** ** Python lists, sets and dicts *)

Module pylist.

(** [d.get(k)] on a dict kept as an association list in declaration order. *)
Fixpoint get {V : Type} (k : string) (d : list (string * V)) : option V :=
  match d with
  | [] => None
  | (k', v) :: d' => if String.eqb k k' then Some v else get k d'
  end.

(** [len(set(xs))] *)
Definition set_len (xs : list string) : nat := List.length (nodup string_dec xs).

(** [len(set(xs) & set(ys))] *)
Definition inter_len (xs ys : list string) : nat :=
  List.length (filter (fun x => pystr.mem x ys) (nodup string_dec xs)).

(** [len(set(xs) | set(ys))] *)
Definition union_len (xs ys : list string) : nat := set_len (xs ++ ys).

(** Stable insertion for [sorted(xs, key=key)]: an element goes before the
    elements already placed (which came after it) whose key is not smaller. *)
Fixpoint insert_asc {A : Type} (key : A -> Z) (x : A) (l : list A) : list A :=
  match l with
  | [] => [x]
  | y :: l' => if key x <=? key y then x :: l else y :: insert_asc key x l'
  end.

Definition sorted_by {A : Type} (key : A -> Z) (xs : list A) : list A :=
  fold_right (insert_asc key) [] xs.

(** [sorted(xs, key=key, reverse=True)]: descending, equal keys keep their
    original order. *)
Fixpoint insert_desc {A : Type} (key : A -> Z) (x : A) (l : list A) : list A :=
  match l with
  | [] => [x]
  | y :: l' => if key y <=? key x then x :: l else y :: insert_desc key x l'
  end.

Definition sorted_by_desc {A : Type} (key : A -> Z) (xs : list A) : list A :=
  fold_right (insert_desc key) [] xs.

(** The same with a rational key: [xs.sort(key=..., reverse=True)]. *)
Fixpoint insert_desc_Q {A : Type} (key : A -> Q) (x : A) (l : list A) : list A :=
  match l with
  | [] => [x]
  | y :: l' => if Qle_bool (key y) (key x) then x :: l else y :: insert_desc_Q key x l'
  end.

Definition sorted_by_desc_Q {A : Type} (key : A -> Q) (xs : list A) : list A :=
  fold_right (insert_desc_Q key) [] xs.

(** [sorted(xs)] for strings: code point order, which is byte order in UTF-8. *)
Fixpoint insert_string (x : string) (l : list string) : list string :=
  match l with
  | [] => [x]
  | y :: l' => if String.leb x y then x :: l else y :: insert_string x l'
  end.

Definition sorted_strings (xs : list string) : list string :=
  fold_right insert_string [] xs.

(** An admissible iteration order of a set: each element once, in any order. *)
Definition set_order (set_iter : list string -> list string) : Prop :=
  forall xs, NoDup (set_iter xs) /\ (forall x, In x (set_iter xs) <-> In x xs).

(** One such order: by first insertion. *)
Fixpoint insertion_order (xs : list string) : list string :=
  match xs with
  | [] => []
  | x :: xs' => x :: filter (fun y => negb (String.eqb x y)) (insertion_order xs')
  end.

(** Another: the reverse of it. *)
Definition reverse_insertion_order (xs : list string) : list string :=
  rev (insertion_order xs).

End pylist.

(** ** video_utils.py *)

Module video_utils.

Import pystr pylist.
Local Open Scope string_scope.

(** *** Configuration ([NLPConfig]) *)

Definition MAX_QUERY_TOKENS : nat := 6.
Definition TRIGRAM_MATCH_THRESHOLD : Q := 62 # 100.
Definition TRIGRAM_TAG_THRESHOLD : Q := 25 # 100.
Definition MAX_FALLBACKS : nat := 8.

(** *** Static tables *)

Definition PERSIAN_LETTERS : list string :=
  ["ا"; "آ"; "ب"; "پ"; "ت"; "ث"; "ج"; "چ"; "ح"; "خ"; "د"; "ذ"; "ر"; "ز"; "ژ"; "س"; "ش"; "ص"; "ض"; "ط"; "ظ"; "ع"; "غ"; "ف"; "ق"; "ک"; "گ"; "ل"; "م"; "ن"; "و"; "ه"; "ی"].

Definition STOPWORDS_EN : list string :=
  ["the"; "a"; "an"; "and"; "or"; "but"; "in"; "on"; "at"; "for"; "with"; "to"; "of"; "is";
   "are"; "was"; "were"; "this"; "that"; "these"; "those"; "please"; "can"; "could"; "you";
   "i"; "it"; "my"; "your"; "me"; "we"; "they"; "do"; "have"; "has"; "am"; "be"; "been";
   "being"; "will"; "would"; "should"; "could"; "may"; "might"; "make"; "made"; "take";
   "bring"; "need"; "want"; "like"; "show"; "explain"; "print"; "charge"; "put"; "add";
   "less"; "more"; "without"; "no"; "not"; "isn"; "aren"; "does"; "did"; "doesn"; "don";
   "cannot"; "ok"; "size"; "small"; "medium"; "large"; "here"; "there"; "set"; "are";
   "card"; "cash"; "by"; "from"; "with"].

Definition STOPWORDS_FR : list string :=
  ["je"; "tu"; "il"; "elle"; "nous"; "vous"; "ils"; "elles"; "de"; "des"; "du"; "le"; "la";
   "les"; "un"; "une"; "et"; "ou"; "mais"; "dans"; "en"; "au"; "aux"; "avec"; "pour";
   "par"; "sur"; "sous"; "ce"; "cet"; "cette"; "ces"; "mon"; "ma"; "mes"; "ton"; "ta";
   "tes"; "son"; "sa"; "ses"; "leur"; "leurs"; "est"; "suis"; "es"; "sommes"; "êtes";
   "sont"; "ne"; "pas"; "que"; "qui"; "quoi"; "où"; "quand"; "comment"; "aujourd’hui"; "d";
   "l"; "n"; "c"; "j"; "t"; "s"; "moi"; "toi"; "lui"; "elle"; "leur"; "y"; "en"; "bien";
   "svp"; "s’il"; "vous"; "plaît"; "veuillez"; "faire"; "mettre"; "prendre"; "apporter";
   "besoin"; "voudrais"; "taille"; "petite"; "moyenne"; "grande"; "ici"; "là"; "sur";
   "place"; "à"; "emporter"; "carte"; "espèces"].

Definition STOPWORDS_DE : list string :=
  ["der"; "die"; "das"; "ein"; "eine"; "einen"; "einem"; "einer"; "und"; "oder"; "aber";
   "in"; "auf"; "an"; "bei"; "für"; "mit"; "zu"; "von"; "ist"; "sind"; "war"; "waren";
   "bitte"; "kann"; "können"; "könnten"; "sie"; "ich"; "es"; "mein"; "meine"; "dein";
   "deine"; "ihr"; "ihre"; "unser"; "unsere"; "dies"; "das"; "diese"; "jene"; "machen";
   "nehmen"; "bringen"; "brauche"; "möchte"; "mag"; "zeigen"; "erklären"; "drucken";
   "belasten"; "geben"; "weniger"; "mehr"; "ohne"; "nicht"; "größe"; "kleine"; "mittlere";
   "große"; "hier"; "da"; "karte"; "bar"].

Definition STOPWORDS_FA : list string :=
  ["و"; "در"; "به"; "از"; "که"; "این"; "آن"; "برای"; "با"; "یا"; "اما"; "یک"; "هم"; "را";
   "تا"; "ما"; "شما"; "او"; "ایشان"; "همه"; "هر"; "لطفاً"; "خواهش"; "می"; "شود"; "کنید";
   "است"; "هستم"; "هستید"].

Definition NEGATORS : list string :=
  ["no"; "not"; "without"; "ohne"; "sans"; "بدون"; "نیست"; "نکن"].

Definition MODIFIER_PHRASES : list string :=
  ["with milk"; "without milk"; "no milk"; "milk"; "with sugar"; "without sugar";
   "no sugar"; "sugar"; "with ice"; "without ice"; "no ice"; "ice"; "soy milk"; "oat milk";
   "almond milk"; "lactose free"; "gluten free"; "small size"; "medium size"; "large size";
   "extra hot"; "less hot"; "with warranty"; "without contract"; "more storage";
   "online banking"; "no monthly fee"; "with priority"; "with a tag"; "without liquids";
   "for children"; "for adults"; "sans sucre"; "ohne zucker"; "بدون شکر"; "blue"; "black";
   "white"; "large"; "medium"; "small"].

Definition LEXICON : list (string * list (string * list string)) :=
  [
   ("espresso",
    [("en", ["espresso"]);
     ("fr", ["expresso"; "espresso"]);
     ("de", ["espresso"]);
     ("fa", ["اسپرسو"])]);
   ("americano",
    [("en", ["americano"]);
     ("fr", ["allonge"; "americano"]);
     ("de", ["americano"]);
     ("fa", ["آمریکانو"])]);
   ("cappuccino",
    [("en", ["cappuccino"]);
     ("fr", ["cappuccino"]);
     ("de", ["cappuccino"]);
     ("fa", ["کاپوچینو"])]);
   ("latte",
    [("en", ["latte"]);
     ("fr", ["latte"]);
     ("de", ["latte"]);
     ("fa", ["لاته"])]);
   ("flat white",
    [("en", ["flat white"]);
     ("fr", ["flat white"]);
     ("de", ["flat white"]);
     ("fa", ["فلت وایت"; "فلت وايت"])]);
   ("black coffee",
    [("en", ["black coffee"]);
     ("fr", ["cafe noir"]);
     ("de", ["schwarzer kaffee"]);
     ("fa", ["قهوه ساده"; "قهوه سیاه"])]);
   ("green tea",
    [("en", ["green tea"]);
     ("fr", ["the vert"]);
     ("de", ["gruner tee"; "gruener tee"; "grüner tee"]);
     ("fa", ["چای سبز"])]);
   ("herbal tea",
    [("en", ["herbal tea"]);
     ("fr", ["tisane"]);
     ("de", ["krautertee"; "kräutertee"]);
     ("fa", ["دمنوش"; "چای گیاهی"])]);
   ("hot chocolate",
    [("en", ["hot chocolate"]);
     ("fr", ["chocolat chaud"]);
     ("de", ["heisse schokolade"; "heiße schokolade"]);
     ("fa", ["هات چاکلت"; "شکلات داغ"])]);
   ("croissant",
    [("en", ["croissant"]);
     ("fr", ["croissant"]);
     ("de", ["croissant"]);
     ("fa", ["کرواسان"])]);
   ("sandwich",
    [("en", ["sandwich"]);
     ("fr", ["sandwich"]);
     ("de", ["sandwich"]);
     ("fa", ["ساندویچ"])]);
   ("menu",
    [("en", ["menu"]);
     ("fr", ["menu"; "carte"]);
     ("de", ["speisekarte"]);
     ("fa", ["منو"])]);
   ("bill",
    [("en", ["bill"; "check"]);
     ("fr", ["addition"]);
     ("de", ["rechnung"]);
     ("fa", ["صورت حساب"; "فاکتور"])]);
   ("receipt",
    [("en", ["receipt"]);
     ("fr", ["recu"; "reçu"]);
     ("de", ["beleg"; "quittung"]);
     ("fa", ["رسید"])]);
   ("cough syrup",
    [("en", ["cough syrup"]);
     ("fr", ["sirop contre la toux"]);
     ("de", ["hustensirup"]);
     ("fa", ["شربت سرفه"])]);
   ("pain tablets",
    [("en", ["pain tablets"; "painkillers"]);
     ("fr", ["comprimés contre la douleur"]);
     ("de", ["schmerztabletten"]);
     ("fa", ["قرص مسکن"])]);
   ("nasal spray",
    [("en", ["nasal spray"]);
     ("fr", ["spray nasal"]);
     ("de", ["nasenspray"]);
     ("fa", ["اسپری بینی"])]);
   ("thermometer",
    [("en", ["thermometer"]);
     ("fr", ["thermometre"; "thermomètre"]);
     ("de", ["thermometer"]);
     ("fa", ["دماسنج"])]);
   ("vitamins",
    [("en", ["vitamins"]);
     ("fr", ["vitamines"]);
     ("de", ["vitamine"]);
     ("fa", ["ویتامین"])]);
   ("pharmacy interior",
    [("en", ["pharmacy"]);
     ("fr", ["pharmacie"]);
     ("de", ["apotheke"]);
     ("fa", ["داروخانه"])]);
   ("passport",
    [("en", ["passport"]);
     ("fr", ["passeport"]);
     ("de", ["reisepass"]);
     ("fa", ["پاسپورت"; "گذرنامه"])]);
   ("boarding pass",
    [("en", ["boarding pass"]);
     ("fr", ["carte dembarquement"; "carte d embarquement"]);
     ("de", ["bordkarte"]);
     ("fa", ["کارت پرواز"])]);
   ("check in desk",
    [("en", ["check in desk"; "check-in counter"]);
     ("fr", ["comptoir denregistrement"; "comptoir d enregistrement"]);
     ("de", ["check in schalter"; "check-in schalter"]);
     ("fa", ["کانتر پذیرش"; "گیشه پذیرش"])]);
   ("gate",
    [("en", ["gate"]);
     ("fr", ["porte dembarquement"; "porte"]);
     ("de", ["gate"]);
     ("fa", ["گیت"])]);
   ("carry on bag",
    [("en", ["carry on bag"; "cabin bag"]);
     ("fr", ["bagage cabine"]);
     ("de", ["handgepäck"]);
     ("fa", ["ساک دستی"; "چمدان کابین"])]);
   ("suitcase",
    [("en", ["suitcase"; "luggage"]);
     ("fr", ["valise"]);
     ("de", ["koffer"]);
     ("fa", ["چمدان"])]);
   ("airport interior",
    [("en", ["airport"]);
     ("fr", ["aeroport"; "aéroport"]);
     ("de", ["flughafen"]);
     ("fa", ["فرودگاه"])]);
   ("bank account",
    [("en", ["bank account"]);
     ("fr", ["compte bancaire"]);
     ("de", ["bankkonto"]);
     ("fa", ["حساب بانکی"])]);
   ("debit card",
    [("en", ["bank card"; "debit card"]);
     ("fr", ["carte bancaire"]);
     ("de", ["bankkarte"]);
     ("fa", ["کارت بانکی"])]);
   ("pin code",
    [("en", ["pin code"]);
     ("fr", ["code pin"]);
     ("de", ["pin"]);
     ("fa", ["رمز کارت"; "پین"])]);
   ("bank transfer",
    [("en", ["money transfer"; "bank transfer"]);
     ("fr", ["virement"]);
     ("de", ["überweisung"; "ueberweisung"]);
     ("fa", ["انتقال وجه"])]);
   ("online banking",
    [("en", ["online banking"]);
     ("fr", ["banque en ligne"]);
     ("de", ["online banking"]);
     ("fa", ["بانکداری آنلاین"])]);
   ("bank interior",
    [("en", ["bank"]);
     ("fr", ["banque"]);
     ("de", ["bank"]);
     ("fa", ["بانک"])]);
   ("jacket",
    [("en", ["jacket"]);
     ("fr", ["veste"]);
     ("de", ["jacke"]);
     ("fa", ["کت"; "کاپشن"])]);
   ("shirt",
    [("en", ["shirt"]);
     ("fr", ["chemise"]);
     ("de", ["hemd"]);
     ("fa", ["پیراهن"])]);
   ("trousers",
    [("en", ["trousers"; "pants"]);
     ("fr", ["pantalon"]);
     ("de", ["hose"]);
     ("fa", ["شلوار"])]);
   ("dress",
    [("en", ["dress"]);
     ("fr", ["robe"]);
     ("de", ["kleid"]);
     ("fa", ["پیراهن زنانه"; "لباس"])]);
   ("shoes",
    [("en", ["shoes"]);
     ("fr", ["chaussures"]);
     ("de", ["schuhe"]);
     ("fa", ["کفش"])]);
   ("belt",
    [("en", ["belt"]);
     ("fr", ["ceinture"]);
     ("de", ["gürtel"; "guertel"]);
     ("fa", ["کمربند"])]);
   ("fitting room",
    [("en", ["fitting room"; "changing room"]);
     ("fr", ["cabine dessayage"; "cabine d essayage"]);
     ("de", ["umkleidekabine"]);
     ("fa", ["اتاق پرو"])]);
   ("cashier",
    [("en", ["cashier"; "checkout"]);
     ("fr", ["caisse"]);
     ("de", ["kasse"]);
     ("fa", ["صندوق"; "صندوقدار"])]);
   ("clothing store interior",
    [("en", ["clothing store"]);
     ("fr", ["magasin de vetements"; "magasin de vêtements"]);
     ("de", ["kleidungsgeschaeft"; "kleidungsgeschäft"]);
     ("fa", ["فروشگاه لباس"])]);
   ("bus stop",
    [("en", ["bus stop"]);
     ("fr", ["arret de bus"; "arrêt de bus"]);
     ("de", ["bushaltestelle"]);
     ("fa", ["ایستگاه اتوبوس"])]);
   ("park",
    [("en", ["park"]);
     ("fr", ["parc"]);
     ("de", ["park"]);
     ("fa", ["پارک"])]);
   ("map",
    [("en", ["map"]);
     ("fr", ["plan"; "carte"]);
     ("de", ["karte"]);
     ("fa", ["نقشه"])]);
   ("street",
    [("en", ["street"]);
     ("fr", ["rue"]);
     ("de", ["straße"; "strasse"]);
     ("fa", ["خیابان"])]);
   ("square",
    [("en", ["square"; "plaza"]);
     ("fr", ["place"]);
     ("de", ["platz"]);
     ("fa", ["میدان"])]);
   ("bridge",
    [("en", ["bridge"]);
     ("fr", ["pont"]);
     ("de", ["brücke"; "bruecke"]);
     ("fa", ["پل"])]);
   ("hotel exterior",
    [("en", ["hotel"]);
     ("fr", ["hotel"; "hôtel"]);
     ("de", ["hotel"]);
     ("fa", ["هتل"])]);
   ("fever",
    [("en", ["fever"]);
     ("fr", ["fievre"; "fièvre"]);
     ("de", ["fieber"]);
     ("fa", ["تب"])]);
   ("cough",
    [("en", ["cough"]);
     ("fr", ["toux"]);
     ("de", ["husten"]);
     ("fa", ["سرفه"])]);
   ("sore throat",
    [("en", ["sore throat"]);
     ("fr", ["mal de gorge"]);
     ("de", ["halsschmerzen"]);
     ("fa", ["گلودرد"])]);
   ("stomach ache",
    [("en", ["stomach ache"; "stomachache"]);
     ("fr", ["mal de ventre"]);
     ("de", ["bauchschmerzen"]);
     ("fa", ["دل درد"; "درد معده"])]);
   ("prescription",
    [("en", ["prescription"]);
     ("fr", ["ordonnance"]);
     ("de", ["rezept"]);
     ("fa", ["نسخه پزشکی"])]);
   ("clinic interior",
    [("en", ["clinic"; "doctor office"]);
     ("fr", ["clinique"; "cabinet medical"; "cabinet médical"]);
     ("de", ["arztpraxis"; "klinik"]);
     ("fa", ["کلینیک"; "مطب"])]);
   ("reservation",
    [("en", ["reservation"; "booking"]);
     ("fr", ["reservation"; "réservation"]);
     ("de", ["reservierung"]);
     ("fa", ["رزرو"])]);
   ("check in",
    [("en", ["check in"; "check-in"]);
     ("fr", ["check in"; "check-in"]);
     ("de", ["einchecken"]);
     ("fa", ["پذیرش"; "چک این"])]);
   ("key card",
    [("en", ["key card"]);
     ("fr", ["carte de cle"; "carte de clé"]);
     ("de", ["schlüsselkarte"]);
     ("fa", ["کارت اتاق"])]);
   ("towel",
    [("en", ["towel"; "towels"]);
     ("fr", ["serviette"; "serviettes"]);
     ("de", ["handtuch"; "handtücher"; "handtuecher"]);
     ("fa", ["حوله"])]);
   ("extra pillow",
    [("en", ["extra pillow"]);
     ("fr", ["oreiller supplementaire"; "oreiller supplémentaire"]);
     ("de", ["extra kissen"]);
     ("fa", ["بالش اضافه"])]);
   ("invoice",
    [("en", ["invoice"]);
     ("fr", ["facture"]);
     ("de", ["rechnung"]);
     ("fa", ["فاکتور"])]);
   ("hotel reception",
    [("en", ["hotel reception"; "front desk"]);
     ("fr", ["reception hotel"; "réception hôtel"]);
     ("de", ["rezeption"]);
     ("fa", ["پذیرش هتل"])]);
   ("smartphone",
    [("en", ["smartphone"; "mobile phone"]);
     ("fr", ["smartphone"]);
     ("de", ["smartphone"; "handy"]);
     ("fa", ["گوشی هوشمند"; "موبایل"])]);
   ("sim card",
    [("en", ["sim card"; "sim"]);
     ("fr", ["carte sim"]);
     ("de", ["sim karte"; "sim-karte"]);
     ("fa", ["سیم کارت"])]);
   ("charger",
    [("en", ["charger"]);
     ("fr", ["chargeur"]);
     ("de", ["ladegerät"; "ladegeraet"]);
     ("fa", ["شارژر"])]);
   ("cable",
    [("en", ["cable"]);
     ("fr", ["cable"; "câble"]);
     ("de", ["kabel"]);
     ("fa", ["کابل"])]);
   ("case",
    [("en", ["phone case"; "case"]);
     ("fr", ["coque"]);
     ("de", ["hülle"; "huelle"]);
     ("fa", ["قاب گوشی"])]);
   ("screen protector",
    [("en", ["screen protector"]);
     ("fr", ["protection ecran"; "protection d ecran"; "protection d’écran"]);
     ("de", ["schutzfolie"]);
     ("fa", ["محافظ صفحه"; "گلس"])]);
   ("electronics store",
    [("en", ["phone shop"; "electronics store"]);
     ("fr", ["magasin de telephones"; "magasin de téléphones"]);
     ("de", ["handy laden"; "handyladen"]);
     ("fa", ["فروشگاه موبایل"])]);
   ("parcel",
    [("en", ["parcel"; "package"]);
     ("fr", ["colis"]);
     ("de", ["paket"]);
     ("fa", ["بسته پستی"])]);
   ("letter",
    [("en", ["letter"; "mail"]);
     ("fr", ["lettre"]);
     ("de", ["brief"]);
     ("fa", ["نامه"])]);
   ("stamp",
    [("en", ["stamps"; "stamp"]);
     ("fr", ["timbres"; "timbre"]);
     ("de", ["briefmarken"; "briefmarke"]);
     ("fa", ["تمبر"])]);
   ("label",
    [("en", ["label"]);
     ("fr", ["etiquette"; "étiquette"]);
     ("de", ["etikett"]);
     ("fa", ["برچسب"])]);
   ("registered",
    [("en", ["registered mail"]);
     ("fr", ["recommande"; "recommandé"]);
     ("de", ["einschreiben"]);
     ("fa", ["سفارشی"])]);
   ("express delivery",
    [("en", ["express delivery"]);
     ("fr", ["livraison express"]);
     ("de", ["expresslieferung"]);
     ("fa", ["پست پیشتاز"])]);
   ("post office interior",
    [("en", ["post office"]);
     ("fr", ["poste"]);
     ("de", ["post"]);
     ("fa", ["اداره پست"])])
  ].

Definition QUERY_TEMPLATES : list (string * (string * option string)) :=
  [
   ("espresso", ("espresso coffee cup", Some "food"));
   ("americano", ("americano coffee", Some "food"));
   ("cappuccino", ("cappuccino with latte art", Some "food"));
   ("latte", ("cafe latte cup", Some "food"));
   ("flat white", ("flat white coffee", Some "food"));
   ("black coffee", ("black coffee cup", Some "food"));
   ("green tea", ("green tea cup", Some "food"));
   ("herbal tea", ("herbal tea cup", Some "food"));
   ("hot chocolate", ("hot chocolate mug", Some "food"));
   ("croissant", ("croissant pastry on plate", Some "food"));
   ("sandwich", ("sandwich on wooden board", Some "food"));
   ("menu", ("restaurant menu on table", Some "food"));
   ("bill", ("restaurant bill on table", Some "food"));
   ("receipt", ("receipt on table", Some "food"));
   ("cough syrup", ("cough syrup bottle pharmacy shelf", Some "health"));
   ("pain tablets", ("pain relief tablets blister pack", Some "health"));
   ("nasal spray", ("nasal spray bottle", Some "health"));
   ("thermometer", ("digital thermometer", Some "health"));
   ("vitamins", ("vitamin pills bottle", Some "health"));
   ("pharmacy interior", ("pharmacy interior shelves", Some "health"));
   ("passport", ("passport on airport counter", Some "travel"));
   ("boarding pass", ("boarding pass at airport", Some "travel"));
   ("check in desk", ("airport check-in counter", Some "travel"));
   ("gate", ("airport gate sign", Some "travel"));
   ("carry on bag", ("carry on bag at airport", Some "travel"));
   ("suitcase", ("traveler with suitcase in airport", Some "travel"));
   ("airport interior", ("modern airport interior", Some "travel"));
   ("bank account", ("bank counter opening account", Some "business"));
   ("debit card", ("credit debit card closeup", Some "business"));
   ("pin code", ("entering pin at atm keypad", Some "business"));
   ("bank transfer", ("online banking transfer screen", Some "business"));
   ("online banking", ("online banking smartphone app", Some "business"));
   ("bank interior", ("bank interior counter", Some "business"));
   ("jacket", ("jacket on hanger clothing store", Some "fashion"));
   ("shirt", ("men shirt on hanger", Some "fashion"));
   ("trousers", ("trousers on rack", Some "fashion"));
   ("dress", ("dress on mannequin", Some "fashion"));
   ("shoes", ("shoes display in store", Some "fashion"));
   ("belt", ("leather belt display", Some "fashion"));
   ("fitting room", ("fitting room clothing store", Some "fashion"));
   ("cashier", ("cashier counter store", Some "fashion"));
   ("clothing store interior", ("clothing store interior", Some "fashion"));
   ("bus stop", ("city bus stop", Some "transportation"));
   ("park", ("city park path", Some "places"));
   ("map", ("tourist reading city map", Some "people"));
   ("street", ("city street view", Some "places"));
   ("square", ("town square plaza", Some "places"));
   ("bridge", ("city bridge over river", Some "places"));
   ("hotel exterior", ("hotel exterior entrance", Some "travel"));
   ("fever", ("fever thermometer patient", Some "health"));
   ("cough", ("woman coughing medical", Some "health"));
   ("sore throat", ("sore throat patient doctor", Some "health"));
   ("stomach ache", ("stomach ache person", Some "health"));
   ("prescription", ("doctor writing prescription", Some "health"));
   ("clinic interior", ("clinic waiting room", Some "health"));
   ("reservation", ("hotel reservation at reception", Some "travel"));
   ("check in", ("hotel check-in reception desk", Some "travel"));
   ("key card", ("hotel key card at reception", Some "travel"));
   ("towel", ("two towels on bed hotel", Some "travel"));
   ("extra pillow", ("extra pillow on bed", Some "travel"));
   ("invoice", ("invoice receipt hotel", Some "business"));
   ("hotel reception", ("hotel reception front desk", Some "travel"));
   ("smartphone", ("smartphone display in store", Some "computer"));
   ("sim card", ("sim card on hand", Some "computer"));
   ("charger", ("phone charger on table", Some "computer"));
   ("cable", ("usb cable closeup", Some "computer"));
   ("case", ("phone case wall display", Some "computer"));
   ("screen protector", ("installing screen protector", Some "computer"));
   ("electronics store", ("electronics store interior", Some "computer"));
   ("parcel", ("sending parcel at post office", Some "business"));
   ("letter", ("writing letter envelope", Some "business"));
   ("stamp", ("postage stamps", Some "business"));
   ("label", ("shipping label closeup", Some "business"));
   ("registered", ("registered mail counter", Some "business"));
   ("express delivery", ("express delivery package", Some "transportation"));
   ("post office interior", ("post office counter interior", Some "business"))
  ].

(** *** Normalisation and tokenisation *)

(** NFD decomposition with the combining marks removed: the identity on
    ASCII text. *)
Definition _strip_accents (s : string) : string := s.

Definition _normalize_text (s : string) : string :=
  let s := replace "’" "'" s in
  let s := replace "‑" "-" s in
  let s := replace "–" "-" s in
  let s := replace "—" "-" s in
  let s := _strip_accents (lower s) in
  let s := filter_chars (fun c => negb (is_punctuation c)) s in
  strip (collapse_ws s).

Definition guess_lang (text : string) : string :=
  let t := text in
  if existsb (fun ch => contains ch t) PERSIAN_LETTERS then "fa"
  else if existsb (fun w => contains w (lower t))
                  [" le "; " la "; " les "; " une "; " un "; " je "; "vous "; "s'il "]
  then "fr"
  else if existsb (fun w => contains w (lower t))
                  [" der "; " die "; " das "; " ich "; " bitte "; "karte "]
  then "de"
  else "en".

Definition _language_stopwords (lang : string) : list string :=
  if startswith "fr" lang then STOPWORDS_FR
  else if startswith "de" lang then STOPWORDS_DE
  else if startswith "fa" lang then STOPWORDS_FA
  else STOPWORDS_EN.

Definition _tokenize (text lang : string) : list string :=
  let t := _normalize_text text in
  let words := split t in
  let sw := _language_stopwords lang in
  filter (fun w => (2 <? String.length w)%nat && negb (mem w sw)) words.

(** *** Character trigrams *)

Definition _trigrams (s : string) : list string :=
  let s := "  " ++ s ++ "  " in
  map (fun i => substring i 3 s) (seq 0 (String.length s - 3 + 1)).

Definition _tri_sim (a b : string) : Q :=
  let A := _trigrams (_normalize_text a) in
  let B := _trigrams (_normalize_text b) in
  if (set_len A =? 0)%nat || (set_len B =? 0)%nat then 0%Q
  else
    let inter := inter_len A B in
    let union := union_len A B in
    (inject_Z (Z.of_nat inter) / inject_Z (Z.of_nat union))%Q.

(** *** Classification and anchors *)

Definition _classify (canonical : string) : string :=
  if mem canonical ["espresso"; "americano"; "cappuccino"; "latte"; "flat white";
                    "black coffee"; "green tea"; "herbal tea"; "hot chocolate";
                    "croissant"; "sandwich"] then "food"
  else if mem canonical ["passport"; "boarding pass"; "check in desk"; "gate";
                         "carry on bag"; "suitcase"; "airport interior"] then "airport"
  else if mem canonical ["cough syrup"; "pain tablets"; "nasal spray"; "thermometer";
                         "vitamins"; "clinic interior"; "pharmacy interior"] then "pharmacy"
  else if mem canonical ["bank account"; "debit card"; "pin code"; "bank transfer";
                         "online banking"; "bank interior"] then "bank"
  else if mem canonical ["jacket"; "shirt"; "trousers"; "dress"; "shoes"; "belt";
                         "fitting room"; "cashier"; "clothing store interior"] then "clothing"
  else if mem canonical ["bus stop"; "park"; "map"; "street"; "square"; "bridge";
                         "hotel exterior"] then "directions"
  else if mem canonical ["fever"; "cough"; "sore throat"; "stomach ache"; "prescription";
                         "clinic interior"] then "doctor"
  else if mem canonical ["reservation"; "check in"; "key card"; "towel"; "extra pillow";
                         "invoice"; "hotel reception"] then "hotel"
  else if mem canonical ["smartphone"; "sim card"; "charger"; "cable"; "case";
                         "screen protector"; "electronics store"] then "phone"
  else if mem canonical ["parcel"; "letter"; "stamp"; "label"; "registered";
                         "express delivery"; "post office interior"] then "post"
  else "generic".

Definition GENERIC_ANCHORS : list string := ["people indoors"; "object closeup"].

Definition ANCHOR_MAPPING : list (string * list string) :=
  [("food", ["cafe interior"; "coffee shop interior"; "barista making coffee"]);
   ("pharmacy", ["pharmacy interior shelves"; "medicine counter pharmacy"]);
   ("airport", ["modern airport interior"; "airport departure hall"]);
   ("bank", ["bank counter interior"; "atm machine"]);
   ("clothing", ["clothing store interior"; "fashion display"]);
   ("directions", ["city street view"; "town square plaza"]);
   ("doctor", ["clinic waiting room"; "doctor with patient"]);
   ("hotel", ["hotel reception front desk"; "hotel lobby"]);
   ("phone", ["electronics store interior"; "phone shop display"]);
   ("post", ["post office counter"; "mail shipping counter"]);
   ("generic", GENERIC_ANCHORS)].

Definition _domain_anchor (domain : string) : list string :=
  match get domain ANCHOR_MAPPING with
  | Some anchors => anchors
  | None => GENERIC_ANCHORS
  end.

(** The keyword table of [sentence_to_query]. *)
Definition DOMAIN_KEYWORDS : list (string * string) :=
  [("airport", "airport"); ("gate", "airport"); ("boarding", "airport");
   ("passport", "airport");
   ("bank", "bank"); ("transfer", "bank"); ("pin", "bank");
   ("parcel", "post"); ("post", "post"); ("stamp", "post");
   ("pharmacy", "pharmacy"); ("thermometer", "pharmacy"); ("vitamin", "pharmacy");
   ("hotel", "hotel"); ("towel", "hotel"); ("pillow", "hotel");
   ("sim", "phone"); ("smartphone", "phone"); ("charger", "phone");
   ("jacket", "clothing"); ("dress", "clothing"); ("belt", "clothing");
   ("shoes", "clothing");
   ("bridge", "directions"); ("map", "directions"); ("street", "directions");
   ("fever", "doctor"); ("cough", "doctor"); ("throat", "doctor")].

(** A query with its category hint, and the key the builder deduplicates on. *)
Definition QueryPair : Type := (string * option string)%type.

Definition option_string_eqb (a b : option string) : bool :=
  match a, b with
  | Some x, Some y => String.eqb x y
  | None, None => true
  | _, _ => false
  end.

Definition pair_eqb (p q : QueryPair) : bool :=
  String.eqb (fst p) (fst q) && option_string_eqb (snd p) (snd q).

(** [p in pairs] *)
Definition pair_mem (p : QueryPair) (pairs : list QueryPair) : bool :=
  existsb (pair_eqb p) pairs.

(** [if p not in pairs: pairs.append(p)] *)
Definition append_new (pairs : list QueryPair) (p : QueryPair) : list QueryPair :=
  if pair_mem p pairs then pairs else (pairs ++ [p])%list.

(** [key = (q.strip().lower(), cat)] *)
Definition dedup_key (p : QueryPair) : QueryPair := (lower (strip (fst p)), snd p).

(** The final loop of [sentence_to_query_extras], from the state
    [(seen, uniq)]. *)
Fixpoint uniq_loop (pairs : list QueryPair) (seen uniq : list QueryPair)
  : list QueryPair :=
  match pairs with
  | [] => uniq
  | (q, cat) :: rest =>
      let key := dedup_key (q, cat) in
      let '(uniq, seen) :=
        if negb (pair_mem key seen) && nonempty (strip q)
        then ((uniq ++ [(q, cat)])%list, (seen ++ [key])%list)
        else (uniq, seen) in
      if (1 + MAX_FALLBACKS <=? List.length uniq)%nat then uniq
      else uniq_loop rest seen uniq
  end.

(** [f"{eng_like} {a}".strip() if eng_like else a] *)
Definition with_eng_like (eng_like a : string) : string :=
  if nonempty eng_like then strip (eng_like ++ " " ++ a) else a.

Section WithProcessState.

(** The iteration order of sets of strings in this process. *)
Variable set_iter : list string -> list string.

(** [_SCENARIO_TERMS] once [_load_scenario_terms_once] has scanned the
    scenario text files next to the module: the mined terms per domain. *)
Variable _SCENARIO_TERMS : string -> list string.

Definition _scenario_hints_for (domain : string) : list string :=
  firstn 20 (sorted_strings (nodup string_dec (_SCENARIO_TERMS domain))).

(** *** Core matching logic *)

Definition _clean_modifiers (text : string) : string :=
  let t := _normalize_text text in
  let t := fold_left (fun t m => replace (_normalize_text m) " " t)
                     (set_iter MODIFIER_PHRASES) t in
  let t := fold_left (fun t n => replace (" " ++ n ++ " ") " " t)
                     (set_iter NEGATORS) t in
  strip (collapse_ws t).

(** [lang.split("-")[0][:2]] *)
Definition lang_code (lang : string) : string :=
  take 2 (hd "" (split_on "-" lang)).

(** [variants.get(code, [])] *)
Definition variants_get (variants : list (string * list string)) (code : string)
  : list string :=
  match get code variants with Some l => l | None => [] end.

(** [vlist] of both passes. *)
Definition variant_list (variants : list (string * list string)) (code : string)
  : list string :=
  (variants_get variants code
   ++ (if negb (String.eqb code "en") then variants_get variants "en" else []))%list.

Definition is_some {A : Type} (o : option A) : bool :=
  match o with Some _ => true | None => false end.

(** Pass 1 for one concept: some variant, longest first, occurs as whole
    words in the joined tokens. *)
Definition exact_match (joined code : string) (variants : list (string * list string))
  : bool :=
  existsb
    (fun v =>
       let v_norm := _normalize_text v in
       nonempty v_norm && is_some (word_search v_norm joined))
    (sorted_by_desc (fun v => Z.of_nat (String.length v))
                    (set_iter (variant_list variants code))).

(** Pass 2 for one concept: the best trigram similarity of a token and a
    variant. *)
Definition best_similarity (tokens : list string) (vlist : list string) : Q :=
  fold_left
    (fun best v =>
       let v_norm := _normalize_text v in
       fold_left
         (fun best tok =>
            let s := _tri_sim tok v_norm in
            if negb (Qle_bool s best) then s else best)
         tokens best)
    vlist 0%Q.

(** [first_idx] of [_detect_candidates]: the offset of the first phrase of
    the concept that occurs, [10**9] when none does.  A key always comes
    from [LEXICON]. *)
Definition first_idx (joined code key : string) : Z :=
  let variants := match get key LEXICON with Some v => v | None => [] end in
  let phrases := (variants_get variants code ++ variants_get variants "en")%list in
  let fix go (ps : list string) : Z :=
    match ps with
    | [] => 10 ^ 9
    | p :: ps' =>
        match word_search (_normalize_text p) joined with
        | Some i => Z.of_nat i
        | None => go ps'
        end
    end in
  go phrases.

Definition _detect_candidates (text lang : string) : list string :=
  let tokens := _tokenize text lang in
  let joined := join " " tokens in
  let code := lang_code lang in
  let hits :=
    map fst (filter (fun entry => exact_match joined code (snd entry)) LEXICON) in
  let hits :=
    match hits with
    | [] =>
        map fst
            (filter
               (fun entry =>
                  Qle_bool TRIGRAM_MATCH_THRESHOLD
                           (best_similarity tokens (variant_list (snd entry) code)))
               LEXICON)
    | _ => hits
    end in
  sorted_by (first_idx joined code) (set_iter hits).

(** *** Query builder *)

(** [lang if lang and lang != "auto" else guess_lang(text)] *)
Definition auto_lang (text lang : string) : string :=
  if nonempty lang && negb (String.eqb lang "auto") then lang else guess_lang text.

(** [QUERY_TEMPLATES.get(key, default)] *)
Definition template_get (key : string) (default : QueryPair) : QueryPair :=
  match get key QUERY_TEMPLATES with Some t => t | None => default end.

Definition sentence_to_query (text lang : string) (max_words : nat) : string :=
  let auto := auto_lang text lang in
  let text_norm := _clean_modifiers text in
  let tokens := _tokenize text_norm auto in
  let hits := _detect_candidates text_norm auto in
  match hits with
  | first :: _ => fst (template_get first (first, None))
  | [] =>
      let informative := firstn max_words tokens in
      let heur_text := join " " tokens in
      let domain_guess :=
        match List.find (fun kd => contains (fst kd) heur_text) DOMAIN_KEYWORDS with
        | Some kd => snd kd
        | None => "generic"
        end in
      let anchors := _domain_anchor domain_guess in
      let hints := _scenario_hints_for domain_guess in
      let phrase := strip (join " " (informative ++ firstn 1 anchors)%list) in
      let phrase :=
        match hints with
        | h :: _ => if nonempty phrase then phrase ++ " " ++ h else h
        | [] => phrase
        end in
      if nonempty phrase then phrase else hd "" anchors
  end.

(** [any(w in tokens for w in ws)] *)
Definition any_in (ws tokens : list string) : bool :=
  existsb (fun w => mem w tokens) ws.

(** The domain of a sentence for which no concept was detected. *)
Definition token_domain (tokens : list string) : string :=
  if any_in ["passport"; "gate"; "airport"; "boarding"] tokens then "airport"
  else if any_in ["pharmacy"; "thermometer"; "vitamin"] tokens then "pharmacy"
  else if any_in ["bank"; "transfer"; "pin"] tokens then "bank"
  else if any_in ["jacket"; "dress"; "belt"; "shoes"; "fitting"] tokens then "clothing"
  else if any_in ["bus"; "bridge"; "street"; "map"; "square"] tokens then "directions"
  else if any_in ["fever"; "cough"; "throat"; "stomach"] tokens then "doctor"
  else if any_in ["hotel"; "towel"; "pillow"; "invoice"] tokens then "hotel"
  else if any_in ["sim"; "smartphone"; "charger"; "cable"; "case"] tokens then "phone"
  else if any_in ["parcel"; "stamp"; "post"] tokens then "post"
  else "generic".

(** The local state of [sentence_to_query_extras] when the candidate list
    [pairs] is complete, before deduplication. *)
Record ExtrasState : Type := mkExtras {
  ex_primary : string;
  ex_primary_cat : option string;
  ex_domain : string;
  ex_eng_like : string;
  ex_pairs : list QueryPair
}.

Definition extras_state (text lang : string) : ExtrasState :=
  let auto := auto_lang text lang in
  let primary := sentence_to_query text auto MAX_QUERY_TOKENS in
  let tokens := _tokenize (_clean_modifiers text) auto in
  let hits := _detect_candidates (join " " tokens) auto in
  let '(primary_cat, domain) :=
    match hits with
    | first :: _ => (snd (template_get first (primary, None)), _classify first)
    | [] => (None, token_domain tokens)
    end in
  let pairs := [(primary, primary_cat)] in
  let pairs :=
    fold_left (fun pairs c => append_new pairs (template_get c (c, primary_cat)))
              (firstn 3 hits) pairs in
  let eng_like := join " " (filter match_ascii_word tokens) in
  let pairs :=
    if nonempty eng_like then append_new pairs (eng_like, primary_cat) else pairs in
  let anchors := _domain_anchor domain in
  let hints := _scenario_hints_for domain in
  let pairs :=
    fold_left (fun pairs a => append_new pairs (with_eng_like eng_like a, primary_cat))
              anchors pairs in
  let pairs :=
    fold_left (fun pairs h => append_new pairs (with_eng_like eng_like h, primary_cat))
              (firstn 3 hints) pairs in
  let generic := (_domain_anchor domain ++ _scenario_hints_for domain)%list in
  let pairs :=
    fold_left (fun pairs q => append_new pairs (q, primary_cat)) generic pairs in
  mkExtras primary primary_cat domain eng_like pairs.

Definition sentence_to_query_extras (text lang : string)
  : list QueryPair * option string :=
  let st := extras_state text lang in
  (uniq_loop (ex_pairs st) [] [], ex_primary_cat st).

End WithProcessState.

(** *** Ranking and scoring *)

(** One ranked candidate; [meta] keeps the attribution fields. *)
Record RankedItem : Type := mkItem {
  item_provider : string;
  item_score : Q;
  item_src : string;
  item_tags : string;
  item_meta : list (string * string)
}.

(** A hit of the Pixabay response; an absent or null field is the empty
    string. *)
Record PixabayHit : Type := mkPixabayHit {
  pix_largeImageURL : string;
  pix_webformatURL : string;
  pix_tags : string;
  pix_type : string;
  pix_pageURL : string;
  pix_user : string;
  pix_user_id : string
}.

(** A result of the Unsplash response. *)
Record UnsplashPhoto : Type := mkUnsplashPhoto {
  uns_regular : string;
  uns_full : string;
  uns_raw : string;
  uns_tag_titles : list string;
  uns_alt_description : string;
  uns_description : string;
  uns_likes : Z;
  uns_id : string;
  uns_user_name : string;
  uns_user_username : string;
  uns_user_link : string;
  uns_photo_link : string
}.

(** [a or b] on strings. *)
Definition or_else (a b : string) : string := if nonempty a then a else b.

Definition _domain_keyword_boost (text : string) : Q :=
  let text := lower text in
  let any ks := existsb (fun k => contains k text) ks in
  if any ["airport"; "gate"; "boarding"; "passport"] then 110 # 100
  else if any ["pharmacy"; "medicine"; "clinic"] then 110 # 100
  else if any ["bank"; "atm"; "finance"] then 108 # 100
  else if any ["hotel"; "reception"; "lobby"; "towel"] then 108 # 100
  else if any ["clothing"; "fashion"; "fitting room"; "dress"; "jacket"] then 108 # 100
  else if any ["post"; "mail"; "shipping"; "stamp"] then 108 # 100
  else if any ["coffee"; "cafe"; "tea"] then 105 # 100
  else if any ["street"; "bridge"; "map"; "square"] then 105 # 100
  else 1%Q.

(** [tag_tokens] of [_score_hit], in insertion order. *)
Definition tag_tokens_of (tags : string) : list string :=
  flat_map (fun t => split (_normalize_text t)) (split_on "," (_normalize_text tags)).

(** [rq] of [_score_hit], in insertion order. *)
Definition rq_of (raw_query_tokens : list string) : list string :=
  filter (fun w => (2 <? String.length w)%nat) raw_query_tokens.

(** [len(tag_tokens & rq) / max(1, len(rq))] *)
Definition overlap_of (tags : string) (raw_query_tokens : list string) : Q :=
  let tag_tokens := tag_tokens_of tags in
  let rq := rq_of raw_query_tokens in
  (inject_Z (Z.of_nat (inter_len tag_tokens rq))
   / inject_Z (Z.of_nat (Nat.max 1 (set_len rq))))%Q.

Section Ranking.

Variable set_iter : list string -> list string.

(** [tri] of [_score_hit]: the joins run over the two sets in iteration
    order. *)
Definition tag_similarity (tags : string) (raw_query_tokens : list string) : Q :=
  let tag_tokens := tag_tokens_of tags in
  let rq := rq_of raw_query_tokens in
  if (set_len rq =? 0)%nat then 0%Q
  else
    let s := _tri_sim (join " " (set_iter tag_tokens)) (join " " (set_iter rq)) in
    if Qle_bool 0 s then s else 0%Q.

Definition _score_hit (tags : string) (raw_query_tokens : list string) : Q :=
  let tag_tokens := tag_tokens_of tags in
  if (set_len tag_tokens =? 0)%nat then 0%Q
  else
    let overlap := overlap_of tags raw_query_tokens in
    let tri := tag_similarity tags raw_query_tokens in
    let boost := (1 + (if Qle_bool TRIGRAM_TAG_THRESHOLD tri then tri else 0))%Q in
    (overlap * boost)%Q.

(** The body of the loop of [_pixabay_ranked] for one hit. *)
Definition pixabay_item (raw_tokens : list string) (h : PixabayHit) : option RankedItem :=
  let src := or_else (pix_largeImageURL h) (pix_webformatURL h) in
  if negb (nonempty src) then None
  else
    let tags := pix_tags h in
    let score := _score_hit tags raw_tokens in
    let score := (score * _domain_keyword_boost tags)%Q in
    let score := if String.eqb (pix_type h) "photo" then (score * (105 # 100))%Q else score in
    Some (mkItem "pixabay" score src tags
                 [("pageURL", pix_pageURL h); ("user", pix_user h);
                  ("user_id", pix_user_id h)]).

(** [tags] of [_unsplash_ranked] for one photo. *)
Definition unsplash_tags (ph : UnsplashPhoto) : string :=
  let tag_text := join "," (uns_tag_titles ph) in
  join "," (filter nonempty [tag_text; uns_alt_description ph; uns_description ph]).

(** The body of the loop of [_unsplash_ranked] for one photo. *)
Definition unsplash_item (raw_tokens : list string) (ph : UnsplashPhoto)
  : option RankedItem :=
  let src := or_else (or_else (uns_regular ph) (uns_full ph)) (uns_raw ph) in
  if negb (nonempty src) then None
  else
    let tags := unsplash_tags ph in
    let score := _score_hit tags raw_tokens in
    let score := (score * _domain_keyword_boost tags)%Q in
    let likes := uns_likes ph in
    let score := (score * (1 + inject_Z (Z.min likes 200) / 500))%Q in
    Some (mkItem "unsplash" score src tags
                 [("id", uns_id ph); ("user", uns_user_name ph);
                  ("user_username", uns_user_username ph);
                  ("user_link", uns_user_link ph);
                  ("photo_link", uns_photo_link ph)]).

Fixpoint filter_map {A B : Type} (f : A -> option B) (l : list A) : list B :=
  match l with
  | [] => []
  | x :: l' =>
      match f x with
      | Some y => y :: filter_map f l'
      | None => filter_map f l'
      end
  end.

(** The two search endpoints: [None] when the request fails. *)
Variable pixabay_api : string -> string -> option string -> option (list PixabayHit).
Variable unsplash_api : string -> string -> option (list UnsplashPhoto).

Definition _pixabay_ranked (query key : string) (category : option string)
  : list RankedItem :=
  match pixabay_api key query category with
  | None => []
  | Some hits =>
      let raw_tokens := _tokenize (_normalize_text query) "en" in
      sorted_by_desc_Q item_score (filter_map (pixabay_item raw_tokens) hits)
  end.

Definition _unsplash_ranked (query key : string) : list RankedItem :=
  match unsplash_api key query with
  | None => []
  | Some results =>
      let raw_tokens := _tokenize (_normalize_text query) "en" in
      sorted_by_desc_Q item_score (filter_map (unsplash_item raw_tokens) results)
  end.

(** *** Visual resolver *)

(** The API keys read from [pixabay.key] and [unsplash.key]. *)
Variable pix_key : option string.
Variable uns_key : option string.

Definition _search_both_ranked (query : string) (category : option string)
  : list RankedItem :=
  let ranked_all :=
    match pix_key with
    | Some k => _pixabay_ranked query k category
    | None => []
    end in
  let ranked_all :=
    (ranked_all
     ++ match uns_key with
        | Some k => _unsplash_ranked query k
        | None => []
        end)%list in
  sorted_by_desc_Q item_score ranked_all.

(** [_download_image(sess, src, query, dest_dir, provider)]: the local path,
    or [None] when the download fails. *)
Variable _download_image : string -> string -> string -> option string.

(** The walk over [ranked_all]: the paths obtained and the download calls
    made, as (source URL, provider), in order. *)
Fixpoint download_walk (query : string) (n : Z) (items : list RankedItem)
         (seen_src : list string) (out : list string)
  : list string * list (string * string) :=
  match items with
  | [] => (out, [])
  | item :: rest =>
      let src := item_src item in
      if mem src seen_src then download_walk query n rest seen_src out
      else
        let seen_src := src :: seen_src in
        let p := _download_image src query (item_provider item) in
        let out := match p with Some p => (out ++ [p])%list | None => out end in
        if (n <=? Z.of_nat (List.length out))%Z then (out, [(src, item_provider item)])
        else
          let '(out, calls) := download_walk query n rest seen_src out in
          (out, (src, item_provider item) :: calls)
  end.

Definition search_and_download_best_traced (query : string) (n : Z)
           (category : option string) : list string * list (string * string) :=
  download_walk query n (_search_both_ranked query category) [] [].

Definition search_and_download_best (query : string) (n : Z) (category : option string)
  : list string :=
  fst (search_and_download_best_traced query n category).

End Ranking.

(** *** One image per cue *)

(** [ch.isalnum()]; a byte above 127 is part of a letter of a non-Latin
    script.  Exact on ASCII tags. *)
Definition is_alnum (c : ascii) : bool :=
  between 48 57 c || between 65 90 c || between 97 122 c || (128 <=? code c)%N.

(** [_norm_tag(t)], local to [get_images_for_cues]. *)
Definition _norm_tag (t : string) : string :=
  let t := lower (strip t) in
  let t := filter_chars (fun ch => is_alnum ch || (code ch =? 45)%N) t in
  if ((2 <=? String.length t) && (String.length t <=? 24))%nat then t else EmptyString.

(** The loops of the form [for q in qs: imgs = search(q); if imgs: img_path
    = imgs[0]; break]. *)
Fixpoint first_hit {A : Type} (search : A -> list string) (qs : list A) : option string :=
  match qs with
  | [] => None
  | q :: rest =>
      match search q with
      | p :: _ => Some p
      | [] => first_hit search rest
      end
  end.

Section ImagesForCues.

Variable set_iter : list string -> list string.
Variable _SCENARIO_TERMS : string -> list string.
Variable pixabay_api : string -> string -> option string -> option (list PixabayHit).
Variable unsplash_api : string -> string -> option (list UnsplashPhoto).
Variable pix_key : option string.
Variable uns_key : option string.
Variable _download_image : string -> string -> string -> option string.

(** [IMAGES_PER_SENTENCE], read from the settings. *)
Variable IMAGES_PER_SENTENCE : Z.

(** [search_and_download_best(q, CACHE_IMG_DIR, n=max(1, IMAGES_PER_SENTENCE),
    category=cat)] *)
Definition search_images (q : string) (cat : option string) : list string :=
  search_and_download_best set_iter pixabay_api unsplash_api pix_key uns_key
                           _download_image q (Z.max 1 IMAGES_PER_SENTENCE) cat.

(** The body of the loop of [get_images_for_cues] for a primary cue: the
    explicit tags first (joined, then one by one), then the queries of
    [sentence_to_query_extras]. *)
Definition image_for_cue (c : Cue) : option string :=
  let lang := if nonempty (cue_lang c) then cue_lang c else "auto" in
  let tags := cue_tags c in
  let img_path :=
    match tags with
    | [] => None
    | _ :: _ =>
        let tags_norm := filter nonempty (map _norm_tag tags) in
        let primary_cat :=
          snd (sentence_to_query_extras set_iter _SCENARIO_TERMS (cue_text c) lang) in
        match tags_norm with
        | [] => None
        | _ :: _ =>
            match search_images (join " " tags_norm) primary_cat with
            | p :: _ => Some p
            | [] => first_hit (fun t => search_images t primary_cat) tags_norm
            end
        end
    end in
  match img_path with
  | Some p => Some p
  | None =>
      let q_pairs :=
        fst (sentence_to_query_extras set_iter _SCENARIO_TERMS (cue_text c) lang) in
      first_hit (fun qc : QueryPair => search_images (fst qc) (snd qc)) q_pairs
  end.

Fixpoint get_images_loop (cues : list Cue) (last_img : option string)
  : list (option string) :=
  match cues with
  | [] => []
  | c :: rest =>
      if cue_is_primary c then
        let img_path := image_for_cue c in
        img_path :: get_images_loop rest img_path
      else last_img :: get_images_loop rest last_img
  end.

Definition get_images_for_cues (cues : list Cue) : list (option string) :=
  get_images_loop cues None.

End ImagesForCues.

(** *** Slideshow *)

Fixpoint compute_visual_spans (cues : list Cue) (total_audio_ms : Z) : list (Z * Z) :=
  match cues with
  | [] => []
  | c :: rest =>
      let start := cue_start c in
      let end_ :=
        match rest with
        | next :: _ => Z.max start (cue_start next)
        | [] => total_audio_ms
        end in
      (start, end_) :: compute_visual_spans rest total_audio_ms
  end.

(** [frames] of [build_slideshow_video_cfr] for one span:
    [max(1, round(dur_ms * r_fps / 1000.0))].  The product is an integer and
    the quotient by 1000 is rounded half to even, as [round] does. *)
Definition span_frames (fps : Z) (span : Z * Z) : Z :=
  let '(start_ms, end_ms) := span in
  let dur_ms := Z.max 0 (end_ms - start_ms) in
  Z.max 1 (py.round_div (dur_ms * fps) 1000).

(** One rendered segment: its number, its still image if one is rendered,
    and its frame count. *)
Record Clip : Type := mkClip {
  clip_number : nat;
  clip_image : option string;
  clip_frames : Z
}.

Section Slideshow.

(** [Path(img).exists()] *)
Variable path_exists : string -> bool.

Definition render_clip (fps : Z) (i : nat) (span : Z * Z) (img : option string) : Clip :=
  let frames := span_frames fps span in
  match img with
  | Some p => if nonempty p && path_exists p then mkClip i (Some p) frames
              else mkClip i None frames
  | None => mkClip i None frames
  end.

Fixpoint render_clips (fps : Z) (i : nat) (spans : list (Z * Z))
         (images : list (option string)) : list Clip :=
  match spans, images with
  | span :: spans', img :: images' =>
      render_clip fps i span img :: render_clips fps (S i) spans' images'
  | _, _ => []
  end.

(** The segments [build_slideshow_video_cfr] renders before concatenation. *)
Definition build_slideshow_video_cfr (cues : list Cue)
           (per_sentence_images : list (option string)) (total_audio_ms fps : Z)
  : list Clip :=
  let spans := compute_visual_spans cues total_audio_ms in
  render_clips fps 1 spans per_sentence_images.

End Slideshow.

End video_utils.

(** ** main.py: input stage *)

Module main_input.

(** [_slug(s)]: the stem of the output files.  Exact on ASCII text, where
    [str.lower] and the class [\s] act on single bytes. *)
Definition is_slug_char (c : ascii) : bool :=
  pystr.between 97 122 c || pystr.between 48 57 c
  || (pystr.code c =? 95)%N || (pystr.code c =? 45)%N.

Definition _slug (s : string) : string :=
  let s := pystr.strip (pystr.lower s) in
  let s := pystr.sub_ws_runs "_" s in
  let s := pystr.filter_chars is_slug_char s in
  if pystr.nonempty s then s else "output"%string.

(** The class [[^\s#.,;:!?()]] of the hashtag patterns. *)
Fixpoint char_in (c : ascii) (s : string) : bool :=
  match s with
  | EmptyString => false
  | String d s' => Ascii.eqb c d || char_in c s'
  end.

Definition is_tag_char (c : ascii) : bool :=
  negb (pystr.is_space c) && negb (char_in c "#.,;:!?()"%string).

Definition is_hash (c : ascii) : bool := Ascii.eqb c "#"%char.

Definition head_is_tag (s : string) : bool :=
  match s with
  | EmptyString => false
  | String c _ => is_tag_char c
  end.

(** [[m.group(1) for m in re.finditer(r'#([^\s#.,;:!?()]+)', text)]]: [cur]
    is the tag read so far after a [#], if one is being read. *)
Fixpoint scan_tags (cur : option string) (s : string) : list string :=
  match s with
  | EmptyString =>
      match cur with
      | Some t => if pystr.nonempty t then [t] else []
      | None => []
      end
  | String c s' =>
      let next := if is_hash c then Some EmptyString else None in
      match cur with
      | Some t =>
          if is_tag_char c then scan_tags (Some (t ++ String c EmptyString)%string) s'
          else ((if pystr.nonempty t then [t] else []) ++ scan_tags next s')%list
      | None => scan_tags next s'
      end
  end.

(** [re.sub(r'\s*#([^\s#.,;:!?()]+)', '', text)]: [st] is [None] inside a
    hashtag being removed, and otherwise the whitespace read since the last
    character kept, which goes with the hashtag after it when one follows. *)
Fixpoint remove_tags_from (st : option string) (s : string) : string :=
  match s with
  | EmptyString => match st with Some ws => ws | None => EmptyString end
  | String c s' =>
      let ws := match st with Some ws => ws | None => EmptyString end in
      if match st with None => is_tag_char c | Some _ => false end
      then remove_tags_from None s'
      else if pystr.is_space c then remove_tags_from (Some (ws ++ String c EmptyString)%string) s'
      else if is_hash c && head_is_tag s' then remove_tags_from None s'
      else (ws ++ String c (remove_tags_from (Some EmptyString) s'))%string
  end.

(** [_extract_hashtags_and_clean(s)]: the text without its hashtags, and the
    hashtags. *)
Definition _extract_hashtags_and_clean (s : string) : string * list string :=
  if negb (pystr.nonempty s) then (EmptyString, [])
  else
    let text := pystr.strip s in
    let tags := map pystr.strip (scan_tags None text) in
    let cleaned := remove_tags_from (Some EmptyString) text in
    let cleaned := pystr.strip (pystr.sub_ws2 cleaned) in
    (cleaned, tags).

End main_input.

(** ** main.py: video stage *)

Module main_video.

(** The loop that builds [expanded_images]: a primary cue takes the next
    image of the list ([None] when the list is used up), a secondary cue
    repeats the last image taken. *)
Fixpoint expand_images (cues_src : list Cue) (images : list (option string))
         (last_img : option string) : list (option string) :=
  match cues_src with
  | [] => []
  | c :: rest =>
      if cue_is_primary c then
        match images with
        | img :: images' => img :: expand_images rest images' img
        | [] => None :: expand_images rest [] None
        end
      else last_img :: expand_images rest images last_img
  end.

End main_video.

(** ** Predicates of the specification and scenarios *)

Definition scenario_settings : main.Settings :=
  main.mkSettings 2 2 2500 3500 true "en" "fr".

Definition scenario_tts (text lang : string) : AudioSegment :=
  if String.eqb lang "en" then repeat 1 900%nat else repeat 1 1200%nat.

Definition scenario_lines : list main.LogicalLine :=
  [("I need a coffee."%string, "J'ai besoin d'un cafe."%string,
    ["coffee"%string; "cafe"%string]);
   ("The shop is closed today."%string, ""%string, [])].

(** What the spec says of the primary cue of one input triple. *)
Definition primary_cue_of (settings : main.Settings)
           (tts : string -> string -> AudioSegment) (line : main.LogicalLine) (c : Cue)
  : Prop :=
  let '(primary, _, tags) := line in
  let d := len (main.tts_or_silence tts primary (main.primary_code settings)) in
  cue_text c = primary
  /\ cue_tags c = tags
  /\ cue_end c - cue_start c
     = main.PRIMARY_REPEAT_CNT settings * d
       + (main.PRIMARY_REPEAT_CNT settings - 1) * main.PAUSE_REP_MS settings.

(** The rounding function [main] has in scope: the one of the subtitles
    module, or the identity fallback bound when that import fails. *)
Definition grid_rounding_in_use (f : Z -> Z) : Prop :=
  main.rounds_to_nearest_grid_unit f
  \/ (forall x, f x = main.round_to_ass_grid_fallback x).

Definition scenario_slideshow_cues : list Cue :=
  [mkCue 0 4300 "one" "en" 2 true []; mkCue 4300 8000 "two" "en" 2 true [];
   mkCue 9000 11000 "three" "en" 2 true []].

(** Descending order of a rational key. *)
Definition score_ge {A : Type} (key : A -> Q) (a b : A) : Prop := (key b <= key a)%Q.

Definition scenario_query : string := "zebra window garden forest".

Definition scenario_pixabay_hit : video_utils.PixabayHit :=
  video_utils.mkPixabayHit "https://p/1.jpg" ""
    "zebra, umbrella, mountain, bicycle, elephant" "illustration" "" "ann" "7".

Definition scenario_unsplash_photo : video_utils.UnsplashPhoto :=
  video_utils.mkUnsplashPhoto "https://u/1.jpg" "" "" [] "zebra under big umbrella" ""
    0 "id" "bob" "bob1" "" "".

Definition scenario_unsplash_api (key query : string)
  : option (list video_utils.UnsplashPhoto) :=
  Some [scenario_unsplash_photo;
        video_utils.mkUnsplashPhoto "https://u/2.jpg" "" "" [] "" "" 12 "id2" "eve" "eve2" "" ""].

Definition scenario_pixabay_api (key query : string) (category : option string)
  : option (list video_utils.PixabayHit) :=
  Some [scenario_pixabay_hit;
        video_utils.mkPixabayHit "https://u/1.jpg" "" "zebra" "photo" "" "cat" "9"].

(** A string is visible when some character of it is not whitespace. *)
Definition has_visible (s : string) : bool :=
  negb (pystr.forall_chars pystr.is_space s).

(** What the spec says of the deduplication, before the cap: keep a pair when
    its (lowercased query, category) key is seen for the first time, in the
    order of the candidates; a blank query is never kept. *)
Fixpoint dedupe_first_seen_from (seen pairs : list video_utils.QueryPair)
  : list video_utils.QueryPair :=
  match pairs with
  | [] => []
  | p :: rest =>
      if negb (video_utils.pair_mem (video_utils.dedup_key p) seen)
         && pystr.nonempty (pystr.strip (fst p))
      then p :: dedupe_first_seen_from (seen ++ [video_utils.dedup_key p]) rest
      else dedupe_first_seen_from seen rest
  end.

Definition dedupe_first_seen (pairs : list video_utils.QueryPair)
  : list video_utils.QueryPair :=
  dedupe_first_seen_from [] pairs.

(** The cap of the query plan: the primary query and the fallbacks. *)
Definition CAP : nat := 1 + video_utils.MAX_FALLBACKS.

(** ** Predicates for the further properties *)



(** [R] holds of every two neighbours of a list. *)
Fixpoint adjacent {A : Type} (R : A -> A -> Prop) (l : list A) : Prop :=
  match l with
  | [] => True
  | a :: rest =>
      match rest with
      | [] => True
      | b :: _ => R a b /\ adjacent R rest
      end
  end.

(** A cue follows another without overlap, and at least 1700 ms after a
    primary cue. *)
Definition follows (c c' : Cue) : Prop :=
  cue_end c <= cue_start c'
  /\ (cue_is_primary c = true -> cue_end c + 1700 <= cue_start c').

(** The queries [get_images_for_cues] may search for a primary cue: the
    normalised tags joined by a space, each normalised tag, and the queries
    of the plan of the cue's text. *)
Definition candidate_queries (set_iter : list string -> list string)
           (_SCENARIO_TERMS : string -> list string) (c : Cue) : list string :=
  let lang := if pystr.nonempty (cue_lang c) then cue_lang c else "auto"%string in
  let tags_norm := filter pystr.nonempty (map video_utils._norm_tag (cue_tags c)) in
  (pystr.join " " tags_norm
   :: tags_norm
   ++ map fst (fst (video_utils.sentence_to_query_extras
                      set_iter _SCENARIO_TERMS (cue_text c) lang)))%list.

(** A download that always succeeds and stores the file under its URL. *)
Definition scenario_download (src query provider : string) : option string := Some src.

Definition scenario_tagged_cues : list Cue :=
  [mkCue 0 2000 "I need a coffee." "en" 1 true ["Coffee"%string; "x"%string];
   mkCue 3000 5000 "J'ai besoin d'un cafe." "fr" 1 false []].

(** Strictly ascending order of strings, by code points. *)
Definition string_lt (a b : string) : Prop := String.leb a b = true /\ a <> b.


(** No [#] of the text starts a hashtag: each is followed by a character
    that cannot be part of a tag, or by the end. *)
Fixpoint hash_free (s : string) : bool :=
  match s with
  | EmptyString => true
  | String c s' =>
      negb (main_input.is_hash c && main_input.head_is_tag s') && hash_free s'
  end.

Definition head_is_space (s : string) : bool :=
  match s with
  | EmptyString => false
  | String c _ => pystr.is_space c
  end.

(** No two whitespace characters are next to each other. *)
Fixpoint single_spaced (s : string) : bool :=
  match s with
  | EmptyString => true
  | String c s' => negb (pystr.is_space c && head_is_space s') && single_spaced s'
  end.

(** The state of [remove_tags_from]: its whitespace is whitespace. *)
Definition state_ok (st : option string) : Prop :=
  match st with
  | Some ws => pystr.forall_chars pystr.is_space ws = true
  | None => True
  end.

(** The next character kept cannot continue a [#] kept just before. *)
Definition quiet (st : option string) (s : string) : Prop :=
  match st with
  | Some ws => pystr.nonempty ws = true \/ main_input.head_is_tag s = false
  | None => True
  end.


(* ================================================================= *)
(** * Part II: properties *)
(* ================================================================= *)

(** ** Lengths of audio segments *)

Section AudioLengths.

Lemma len_nonneg (seg : AudioSegment) : 0 <= len seg.
Proof. unfold len. lia. Qed.


Lemma len_silent (d : Z) : len (silent d) = Z.max 0 d.
Proof. unfold len, silent. rewrite repeat_length. lia. Qed.

Lemma slice_to_firstn (seg : AudioSegment) (stop : Z) :
  0 <= stop -> slice_to seg stop = firstn (Z.to_nat stop) seg.
Proof.
  intros Hs. unfold slice_to.
  pose proof (len_nonneg seg) as Hl.
  destruct (Z.min stop (len seg) <? 0) eqn:E; [apply Z.ltb_lt in E; lia|].
  destruct (Z.le_ge_cases stop (len seg)) as [H|H].
  - now rewrite Z.min_l.
  - rewrite Z.min_r by assumption.
    unfold len in *. rewrite Nat2Z.id.
    rewrite firstn_all. symmetry. apply firstn_all2. lia.
Qed.

Lemma len_slice_to (seg : AudioSegment) (stop : Z) :
  0 <= stop -> len (slice_to seg stop) = Z.min stop (len seg).
Proof.
  intros Hs. rewrite slice_to_firstn by assumption.
  unfold len. rewrite length_firstn. lia.
Qed.

End AudioLengths.

(** ** The repeat loop of the audio builder *)

Section RepeatLoop.

Import audio_utils.




End RepeatLoop.

(** ** Segment fitter: [build_audio_snapped_to_cues] *)

Section SegmentFitter.

Import audio_utils.

Variable tts : string -> string -> AudioSegment.
Variable pause_rep_ms : Z.



End SegmentFitter.




(** ** Cue timeline builder: the draft loop of [main] *)

Section DraftTimeline.

Import main.

Variable settings : Settings.
Variable tts : string -> string -> AudioSegment.

Lemma total_ms_nonneg (r d : Z) : 0 <= r -> 0 <= d -> 0 <= total_ms settings r d.
Proof.
  intros Hr Hd. unfold total_ms.
  pose proof (len_nonneg (silence_rep settings)). nia.
Qed.

Lemma total_ms_formula (r d : Z) :
  1 <= r -> 0 <= PAUSE_REP_MS settings ->
  total_ms settings r d = r * d + (r - 1) * PAUSE_REP_MS settings.
Proof.
  intros Hr Hp. unfold total_ms, silence_rep, audio_utils._normalize.
  rewrite len_silent. rewrite !Z.max_r by lia. reflexivity.
Qed.

(** One step of the loop, unfolded. *)
Lemma draft_loop_cons (primary secondary : string) (tags : list string)
      (rest : list LogicalLine) (t : Z) :
  let total1 :=
    total_ms settings (PRIMARY_REPEAT_CNT settings)
             (len (tts_or_silence tts primary (primary_code settings))) in
  let c1 := mkCue t (t + total1) primary (primary_code settings)
                  (PRIMARY_REPEAT_CNT settings) true tags in
  let t1 := t + total1 + Z.max (len (silence_sent settings)) 1700 in
  let bilingual := ENABLE_BILINGUAL settings && negb (String.eqb secondary "") in
  let total2 :=
    total_ms settings (SECONDARY_REPEAT_CNT settings)
             (len (tts_or_silence tts secondary (secondary_code settings))) in
  let c2 := mkCue t1 (t1 + total2) secondary (secondary_code settings)
                  (SECONDARY_REPEAT_CNT settings) false [] in
  let t2 := (if bilingual then t1 + total2 else t1) + len (silence_sent settings) in
  draft_loop settings tts ((primary, secondary, tags) :: rest) t =
    (c1 :: (if bilingual then [c2] else []) ++ fst (draft_loop settings tts rest t2),
     snd (draft_loop settings tts rest t2)).
Proof.
  cbv zeta. cbn [draft_loop].
  destruct (ENABLE_BILINGUAL settings && negb (String.eqb secondary "")).
  - destruct (draft_loop settings tts rest _); reflexivity.
  - destruct (draft_loop settings tts rest _); reflexivity.
Qed.

Hypothesis primary_repeat_nonneg : 0 <= PRIMARY_REPEAT_CNT settings.
Hypothesis secondary_repeat_nonneg : 0 <= SECONDARY_REPEAT_CNT settings.

(** Invariant of the loop: the cursor never moves back, every cue starts at
    or after the cursor it was created from, and ends no earlier than it
    starts. *)
Lemma draft_loop_invariant (lines : list LogicalLine) :
  forall t,
    t <= snd (draft_loop settings tts lines t)
    /\ Forall (fun c => t <= cue_start c /\ cue_start c <= cue_end c)
              (fst (draft_loop settings tts lines t))
    /\ StronglySorted Z.le (map cue_start (fst (draft_loop settings tts lines t))).
Proof.
  induction lines as [|[[primary secondary] tags] rest IH]; intros t.
  - simpl. repeat split; [lia|constructor|constructor].
  - rewrite draft_loop_cons. cbv zeta. cbn [fst snd].
    set (total1 := total_ms settings _ (len (tts_or_silence tts primary _))).
    set (total2 := total_ms settings _ (len (tts_or_silence tts secondary _))).
    assert (H1 : 0 <= total1) by (apply total_ms_nonneg; [assumption|apply len_nonneg]).
    assert (H2 : 0 <= total2) by (apply total_ms_nonneg; [assumption|apply len_nonneg]).
    pose proof (len_nonneg (silence_sent settings)) as Hs.
    set (t1 := t + total1 + Z.max (len (silence_sent settings)) 1700).
    assert (Ht1 : t <= t1) by (unfold t1; lia).
    set (b := ENABLE_BILINGUAL settings && negb (String.eqb secondary "")).
    set (t2 := (if b then t1 + total2 else t1) + len (silence_sent settings)).
    assert (Ht2 : t1 <= t2) by (unfold t2; destruct b; lia).
    destruct (IH t2) as (IHt & IHall & IHsorted).
    assert (Hrest : Forall (fun c => t1 <= cue_start c /\ cue_start c <= cue_end c)
                           ((if b then [mkCue t1 (t1 + total2) secondary
                                              (secondary_code settings)
                                              (SECONDARY_REPEAT_CNT settings) false []]
                             else []) ++ fst (draft_loop settings tts rest t2))).
    { apply Forall_app. split.
      - destruct b; constructor; [simpl; lia|constructor].
      - eapply Forall_impl; [|exact IHall]. simpl. intros c Hc. lia. }
    split; [lia|]. split.
    + constructor; [simpl; lia|].
      eapply Forall_impl; [|exact Hrest]. simpl. intros c Hc. lia.
    + cbn [map cue_start]. constructor.
      * rewrite map_app. destruct b; cbn [map List.app cue_start]; [|exact IHsorted].
        constructor; [exact IHsorted|].
        apply Forall_forall. intros x Hx. apply in_map_iff in Hx.
        destruct Hx as (c & <- & Hc).
        rewrite Forall_forall in IHall. specialize (IHall c Hc). lia.
      * apply Forall_forall. intros x Hx. apply in_map_iff in Hx.
        destruct Hx as (c & <- & Hc).
        rewrite Forall_forall in Hrest. specialize (Hrest c Hc). lia.
Qed.

End DraftTimeline.

(** C2.  Every cue sequence produced by the draft cue timeline builder (with
    repeat counts that are not negative, as the cue data model requires) is
    sorted in nondecreasing [start] order, and every cue in it satisfies
    [end >= start]. *)
Theorem cues_draft_sorted_and_well_formed
  (settings : main.Settings) (tts : string -> string -> AudioSegment)
  (logical_lines : list main.LogicalLine) :
  0 <= main.PRIMARY_REPEAT_CNT settings ->
  0 <= main.SECONDARY_REPEAT_CNT settings ->
  StronglySorted Z.le (map cue_start (main.cues_draft settings tts logical_lines))
  /\ Forall (fun c => cue_start c <= cue_end c) (main.cues_draft settings tts logical_lines).
Proof.
  intros Hp Hs. unfold main.cues_draft.
  destruct (draft_loop_invariant settings tts Hp Hs logical_lines 0) as (_ & Hall & Hsorted).
  split; [exact Hsorted|].
  eapply Forall_impl; [|exact Hall]. simpl. intros c Hc. lia.
Qed.

Lemma cues_draft_sorted_and_well_formed_witness :
  StronglySorted Z.le
    (map cue_start (main.cues_draft scenario_settings scenario_tts scenario_lines))
  /\ Forall (fun c => cue_start c <= cue_end c)
            (main.cues_draft scenario_settings scenario_tts scenario_lines).
Proof.
  apply (cues_draft_sorted_and_well_formed scenario_settings scenario_tts scenario_lines).
  - simpl. lia.
  - simpl. lia.
Defined.

Section PrimaryWindows.

Import main.

Variable settings : Settings.
Variable tts : string -> string -> AudioSegment.

Lemma draft_loop_primary_windows (lines : list LogicalLine) :
  1 <= PRIMARY_REPEAT_CNT settings ->
  0 <= PAUSE_REP_MS settings ->
  forall t,
    Forall2 (primary_cue_of settings tts) lines
            (filter cue_is_primary (fst (draft_loop settings tts lines t))).
Proof.
  intros Hr Hp.
  induction lines as [|[[primary secondary] tags] rest IH]; intros t.
  - simpl. constructor.
  - rewrite draft_loop_cons. cbv zeta. cbn [fst filter cue_is_primary].
    rewrite filter_app.
    replace (filter cue_is_primary
               (if ENABLE_BILINGUAL settings && negb (String.eqb secondary "")
                then [_] else [])) with (@nil Cue)
      by (destruct (ENABLE_BILINGUAL settings && negb (String.eqb secondary "")); reflexivity).
    cbn [List.app]. constructor; [|apply IH].
    unfold primary_cue_of. cbn [cue_text cue_tags cue_end cue_start].
    rewrite total_ms_formula by assumption.
    repeat split; lia.
Qed.

End PrimaryWindows.

(** C3.  For each input triple, the window of its primary cue is
    [repeat_primary * d + (repeat_primary - 1) * pause_between_repeats], with
    [d] the measured duration of one synthesized utterance (repeat count at
    least 1, pause not negative); with repeat 2, [d = 900] and gap 2500 the
    window is exactly 4300 ms. *)
Theorem primary_window_length :
  (forall (settings : main.Settings) (tts : string -> string -> AudioSegment)
          (logical_lines : list main.LogicalLine),
      1 <= main.PRIMARY_REPEAT_CNT settings ->
      0 <= main.PAUSE_REP_MS settings ->
      Forall2 (primary_cue_of settings tts) logical_lines
              (filter cue_is_primary (main.cues_draft settings tts logical_lines)))
  /\ map (fun c => cue_end c - cue_start c)
         (filter cue_is_primary
                 (main.cues_draft scenario_settings scenario_tts scenario_lines))
     = [4300; 4300].
Proof.
  split.
  - intros settings tts logical_lines Hr Hp. unfold main.cues_draft.
    now apply draft_loop_primary_windows.
  - vm_compute. reflexivity.
Qed.

Lemma primary_window_length_witness :
  Forall2 (primary_cue_of scenario_settings scenario_tts) scenario_lines
          (filter cue_is_primary
                  (main.cues_draft scenario_settings scenario_tts scenario_lines)).
Proof.
  apply (proj1 primary_window_length scenario_settings scenario_tts scenario_lines).
  - simpl. lia.
  - simpl. lia.
Defined.

(** ** Grid snap *)

Section GridSnap.

Import main.

Lemma nearest_grid_rounding_monotone (f : Z -> Z) :
  rounds_to_nearest_grid_unit f -> forall x y, x <= y -> f x <= f y.
Proof.
  intros Hf x y Hxy.
  destruct (Hf x) as [Hmx Hdx]. destruct (Hf y) as [Hmy Hdy].
  unfold ASS_GRID_MS in *.
  pose proof (Z.div_mod (f x) 10 ltac:(lia)) as Ex.
  pose proof (Z.div_mod (f y) 10 ltac:(lia)) as Ey.
  rewrite Hmx in Ex. rewrite Hmy in Ey.
  destruct (Z.eq_dec x y) as [->|Hne]; [lia|].
  lia.
Qed.

Lemma round_to_ass_grid_nearest : rounds_to_nearest_grid_unit round_to_ass_grid.
Proof.
  intros x. unfold round_to_ass_grid, py.round_div, ASS_GRID_MS.
  pose proof (Z.div_mod x 10 ltac:(lia)) as E.
  pose proof (Z.mod_pos_bound x 10 ltac:(lia)) as B.
  split.
  - rewrite Z.mul_comm. apply Z_mod_mult.
  - destruct (2 * (x mod 10) <? 10) eqn:E1; [apply Z.ltb_lt in E1; lia|].
    apply Z.ltb_ge in E1.
    destruct (10 <? 2 * (x mod 10)) eqn:E2; [apply Z.ltb_lt in E2; lia|].
    apply Z.ltb_ge in E2.
    destruct (Z.even (x / 10)); lia.
Qed.

Lemma snap_to_ass_grid_nth (f : Z -> Z) (cues_src : list Cue) (i : nat) (c : Cue) :
  nth_error cues_src i = Some c ->
  nth_error (snap_to_ass_grid f cues_src) i
  = Some (set_times c (f (cue_start c)) (f (cue_end c))).
Proof.
  intros H. unfold snap_to_ass_grid. rewrite nth_error_map, H. reflexivity.
Qed.

End GridSnap.

(** C4.  When grid snap is enabled, rounding the [start] and [end] of every
    cue onto the grid never yields [end < start] for a cue whose duration was
    nonzero before the snap. *)
Theorem grid_snap_never_inverts
  (f : Z -> Z) (cues_src : list Cue) (i : nat) (c : Cue) :
  grid_rounding_in_use f ->
  nth_error cues_src i = Some c ->
  cue_start c < cue_end c ->
  exists c',
    nth_error (main.snap_to_ass_grid f cues_src) i = Some c'
    /\ cue_start c' = f (cue_start c)
    /\ cue_end c' = f (cue_end c)
    /\ cue_start c' <= cue_end c'.
Proof.
  intros Hf Hi Hlt.
  exists (set_times c (f (cue_start c)) (f (cue_end c))).
  split; [now apply snap_to_ass_grid_nth|].
  cbn [set_times cue_start cue_end]. repeat split.
  destruct Hf as [Hf|Hf].
  - apply nearest_grid_rounding_monotone; [assumption|lia].
  - rewrite !Hf. unfold main.round_to_ass_grid_fallback. lia.
Qed.

Lemma grid_snap_never_inverts_witness :
  exists c',
    nth_error (main.snap_to_ass_grid main.round_to_ass_grid
                 [mkCue 1001 1004 "hi" "en" 1 true []]) 0 = Some c'
    /\ cue_start c' = main.round_to_ass_grid 1001
    /\ cue_end c' = main.round_to_ass_grid 1004
    /\ cue_start c' <= cue_end c'.
Proof.
  apply (grid_snap_never_inverts main.round_to_ass_grid
           [mkCue 1001 1004 "hi" "en" 1 true []] 0 (mkCue 1001 1004 "hi" "en" 1 true [])).
  - left. exact round_to_ass_grid_nearest.
  - reflexivity.
  - simpl. lia.
Defined.

(** ** Slideshow spans and frame counts *)

Section SlideshowFacts.

Import video_utils.

Lemma compute_visual_spans_nth (total : Z) (cues : list Cue) :
  forall (i : nat) (c : Cue),
    nth_error cues i = Some c ->
    nth_error (compute_visual_spans cues total) i
    = Some (cue_start c,
            match nth_error cues (S i) with
            | Some next => Z.max (cue_start c) (cue_start next)
            | None => total
            end).
Proof.
  induction cues as [|c0 rest IH]; intros i c Hi.
  - destruct i; discriminate.
  - destruct i as [|i].
    + injection Hi as ->. cbn [compute_visual_spans nth_error].
      destruct rest; reflexivity.
    + cbn [compute_visual_spans]. cbn [nth_error] in Hi |- *.
      now apply IH.
Qed.

Lemma compute_visual_spans_length (total : Z) (cues : list Cue) :
  List.length (compute_visual_spans cues total) = List.length cues.
Proof.
  induction cues as [|c rest IH]; [reflexivity|].
  cbn [compute_visual_spans List.length]. now rewrite IH.
Qed.

Lemma render_clips_frames (path_exists : string -> bool) (fps : Z) :
  forall (spans : list (Z * Z)) (images : list (option string)) (i : nat),
    map clip_frames (render_clips path_exists fps i spans images)
    = map (span_frames fps) (firstn (List.length images) spans).
Proof.
  induction spans as [|span spans IH]; intros images i.
  - destruct images; reflexivity.
  - destruct images as [|img images]; [reflexivity|].
    cbn [render_clips map List.length firstn]. rewrite IH. f_equal.
    unfold render_clip. destruct img as [p|]; [|reflexivity].
    destruct (pystr.nonempty p && path_exists p); reflexivity.
Qed.

Lemma span_frames_unclamped (fps start_ms end_ms : Z) :
  start_ms <= end_ms ->
  1 <= py.round_div ((end_ms - start_ms) * fps) 1000 ->
  span_frames fps (start_ms, end_ms) = py.round_div ((end_ms - start_ms) * fps) 1000.
Proof.
  intros Hd Hr. unfold span_frames.
  rewrite (Z.max_r 0 (end_ms - start_ms)) by lia. lia.
Qed.

End SlideshowFacts.

(** C7 (as amended).  The slideshow assembler gives cue [i] the visual span
    from [start_i] to [max(start_i, start_{i+1})] (that is, to [start_{i+1}]
    when the starts do not decrease) and gives the last cue a span ending at
    the total audio length; every span paired with an image slot is rendered
    with [max(1, round(max(0, duration_ms) * fps / 1000))] frames, which is
    [round(duration_ms * fps / 1000)] whenever that count is at least 1.  For
    starts 0, 4300, 9000, total length 12000 and 30 fps the spans are
    (0,4300), (4300,9000), (9000,12000) with 129, 141 and 90 frames. *)
Theorem visual_spans_and_frame_counts :
  (forall (cues : list Cue) (total_audio_ms : Z) (i : nat) (c : Cue),
      nth_error cues i = Some c ->
      nth_error (video_utils.compute_visual_spans cues total_audio_ms) i
      = Some (cue_start c,
              match nth_error cues (S i) with
              | Some next => Z.max (cue_start c) (cue_start next)
              | None => total_audio_ms
              end))
  /\ (forall (path_exists : string -> bool) (cues : list Cue)
             (images : list (option string)) (total_audio_ms fps : Z),
         map video_utils.clip_frames
             (video_utils.build_slideshow_video_cfr path_exists cues images
                                                    total_audio_ms fps)
         = map (fun span => Z.max 1 (py.round_div (Z.max 0 (snd span - fst span) * fps) 1000))
               (firstn (List.length images)
                       (video_utils.compute_visual_spans cues total_audio_ms)))
  /\ (forall fps start_ms end_ms : Z,
         start_ms <= end_ms ->
         1 <= py.round_div ((end_ms - start_ms) * fps) 1000 ->
         video_utils.span_frames fps (start_ms, end_ms)
         = py.round_div ((end_ms - start_ms) * fps) 1000)
  /\ video_utils.compute_visual_spans scenario_slideshow_cues 12000
     = [(0, 4300); (4300, 9000); (9000, 12000)]
  /\ map video_utils.clip_frames
         (video_utils.build_slideshow_video_cfr (fun _ => true) scenario_slideshow_cues
                                                [None; None; None] 12000 30)
     = [129; 141; 90].
Proof.
  split; [|split; [|split; [|split]]].
  - intros cues total i c H. now apply compute_visual_spans_nth.
  - intros path_exists cues images total fps.
    unfold video_utils.build_slideshow_video_cfr.
    rewrite render_clips_frames. apply map_ext. intros [s e]. reflexivity.
  - intros fps s e. apply span_frames_unclamped.
  - reflexivity.
  - reflexivity.
Qed.

Lemma visual_spans_and_frame_counts_witness :
  nth_error (video_utils.compute_visual_spans scenario_slideshow_cues 12000) 1
  = Some (4300, Z.max 4300 9000)
  /\ video_utils.span_frames 30 (4300, 9000) = py.round_div ((9000 - 4300) * 30) 1000.
Proof.
  split.
  - exact (proj1 visual_spans_and_frame_counts scenario_slideshow_cues 12000 1%nat
                 (mkCue 4300 8000 "two" "en" 2 true []) eq_refl).
  - apply (proj1 (proj2 (proj2 visual_spans_and_frame_counts)) 30 4300 9000).
    + lia.
    + vm_compute. discriminate.
Defined.

(** C7, counterexample to the claim as stated: a single cue starting at 0
    with 10 ms of audio at 30 fps has the span (0, 10), for which
    [round(10 * 30 / 1000)] is 0, but it is rendered with 1 frame. *)
Lemma short_span_rendered_with_one_frame :
  let cues := [mkCue 0 10 "hi" "en" 1 true []] in
  video_utils.compute_visual_spans cues 10 = [(0, 10)]
  /\ py.round_div ((10 - 0) * 30) 1000 = 0
  /\ map video_utils.clip_frames
         (video_utils.build_slideshow_video_cfr (fun _ => true) cues [None] 10 30)
     = [1]
  /\ map video_utils.clip_frames
         (video_utils.build_slideshow_video_cfr (fun _ => true) cues [None] 10 30)
     <> map (fun span => py.round_div ((snd span - fst span) * 30) 1000)
            (video_utils.compute_visual_spans cues 10).
Proof.
  cbv zeta. repeat split. vm_compute. discriminate.
Qed.

(** ** Sorting by descending score *)

Section SortDescending.

Import pylist.

Context {A : Type} (key : A -> Q).

Lemma insert_desc_Q_perm (x : A) (l : list A) :
  Permutation (insert_desc_Q key x l) (x :: l).
Proof.
  induction l as [|y l IH]; [reflexivity|].
  cbn [insert_desc_Q]. destruct (Qle_bool (key y) (key x)); [reflexivity|].
  rewrite IH. apply perm_swap.
Qed.

Lemma sorted_by_desc_Q_perm (l : list A) : Permutation (sorted_by_desc_Q key l) l.
Proof.
  induction l as [|x l IH]; [reflexivity|].
  unfold sorted_by_desc_Q in *. cbn [fold_right].
  rewrite insert_desc_Q_perm. now constructor.
Qed.

Lemma insert_desc_Q_sorted (x : A) (l : list A) :
  StronglySorted (score_ge key) l -> StronglySorted (score_ge key) (insert_desc_Q key x l).
Proof.
  induction l as [|y l IH]; intros Hs.
  - repeat constructor.
  - cbn [insert_desc_Q]. inversion Hs as [|? ? Hl Hy]; subst.
    destruct (Qle_bool (key y) (key x)) eqn:E.
    + apply Qle_bool_iff in E. constructor; [exact Hs|].
      constructor; [exact E|].
      eapply Forall_impl; [|exact Hy]. unfold score_ge. intros z Hz.
      now apply Qle_trans with (key y).
    + assert (Hxy : (key x <= key y)%Q).
      { destruct (Qlt_le_dec (key x) (key y)) as [H|H]; [now apply Qlt_le_weak|].
        apply Qle_bool_iff in H. congruence. }
      constructor; [now apply IH|].
      eapply Permutation_Forall; [symmetry; apply insert_desc_Q_perm|].
      constructor; assumption.
Qed.

Lemma sorted_by_desc_Q_sorted (l : list A) :
  StronglySorted (score_ge key) (sorted_by_desc_Q key l).
Proof.
  induction l as [|x l IH]; [constructor|].
  unfold sorted_by_desc_Q in *. cbn [fold_right]. now apply insert_desc_Q_sorted.
Qed.

End SortDescending.

(** ** Visual resolver *)

Section VisualResolver.

Import video_utils.

Variable _download_image : string -> string -> string -> option string.
Variable query : string.
Variable n : Z.

Lemma mem_true_iff (x : string) (xs : list string) : pystr.mem x xs = true <-> In x xs.
Proof.
  unfold pystr.mem. rewrite existsb_exists. split.
  - intros (y & Hy & E). apply String.eqb_eq in E. now subst.
  - intros H. exists x. split; [assumption|apply String.eqb_refl].
Qed.

(** Every download call of the walk is for a candidate of the list whose
    source URL was not seen before, and no URL is called for twice. *)
Lemma download_walk_calls (items : list RankedItem) :
  forall (seen_src out : list string),
    let calls := snd (download_walk _download_image query n items seen_src out) in
    NoDup (map fst calls)
    /\ (forall src, In src (map fst calls) -> ~ In src seen_src)
    /\ (forall call, In call calls ->
          exists item, In item items /\ call = (item_src item, item_provider item)).
Proof.
  induction items as [|item rest IH]; intros seen_src out; cbn zeta.
  - cbn. repeat split; [constructor|contradiction|contradiction].
  - cbn [download_walk].
    destruct (pystr.mem (item_src item) seen_src) eqn:Hseen.
    + destruct (IH seen_src out) as (Hnd & Hfresh & Hfrom).
      split; [exact Hnd|]. split; [exact Hfresh|].
      intros call Hc. destruct (Hfrom call Hc) as (it & Hit & ->).
      exists it. split; [now right|reflexivity].
    + assert (Hnew : ~ In (item_src item) seen_src).
      { intros H. apply mem_true_iff in H. congruence. }
      set (out' := match _download_image (item_src item) query (item_provider item) with
                   | Some p => (out ++ [p])%list
                   | None => out
                   end).
      destruct (n <=? Z.of_nat (List.length out')).
      * cbn [snd map fst]. split; [repeat constructor; intros []|].
        split.
        -- intros src [<-|[]]. exact Hnew.
        -- intros call [<-|[]]. exists item. split; [now left|reflexivity].
      * destruct (IH (item_src item :: seen_src) out') as (Hnd & Hfresh & Hfrom).
        destruct (download_walk _download_image query n rest
                                (item_src item :: seen_src) out') as [o calls].
        cbn [snd map fst] in *. split; [|split].
        -- constructor; [|exact Hnd].
           intros Hin. apply (Hfresh _ Hin). now left.
        -- intros src [<-|Hin]; [exact Hnew|].
           intros Hs. apply (Hfresh _ Hin). now right.
        -- intros call [<-|Hc].
           ++ exists item. split; [now left|reflexivity].
           ++ destruct (Hfrom call Hc) as (it & Hit & ->).
              exists it. split; [now right|reflexivity].
Qed.

End VisualResolver.

(** C8.  The visual resolver walks the merged candidate list of both
    providers, which is sorted by descending score, and calls for the
    download of each distinct source URL at most once: whatever the two
    providers return, no source URL occurs twice among the download calls of
    one search, and every call is for a candidate of the merged list. *)
Theorem downloads_deduplicated_by_source_url
  (set_iter : list string -> list string)
  (pixabay_api : string -> string -> option string -> option (list video_utils.PixabayHit))
  (unsplash_api : string -> string -> option (list video_utils.UnsplashPhoto))
  (pix_key uns_key : option string)
  (_download_image : string -> string -> string -> option string)
  (query : string) (n : Z) (category : option string) :
  let ranked_all :=
    video_utils._search_both_ranked set_iter pixabay_api unsplash_api pix_key uns_key
                                    query category in
  let calls :=
    snd (video_utils.search_and_download_best_traced
           set_iter pixabay_api unsplash_api pix_key uns_key _download_image
           query n category) in
  StronglySorted (score_ge video_utils.item_score) ranked_all
  /\ Permutation ranked_all
       ((match pix_key with
         | Some k => video_utils._pixabay_ranked set_iter pixabay_api query k category
         | None => []
         end)
        ++ (match uns_key with
            | Some k => video_utils._unsplash_ranked set_iter unsplash_api query k
            | None => []
            end))
  /\ NoDup (map fst calls)
  /\ (forall src, (count_occ string_dec (map fst calls) src <= 1)%nat)
  /\ (forall call, In call calls ->
        exists item, In item ranked_all
                     /\ call = (video_utils.item_src item, video_utils.item_provider item)).
Proof.
  intros ranked_all calls.
  destruct (download_walk_calls _download_image query n ranked_all [] [])
    as (Hnd & _ & Hfrom).
  split; [apply sorted_by_desc_Q_sorted|].
  split; [apply sorted_by_desc_Q_perm|].
  split; [exact Hnd|]. split; [|exact Hfrom].
  intros src. now apply NoDup_count_occ.
Qed.

(** ** Scores of the provider rankers *)

Section Scores.

Import pystr pylist video_utils.
Local Open Scope Q_scope.

Variable set_iter : list string -> list string.

Lemma overlap_of_nonneg (tags : string) (raw : list string) : 0 <= overlap_of tags raw.
Proof.
  unfold overlap_of.
  set (a := inter_len _ _). set (b := Nat.max 1 _).
  apply Qle_shift_div_l.
  - unfold Qlt, inject_Z. simpl. lia.
  - rewrite Qmult_0_l. unfold Qle, inject_Z. simpl. lia.
Qed.

Lemma overlap_of_no_tokens (tags : string) (raw : list string) :
  set_len (tag_tokens_of tags) = 0%nat -> overlap_of tags raw == 0.
Proof.
  intros H. unfold overlap_of, inter_len.
  unfold set_len in H. apply length_zero_iff_nil in H. rewrite H. cbn [filter List.length].
  unfold Qdiv. apply Qmult_0_l.
Qed.

Lemma tag_similarity_nonneg (tags : string) (raw : list string) :
  0 <= tag_similarity set_iter tags raw.
Proof.
  unfold tag_similarity.
  destruct (set_len (rq_of raw) =? 0)%nat; [apply Qle_refl|].
  destruct (Qle_bool 0 _) eqn:E; [now apply Qle_bool_iff in E|apply Qle_refl].
Qed.

Lemma _score_hit_nonneg (tags : string) (raw : list string) :
  0 <= _score_hit set_iter tags raw.
Proof.
  unfold _score_hit.
  destruct (set_len (tag_tokens_of tags) =? 0)%nat; [apply Qle_refl|].
  apply Qmult_le_0_compat; [apply overlap_of_nonneg|].
  destruct (Qle_bool TRIGRAM_TAG_THRESHOLD _).
  - pose proof (tag_similarity_nonneg tags raw) as H.
    apply Qle_trans with (0 + 0); [apply Qle_refl|].
    apply Qplus_le_compat; [discriminate|exact H].
  - discriminate.
Qed.

Lemma _score_hit_no_tokens (tags : string) (raw : list string) :
  tag_tokens_of tags = [] -> _score_hit set_iter tags raw = 0.
Proof.
  intros H. unfold _score_hit. rewrite H. reflexivity.
Qed.

(** Below the tag threshold the score is the plain overlap. *)
Lemma _score_hit_unboosted (tags : string) (raw : list string) :
  tag_similarity set_iter tags raw < TRIGRAM_TAG_THRESHOLD ->
  _score_hit set_iter tags raw == overlap_of tags raw.
Proof.
  intros Hlt. unfold _score_hit.
  destruct (set_len (tag_tokens_of tags) =? 0)%nat eqn:E.
  - apply Nat.eqb_eq in E. symmetry. now apply overlap_of_no_tokens.
  - destruct (Qle_bool TRIGRAM_TAG_THRESHOLD _) eqn:E2.
    + apply Qle_bool_iff in E2. exfalso. now apply (Qlt_not_le _ _ Hlt).
    + rewrite Qplus_0_r. apply Qmult_1_r.
Qed.

Lemma _domain_keyword_boost_pos (text : string) : 0 < _domain_keyword_boost text.
Proof.
  unfold _domain_keyword_boost.
  repeat match goal with |- context [if ?b then _ else _] => destruct b end;
    reflexivity.
Qed.

Lemma pixabay_item_score (raw : list string) (h : PixabayHit) (it : RankedItem) :
  pixabay_item set_iter raw h = Some it ->
  item_score it
  = (let score := _score_hit set_iter (pix_tags h) raw * _domain_keyword_boost (pix_tags h) in
     if String.eqb (pix_type h) "photo" then score * (105 # 100) else score).
Proof.
  unfold pixabay_item.
  destruct (negb (nonempty (or_else (pix_largeImageURL h) (pix_webformatURL h))));
    [discriminate|].
  intros H. injection H as <-. reflexivity.
Qed.

Lemma unsplash_item_score (raw : list string) (ph : UnsplashPhoto) (it : RankedItem) :
  unsplash_item set_iter raw ph = Some it ->
  item_score it
  = _score_hit set_iter (unsplash_tags ph) raw * _domain_keyword_boost (unsplash_tags ph)
    * (1 + inject_Z (Z.min (uns_likes ph) 200) / 500).
Proof.
  unfold unsplash_item.
  destruct (negb (nonempty (or_else (or_else (uns_regular ph) (uns_full ph)) (uns_raw ph))));
    [discriminate|].
  intros H. injection H as <-. reflexivity.
Qed.

Lemma popularity_factor_pos (likes : Z) :
  (0 <= likes)%Z -> 0 < 1 + inject_Z (Z.min likes 200) / 500.
Proof.
  intros H.
  apply Qlt_le_trans with (1 + 0); [reflexivity|].
  apply Qplus_le_compat; [apply Qle_refl|].
  apply Qle_shift_div_l; [reflexivity|].
  rewrite Qmult_0_l. unfold Qle, inject_Z. simpl. lia.
Qed.

End Scores.

Section RankerOutputs.

Import pylist video_utils.

Lemma filter_map_In {A B : Type} (f : A -> option B) (l : list A) (y : B) :
  In y (filter_map f l) -> exists x, In x l /\ f x = Some y.
Proof.
  induction l as [|x l IH]; [contradiction|].
  cbn [filter_map]. destruct (f x) as [y'|] eqn:E.
  - intros [<-|H].
    + exists x. split; [now left|exact E].
    + destruct (IH H) as (x' & Hx' & Hf). exists x'. split; [now right|exact Hf].
  - intros H. destruct (IH H) as (x' & Hx' & Hf). exists x'. split; [now right|exact Hf].
Qed.

Variable set_iter : list string -> list string.

Lemma _pixabay_ranked_In
      (pixabay_api : string -> string -> option string -> option (list PixabayHit))
      (query key : string) (category : option string) (it : RankedItem) :
  In it (_pixabay_ranked set_iter pixabay_api query key category) ->
  exists hits h,
    pixabay_api key query category = Some hits /\ In h hits
    /\ pixabay_item set_iter (_tokenize (_normalize_text query) "en") h = Some it.
Proof.
  unfold _pixabay_ranked. destruct (pixabay_api key query category) as [hits|];
    [|contradiction].
  intros H. apply (Permutation_in _ (sorted_by_desc_Q_perm _ _)) in H.
  destruct (filter_map_In _ _ _ H) as (h & Hh & E).
  exists hits, h. repeat split; assumption.
Qed.

Lemma _unsplash_ranked_In
      (unsplash_api : string -> string -> option (list UnsplashPhoto))
      (query key : string) (it : RankedItem) :
  In it (_unsplash_ranked set_iter unsplash_api query key) ->
  exists results ph,
    unsplash_api key query = Some results /\ In ph results
    /\ unsplash_item set_iter (_tokenize (_normalize_text query) "en") ph = Some it.
Proof.
  unfold _unsplash_ranked. destruct (unsplash_api key query) as [results|];
    [|contradiction].
  intros H. apply (Permutation_in _ (sorted_by_desc_Q_perm _ _)) in H.
  destruct (filter_map_In _ _ _ H) as (ph & Hph & E).
  exists results, ph. repeat split; assumption.
Qed.

Lemma pixabay_item_tags (raw : list string) (h : PixabayHit) (it : RankedItem) :
  pixabay_item set_iter raw h = Some it -> item_tags it = pix_tags h.
Proof.
  unfold pixabay_item.
  destruct (negb _); [discriminate|]. intros H. injection H as <-. reflexivity.
Qed.

Lemma unsplash_item_tags (raw : list string) (ph : UnsplashPhoto) (it : RankedItem) :
  unsplash_item set_iter raw ph = Some it -> item_tags it = unsplash_tags ph.
Proof.
  unfold unsplash_item.
  destruct (negb _); [discriminate|]. intros H. injection H as <-. reflexivity.
Qed.

Lemma pixabay_item_score_nonneg (raw : list string) (h : PixabayHit) (it : RankedItem) :
  pixabay_item set_iter raw h = Some it -> (0 <= item_score it)%Q.
Proof.
  intros H. rewrite (pixabay_item_score _ _ _ _ H). cbv zeta.
  assert (H0 : (0 <= _score_hit set_iter (pix_tags h) raw
                     * _domain_keyword_boost (pix_tags h))%Q).
  { apply Qmult_le_0_compat; [apply _score_hit_nonneg|].
    apply Qlt_le_weak, _domain_keyword_boost_pos. }
  destruct (String.eqb (pix_type h) "photo"); [|exact H0].
  apply Qmult_le_0_compat; [exact H0|discriminate].
Qed.

Lemma unsplash_item_score_nonneg (raw : list string) (ph : UnsplashPhoto) (it : RankedItem) :
  0 <= uns_likes ph ->
  unsplash_item set_iter raw ph = Some it -> (0 <= item_score it)%Q.
Proof.
  intros Hl H. rewrite (unsplash_item_score _ _ _ _ H).
  apply Qmult_le_0_compat.
  - apply Qmult_le_0_compat; [apply _score_hit_nonneg|].
    apply Qlt_le_weak, _domain_keyword_boost_pos.
  - apply Qlt_le_weak, popularity_factor_pos. exact Hl.
Qed.

Lemma pixabay_item_score_zero (raw : list string) (h : PixabayHit) (it : RankedItem) :
  tag_tokens_of (pix_tags h) = [] ->
  pixabay_item set_iter raw h = Some it -> (item_score it == 0)%Q.
Proof.
  intros Ht H. rewrite (pixabay_item_score _ _ _ _ H). cbv zeta.
  rewrite (_score_hit_no_tokens _ _ _ Ht).
  destruct (String.eqb (pix_type h) "photo"); rewrite ?Qmult_0_l; reflexivity.
Qed.

Lemma unsplash_item_score_zero (raw : list string) (ph : UnsplashPhoto) (it : RankedItem) :
  tag_tokens_of (unsplash_tags ph) = [] ->
  unsplash_item set_iter raw ph = Some it -> (item_score it == 0)%Q.
Proof.
  intros Ht H. rewrite (unsplash_item_score _ _ _ _ H).
  rewrite (_score_hit_no_tokens _ _ _ Ht). rewrite !Qmult_0_l. reflexivity.
Qed.

End RankerOutputs.

(** C9.  For the same query, a Pixabay candidate and an Unsplash candidate
    with the same overlap value, a tag similarity below the tag threshold, no
    domain-keyword boost, no photo-type factor and zero likes receive the same
    score. *)
Theorem equal_overlap_unboosted_scores_equal
  (set_iter : list string -> list string) (query : string)
  (h : video_utils.PixabayHit) (ph : video_utils.UnsplashPhoto)
  (item_p item_u : video_utils.RankedItem) :
  let raw_tokens := video_utils._tokenize (video_utils._normalize_text query) "en" in
  video_utils.pixabay_item set_iter raw_tokens h = Some item_p ->
  video_utils.unsplash_item set_iter raw_tokens ph = Some item_u ->
  (video_utils.overlap_of (video_utils.pix_tags h) raw_tokens
   == video_utils.overlap_of (video_utils.unsplash_tags ph) raw_tokens)%Q ->
  (video_utils.tag_similarity set_iter (video_utils.pix_tags h) raw_tokens
   < video_utils.TRIGRAM_TAG_THRESHOLD)%Q ->
  (video_utils.tag_similarity set_iter (video_utils.unsplash_tags ph) raw_tokens
   < video_utils.TRIGRAM_TAG_THRESHOLD)%Q ->
  (video_utils._domain_keyword_boost (video_utils.pix_tags h) == 1)%Q ->
  (video_utils._domain_keyword_boost (video_utils.unsplash_tags ph) == 1)%Q ->
  video_utils.pix_type h <> "photo"%string ->
  video_utils.uns_likes ph = 0 ->
  (video_utils.item_score item_p == video_utils.item_score item_u)%Q.
Proof.
  intros raw Hp Hu Hov Htp Htu Hbp Hbu Hty Hl.
  rewrite (pixabay_item_score _ _ _ _ Hp), (unsplash_item_score _ _ _ _ Hu). cbv zeta.
  destruct (String.eqb (video_utils.pix_type h) "photo") eqn:E;
    [apply String.eqb_eq in E; contradiction|].
  rewrite Hl. change (Z.min 0 200) with 0.
  rewrite Hbp, Hbu.
  rewrite (_score_hit_unboosted _ _ _ Htp), (_score_hit_unboosted _ _ _ Htu).
  rewrite Hov. field.
Qed.

Lemma equal_overlap_unboosted_scores_equal_witness :
  let raw_tokens :=
    video_utils._tokenize (video_utils._normalize_text scenario_query) "en" in
  exists item_p item_u,
    video_utils.pixabay_item pylist.insertion_order raw_tokens scenario_pixabay_hit
    = Some item_p
    /\ video_utils.unsplash_item pylist.insertion_order raw_tokens scenario_unsplash_photo
       = Some item_u
    /\ (video_utils.item_score item_p == video_utils.item_score item_u)%Q.
Proof.
  cbv zeta. eexists. eexists. split; [reflexivity|]. split; [reflexivity|].
  apply (equal_overlap_unboosted_scores_equal
           pylist.insertion_order scenario_query scenario_pixabay_hit
           scenario_unsplash_photo).
  - reflexivity.
  - reflexivity.
  - vm_compute. reflexivity.
  - vm_compute. reflexivity.
  - vm_compute. reflexivity.
  - vm_compute. reflexivity.
  - vm_compute. reflexivity.
  - discriminate.
  - reflexivity.
Defined.

(** C10.  Every ranked image candidate produced by either provider ranker has
    a score that is not negative (for Unsplash, provided the like counts of
    the response are not negative), and a candidate whose tag or description
    text yields no tokens scores exactly 0. *)
Theorem ranked_scores_nonnegative :
  (forall (set_iter : list string -> list string)
          (pixabay_api : string -> string -> option string
                         -> option (list video_utils.PixabayHit))
          (query key : string) (category : option string) (it : video_utils.RankedItem),
      In it (video_utils._pixabay_ranked set_iter pixabay_api query key category) ->
      (0 <= video_utils.item_score it)%Q
      /\ (video_utils.tag_tokens_of (video_utils.item_tags it) = [] ->
          (video_utils.item_score it == 0)%Q))
  /\ (forall (set_iter : list string -> list string)
             (unsplash_api : string -> string -> option (list video_utils.UnsplashPhoto))
             (query key : string) (it : video_utils.RankedItem),
         In it (video_utils._unsplash_ranked set_iter unsplash_api query key) ->
         ((forall results ph,
              unsplash_api key query = Some results -> In ph results ->
              0 <= video_utils.uns_likes ph) ->
          (0 <= video_utils.item_score it)%Q)
         /\ (video_utils.tag_tokens_of (video_utils.item_tags it) = [] ->
             (video_utils.item_score it == 0)%Q)).
Proof.
  split.
  - intros set_iter api query key category it Hin.
    destruct (_pixabay_ranked_In _ _ _ _ _ _ Hin) as (hits & h & _ & _ & Hit).
    split.
    + now apply (pixabay_item_score_nonneg _ _ _ _ Hit).
    + intros Ht. rewrite (pixabay_item_tags _ _ _ _ Hit) in Ht.
      now apply (pixabay_item_score_zero _ _ _ _ Ht Hit).
  - intros set_iter api query key it Hin.
    destruct (_unsplash_ranked_In _ _ _ _ _ Hin) as (results & ph & Hres & Hph & Hit).
    split.
    + intros Hlikes.
      apply (unsplash_item_score_nonneg _ _ _ _ (Hlikes _ _ Hres Hph) Hit).
    + intros Ht. rewrite (unsplash_item_tags _ _ _ _ Hit) in Ht.
      now apply (unsplash_item_score_zero _ _ _ _ Ht Hit).
Qed.

Lemma ranked_scores_nonnegative_witness :
  Forall (fun it => (0 <= video_utils.item_score it)%Q)
         (video_utils._unsplash_ranked pylist.insertion_order scenario_unsplash_api
                                       scenario_query "key").
Proof.
  apply Forall_forall. intros it Hin.
  apply (proj1 (proj2 ranked_scores_nonnegative pylist.insertion_order
                      scenario_unsplash_api scenario_query "key"%string it Hin)).
  intros results ph Hres Hph. injection Hres as <-.
  destruct Hph as [<-|[<-|[]]]; simpl; lia.
Defined.

(** Two provider results that share a source URL: one download call. *)
Example shared_source_url_downloaded_once :
  snd (video_utils.search_and_download_best_traced
         pylist.insertion_order scenario_pixabay_api scenario_unsplash_api
         (Some "k1"%string) (Some "k2"%string)
         (fun src _ _ => Some src) scenario_query 5 None)
  = [("https://u/1.jpg", "pixabay"); ("https://p/1.jpg", "pixabay");
     ("https://u/2.jpg", "unsplash")]%string.
Proof. vm_compute. reflexivity. Qed.

(** ** Iteration orders of sets *)

Section SetOrders.

Import pylist.

Lemma insertion_order_In (xs : list string) (y : string) :
  In y (insertion_order xs) <-> In y xs.
Proof.
  induction xs as [|x xs IH]; [reflexivity|].
  cbn [insertion_order In]. rewrite filter_In, IH.
  destruct (string_dec x y) as [->|Hne].
  - tauto.
  - apply String.eqb_neq in Hne. rewrite Hne. cbn. tauto.
Qed.

Lemma insertion_order_NoDup (xs : list string) : NoDup (insertion_order xs).
Proof.
  induction xs as [|x xs IH]; [constructor|].
  cbn [insertion_order]. constructor.
  - rewrite filter_In. intros [_ H]. rewrite String.eqb_refl in H. discriminate.
  - now apply NoDup_filter.
Qed.

Lemma insertion_order_is_set_order : set_order insertion_order.
Proof.
  intros xs. split; [apply insertion_order_NoDup|apply insertion_order_In].
Qed.

Lemma reverse_insertion_order_is_set_order : set_order reverse_insertion_order.
Proof.
  intros xs. unfold reverse_insertion_order. split.
  - apply NoDup_rev, insertion_order_NoDup.
  - intros x. rewrite <- in_rev. apply insertion_order_In.
Qed.

End SetOrders.

(** ** Lexicon matcher *)

(** C5, the code at the failing input.  For the sentence "cough syrup" in
    English both the concept "cough syrup" and the concept "cough" match at
    offset 0; the lexicon declares "cough syrup" first.  The order of the two
    in the result is the iteration order of the set of hits: two admissible
    set orders give two different results. *)
Theorem detect_candidates_tie_follows_set_order :
  pylist.set_order pylist.insertion_order
  /\ pylist.set_order pylist.reverse_insertion_order
  /\ video_utils.first_idx "cough syrup" "en" "cough syrup" = 0
  /\ video_utils.first_idx "cough syrup" "en" "cough" = 0
  /\ filter (fun k => pystr.mem k ["cough"; "cough syrup"]%string)
            (map fst video_utils.LEXICON)
     = ["cough syrup"; "cough"]%string
  /\ video_utils._detect_candidates pylist.insertion_order "cough syrup" "en"
     = ["cough syrup"; "cough"]%string
  /\ video_utils._detect_candidates pylist.reverse_insertion_order "cough syrup" "en"
     = ["cough"; "cough syrup"]%string.
Proof.
  split; [apply insertion_order_is_set_order|].
  split; [apply reverse_insertion_order_is_set_order|].
  repeat split; vm_compute; reflexivity.
Qed.

(** ** Blank and visible text *)

Section VisibleText.

Import pystr.

Lemma nonempty_lstrip (s : string) : nonempty (lstrip s) = has_visible s.
Proof.
  unfold has_visible. induction s as [|c s IH]; [reflexivity|].
  cbn [lstrip forall_chars]. destruct (is_space c); [exact IH|reflexivity].
Qed.

Lemma has_visible_lstrip (s : string) : has_visible (lstrip s) = has_visible s.
Proof.
  unfold has_visible. induction s as [|c s IH]; [reflexivity|].
  cbn [lstrip forall_chars]. destruct (is_space c) eqn:E; [exact IH|].
  cbn [forall_chars]. now rewrite E.
Qed.

Lemma nonempty_rstrip (s : string) : nonempty (rstrip s) = has_visible s.
Proof.
  unfold has_visible. induction s as [|c s IH]; [reflexivity|].
  cbn [rstrip forall_chars]. rewrite IH.
  destruct (is_space c); cbn; [|reflexivity].
  destruct (forall_chars is_space s); reflexivity.
Qed.

Lemma nonempty_strip (s : string) : nonempty (strip s) = has_visible s.
Proof. unfold strip. now rewrite nonempty_rstrip, has_visible_lstrip. Qed.

Lemma has_visible_rstrip (s : string) : has_visible (rstrip s) = has_visible s.
Proof.
  induction s as [|c s IH]; [reflexivity|].
  cbn [rstrip]. rewrite nonempty_rstrip.
  unfold has_visible in *. cbn [forall_chars].
  destruct (is_space c) eqn:E; cbn.
  - destruct (forall_chars is_space s) eqn:F; cbn; [reflexivity|].
    cbn [forall_chars]. rewrite E. cbn. exact IH.
  - cbn [forall_chars]. now rewrite E.
Qed.

Lemma has_visible_strip (s : string) : has_visible (strip s) = has_visible s.
Proof. unfold strip. now rewrite has_visible_rstrip, has_visible_lstrip. Qed.

Lemma has_visible_app (a b : string) :
  has_visible (a ++ b) = has_visible a || has_visible b.
Proof.
  unfold has_visible. induction a as [|c a IH]; [reflexivity|].
  cbn [String.append forall_chars].
  destruct (is_space c); cbn; [exact IH|reflexivity].
Qed.

Lemma has_visible_nonempty (s : string) : has_visible s = true -> nonempty s = true.
Proof. destruct s; [discriminate|reflexivity]. Qed.

Lemma has_visible_join (sep : string) (parts : list string) (x : string) :
  In x parts -> has_visible x = true -> has_visible (join sep parts) = true.
Proof.
  unfold join. induction parts as [|y parts IH]; [contradiction|].
  intros Hin Hx. cbn [String.concat].
  destruct parts as [|z parts].
  - destruct Hin as [->|[]]. exact Hx.
  - rewrite !has_visible_app. destruct Hin as [->|Hin].
    + now rewrite Hx.
    + rewrite (IH Hin Hx). now rewrite !orb_true_r.
Qed.

End VisibleText.

(** ** Candidate pairs of the query builder *)

Section CandidatePairs.

Import pystr pylist video_utils.

Lemma option_string_eqb_eq (a b : option string) :
  option_string_eqb a b = true <-> a = b.
Proof.
  destruct a as [x|], b as [y|]; cbn; try (split; congruence).
  rewrite String.eqb_eq. split; congruence.
Qed.

Lemma pair_eqb_eq (p q : QueryPair) : pair_eqb p q = true <-> p = q.
Proof.
  destruct p as [a c], q as [b d]. unfold pair_eqb. cbn [fst snd].
  rewrite andb_true_iff, String.eqb_eq, option_string_eqb_eq.
  split; [intros [-> ->]; reflexivity|intros H; injection H; auto].
Qed.

Lemma pair_mem_In (p : QueryPair) (pairs : list QueryPair) :
  pair_mem p pairs = true <-> In p pairs.
Proof.
  unfold pair_mem. rewrite existsb_exists. split.
  - intros (q & Hq & E). apply pair_eqb_eq in E. now subst.
  - intros H. exists p. split; [assumption|now apply pair_eqb_eq].
Qed.

(** [append_new] only ever appends, and at most one pair. *)
Lemma append_new_extends (pairs : list QueryPair) (p : QueryPair) :
  exists t, append_new pairs p = (pairs ++ t)%list /\ (List.length t <= 1)%nat.
Proof.
  unfold append_new. destruct (pair_mem p pairs).
  - exists []. rewrite app_nil_r. split; [reflexivity|cbn; lia].
  - exists [p]. split; [reflexivity|cbn; lia].
Qed.

Lemma fold_append_new_extends {X : Type} (f : X -> QueryPair) (xs : list X) :
  forall pairs,
  exists t,
    fold_left (fun pairs x => append_new pairs (f x)) xs pairs = (pairs ++ t)%list
    /\ (List.length t <= List.length xs)%nat.
Proof.
  induction xs as [|x xs IH]; intros pairs; cbn [fold_left].
  - exists []. rewrite app_nil_r. split; [reflexivity|cbn; lia].
  - destruct (append_new_extends pairs (f x)) as (t1 & E1 & L1).
    destruct (IH (append_new pairs (f x))) as (t2 & E2 & L2).
    exists (t1 ++ t2)%list. rewrite E2, E1, <- app_assoc.
    split; [reflexivity|]. rewrite length_app. cbn [List.length]. lia.
Qed.

(** After [append_new pairs p] the pair stands no later than at index
    [len(pairs)]. *)
Lemma append_new_position (pairs : list QueryPair) (p : QueryPair) :
  exists pre post,
    append_new pairs p = (pre ++ p :: post)%list
    /\ (List.length pre <= List.length pairs)%nat.
Proof.
  unfold append_new. destruct (pair_mem p pairs) eqn:E.
  - apply pair_mem_In, in_split in E. destruct E as (pre & post & ->).
    exists pre, post. split; [reflexivity|]. rewrite length_app. lia.
  - exists pairs, []. split; [reflexivity|lia].
Qed.

End CandidatePairs.

(** ** Deduplication of the query plan *)

Section PlanDedup.

Import pystr pylist video_utils.

(** The loop of the code computes the capped first-seen deduplication. *)
Lemma uniq_loop_refines (pairs : list QueryPair) :
  forall seen uniq,
    (List.length uniq < CAP)%nat ->
    uniq_loop pairs seen uniq
    = (uniq ++ firstn (CAP - List.length uniq) (dedupe_first_seen_from seen pairs))%list.
Proof.
  induction pairs as [|[q cat] rest IH]; intros seen uniq Hlen.
  - cbn. now rewrite firstn_nil, app_nil_r.
  - cbn [uniq_loop dedupe_first_seen_from fst].
    destruct (negb (pair_mem (dedup_key (q, cat)) seen) && nonempty (strip q)).
    + fold CAP. destruct (CAP <=? List.length (uniq ++ [(q, cat)]))%nat eqn:E.
      * apply Nat.leb_le in E. rewrite length_app in E. cbn [List.length] in E.
        replace (CAP - List.length uniq)%nat with 1%nat by lia.
        cbn [firstn]. reflexivity.
      * apply Nat.leb_gt in E. rewrite IH by exact E.
        rewrite length_app in *. cbn [List.length] in *.
        replace (CAP - List.length uniq)%nat
          with (S (CAP - (List.length uniq + 1)))%nat by lia.
        cbn [firstn]. now rewrite <- app_assoc.
    + fold CAP. destruct (CAP <=? List.length uniq)%nat eqn:E.
      * apply Nat.leb_le in E. lia.
      * now apply IH.
Qed.

Lemma dedupe_first_seen_keys (pairs : list QueryPair) :
  forall seen,
    NoDup (map dedup_key (dedupe_first_seen_from seen pairs))
    /\ (forall p, In p (dedupe_first_seen_from seen pairs) -> ~ In (dedup_key p) seen).
Proof.
  induction pairs as [|p rest IH]; intros seen.
  - cbn. split; [constructor|contradiction].
  - cbn [dedupe_first_seen_from].
    destruct (negb (pair_mem (dedup_key p) seen)) eqn:Hm; cbn [andb];
      [destruct (nonempty (strip (fst p)))|]; try apply IH.
    destruct (IH (seen ++ [dedup_key p])%list) as [Hnd Hfresh].
    apply negb_true_iff in Hm.
    split.
    + cbn [map]. constructor; [|exact Hnd].
      intros Hin. apply in_map_iff in Hin. destruct Hin as (r & Hk & Hr).
      apply (Hfresh r Hr). rewrite Hk. apply in_or_app. right. now left.
    + intros r [<-|Hr].
      * intros Hin. apply pair_mem_In in Hin. congruence.
      * intros Hin. apply (Hfresh r Hr). apply in_or_app. now left.
Qed.

Lemma NoDup_firstn {A : Type} (n : nat) (l : list A) : NoDup l -> NoDup (firstn n l).
Proof.
  intros H. rewrite <- (firstn_skipn n l) in H. now apply NoDup_app_remove_r in H.
Qed.

Lemma In_firstn_le {A : Type} (n m : nat) (l : list A) (x : A) :
  (n <= m)%nat -> In x (firstn n l) -> In x (firstn m l).
Proof.
  revert m l. induction n as [|n IH]; intros m l Hle Hin; [contradiction|].
  destruct l as [|y l]; [contradiction|].
  destruct m as [|m]; [lia|]. cbn [firstn] in *.
  destruct Hin as [->|Hin]; [now left|right]. apply IH; [lia|assumption].
Qed.

(** A visible candidate is represented in the deduplicated list, by its key,
    no later than at its own index. *)
Lemma dedupe_first_seen_keeps_key (pre post : list QueryPair) (x : QueryPair) :
  nonempty (strip (fst x)) = true ->
  forall seen,
    In (dedup_key x) seen
    \/ exists y,
         In y (firstn (S (List.length pre))
                      (dedupe_first_seen_from seen (pre ++ x :: post)%list))
         /\ dedup_key y = dedup_key x.
Proof.
  intros Hx. induction pre as [|p pre IH]; intros seen.
  - cbn [List.app dedupe_first_seen_from List.length]. rewrite Hx.
    destruct (pair_mem (dedup_key x) seen) eqn:E.
    + left. now apply pair_mem_In.
    + right. exists x. cbn. auto.
  - cbn [List.app dedupe_first_seen_from List.length].
    destruct (negb (pair_mem (dedup_key p) seen) && nonempty (strip (fst p))).
    + destruct (IH (seen ++ [dedup_key p])%list) as [Hin|(y & Hy & Hk)].
      * apply in_app_or in Hin. destruct Hin as [Hin|[E|[]]]; [now left|].
        right. exists p. split; [now left|exact E].
      * right. exists y. split; [|exact Hk]. cbn [firstn]. now right.
    + destruct (IH seen) as [Hin|(y & Hy & Hk)]; [now left|].
      right. exists y. split; [|exact Hk].
      apply (In_firstn_le (S (List.length pre))); [lia|exact Hy].
Qed.

End PlanDedup.

(** ** Query builder *)

Section QueryBuilder.

Import pystr pylist video_utils.
Local Open Scope string_scope.

Variable set_iter : list string -> list string.
Variable _SCENARIO_TERMS : string -> list string.
Hypothesis set_iter_order : set_order set_iter.

Lemma get_In {V : Type} (k : string) (d : list (string * V)) (v : V) :
  get k d = Some v -> In (k, v) d.
Proof.
  induction d as [|[k' v'] d IH]; [discriminate|].
  cbn [get]. destruct (String.eqb k k') eqn:E.
  - apply String.eqb_eq in E. intros H. injection H as ->. subst. now left.
  - intros H. right. now apply IH.
Qed.

Lemma insert_asc_perm {A : Type} (key : A -> Z) (x : A) (l : list A) :
  Permutation (insert_asc key x l) (x :: l).
Proof.
  induction l as [|y l IH]; [reflexivity|].
  cbn [insert_asc]. destruct (key x <=? key y)%Z; [reflexivity|].
  rewrite IH. apply perm_swap.
Qed.

Lemma sorted_by_perm {A : Type} (key : A -> Z) (l : list A) :
  Permutation (sorted_by key l) l.
Proof.
  induction l as [|x l IH]; [reflexivity|].
  unfold sorted_by in *. cbn [fold_right]. rewrite insert_asc_perm. now constructor.
Qed.

(** Every detected concept is a key of the lexicon. *)
Lemma _detect_candidates_in_lexicon (text lang key : string) :
  In key (_detect_candidates set_iter text lang) -> In key (map fst LEXICON).
Proof.
  unfold _detect_candidates. intros H.
  apply (Permutation_in _ (sorted_by_perm _ _)) in H.
  apply (proj1 (proj2 (set_iter_order _) _)) in H.
  destruct (map fst (filter _ LEXICON)) eqn:E.
  - apply in_map_iff in H. destruct H as (e & <- & He).
    apply filter_In in He. apply in_map. tauto.
  - rewrite <- E in H. apply in_map_iff in H. destruct H as (e & <- & He).
    apply filter_In in He. apply in_map. tauto.
Qed.

(** Every key of the lexicon has a template, and the template is visible. *)
Lemma lexicon_templates_visible (key : string) (default : QueryPair) :
  In key (map fst LEXICON) -> has_visible (fst (template_get key default)) = true.
Proof.
  intros H.
  assert (Hall : forallb (fun k => match get k QUERY_TEMPLATES with
                                   | Some t => has_visible (fst t)
                                   | None => false
                                   end) (map fst LEXICON) = true)
    by (vm_compute; reflexivity).
  rewrite forallb_forall in Hall. specialize (Hall key H).
  unfold template_get. destruct (get key QUERY_TEMPLATES); [exact Hall|discriminate].
Qed.

(** Every domain has anchors, the first of which is visible. *)
Lemma _domain_anchor_first (domain : string) :
  exists a rest, _domain_anchor domain = a :: rest /\ has_visible a = true.
Proof.
  assert (Hall : forallb (fun e => match snd e with
                                   | a :: _ => has_visible a
                                   | [] => false
                                   end) ANCHOR_MAPPING = true)
    by (vm_compute; reflexivity).
  rewrite forallb_forall in Hall.
  unfold _domain_anchor. destruct (get domain ANCHOR_MAPPING) as [anchors|] eqn:E.
  - apply get_In in E. specialize (Hall _ E). cbn [snd] in Hall.
    destruct anchors as [|a rest]; [discriminate|]. now exists a, rest.
  - exists "people indoors", ["object closeup"]. split; reflexivity.
Qed.

(** The primary query is never blank. *)
Lemma sentence_to_query_visible (text lang : string) (max_words : nat) :
  has_visible (sentence_to_query set_iter _SCENARIO_TERMS text lang max_words) = true.
Proof.
  unfold sentence_to_query.
  destruct (_detect_candidates set_iter _ _) as [|first hits] eqn:E.
  - set (domain_guess := match List.find _ DOMAIN_KEYWORDS with
                         | Some kd => snd kd
                         | None => "generic"
                         end).
    destruct (_domain_anchor_first domain_guess) as (a & rest & Ha & Hv).
    rewrite Ha. cbn [firstn hd].
    set (phrase := strip (join " " _)).
    assert (Hp : has_visible phrase = true).
    { unfold phrase. rewrite has_visible_strip.
      apply has_visible_join with (x := a); [|exact Hv].
      apply in_or_app. right. now left. }
    destruct (_scenario_hints_for _SCENARIO_TERMS domain_guess) as [|h hs].
    + now rewrite (has_visible_nonempty _ Hp).
    + rewrite (has_visible_nonempty _ Hp).
      assert (Hq : has_visible (phrase ++ " " ++ h) = true)
        by (rewrite has_visible_app, Hp; reflexivity).
      now rewrite (has_visible_nonempty _ Hq).
  - apply lexicon_templates_visible.
    apply (_detect_candidates_in_lexicon (_clean_modifiers set_iter text)
                                         (auto_lang text lang)).
    rewrite E. now left.
Qed.

Lemma with_eng_like_visible (eng_like a : string) :
  has_visible a = true -> has_visible (with_eng_like eng_like a) = true.
Proof.
  intros Ha. unfold with_eng_like. destruct (nonempty eng_like); [|exact Ha].
  rewrite has_visible_strip, !has_visible_app, Ha. now rewrite !orb_true_r.
Qed.

(** The candidate list starts with the primary query, and the query built
    from the first anchor of the domain stands among its first six pairs. *)
Lemma extras_state_pairs (text lang : string) :
  let st := extras_state set_iter _SCENARIO_TERMS text lang in
  ex_primary st
  = sentence_to_query set_iter _SCENARIO_TERMS text (auto_lang text lang) MAX_QUERY_TOKENS
  /\ (exists tl, ex_pairs st = (ex_primary st, ex_primary_cat st) :: tl)
  /\ (forall a rest,
        _domain_anchor (ex_domain st) = a :: rest ->
        exists pre post,
          ex_pairs st
          = (pre ++ (with_eng_like (ex_eng_like st) a, ex_primary_cat st) :: post)%list
          /\ (List.length pre <= 5)%nat).
Proof.
  cbv zeta. unfold extras_state.
  set (auto := auto_lang text lang).
  set (primary := sentence_to_query set_iter _SCENARIO_TERMS text auto MAX_QUERY_TOKENS).
  set (tokens := _tokenize (_clean_modifiers set_iter text) auto).
  set (hits := _detect_candidates set_iter (join " " tokens) auto).
  set (eng_like := join " " (filter match_ascii_word tokens)).
  set (pd := match hits with
             | first :: _ => (snd (template_get first (primary, None)), _classify first)
             | [] => (None, token_domain tokens)
             end).
  destruct pd as [primary_cat domain]. cbn [ex_primary ex_primary_cat ex_domain
                                              ex_eng_like ex_pairs].
  unfold QueryPair in *.
  remember [(primary, primary_cat)] as P0 eqn:EP0.
  destruct (fold_append_new_extends (fun c => template_get c (c, primary_cat))
                                    (firstn 3 hits) P0) as (t1 & E1 & L1).
  unfold QueryPair in *. rewrite E1.
  assert (L1' : (List.length t1 <= 3)%nat)
    by (pose proof (firstn_le_length 3 hits); lia).
  remember (P0 ++ t1)%list as P1 eqn:EP1.
  match goal with
  | |- context [fold_left _ (_domain_anchor domain) ?X] => remember X as P2 eqn:EP2
  end.
  assert (H2 : exists t2, P2 = (P1 ++ t2)%list /\ (List.length t2 <= 1)%nat).
  { rewrite EP2. destruct (nonempty eng_like).
    - apply append_new_extends.
    - exists []. rewrite app_nil_r. split; [reflexivity|cbn; lia]. }
  destruct H2 as (t2 & E2 & L2). unfold QueryPair in *.
  assert (LP2 : (List.length P2 <= 5)%nat).
  { rewrite E2, EP1, EP0. rewrite !length_app. cbn [List.length]. lia. }
  split; [reflexivity|]. split.
  - destruct (fold_append_new_extends (fun a => (with_eng_like eng_like a, primary_cat))
                                      (_domain_anchor domain) P2) as (t3 & E3 & _).
    unfold QueryPair in *. rewrite E3.
    destruct (fold_append_new_extends (fun h => (with_eng_like eng_like h, primary_cat))
                (firstn 3 (_scenario_hints_for _SCENARIO_TERMS domain))
                (P2 ++ t3)%list) as (t4 & E4 & _).
    unfold QueryPair in *. rewrite E4.
    destruct (fold_append_new_extends (fun q : string => (q, primary_cat))
                (_domain_anchor domain ++ _scenario_hints_for _SCENARIO_TERMS domain)%list
                ((P2 ++ t3) ++ t4)%list) as (t5 & E5 & _).
    unfold QueryPair in *.
    rewrite E5, E2, EP1, EP0. cbn [List.app]. eexists. reflexivity.
  - intros a rest Ha. rewrite Ha. cbn [fold_left].
    destruct (append_new_position P2 (with_eng_like eng_like a, primary_cat))
      as (pre & post & Epos & Lpre).
    unfold QueryPair in *. rewrite Epos.
    destruct (fold_append_new_extends (fun a => (with_eng_like eng_like a, primary_cat))
                rest (pre ++ (with_eng_like eng_like a, primary_cat) :: post)%list)
      as (t3 & E3 & _).
    unfold QueryPair in *. rewrite E3.
    destruct (fold_append_new_extends (fun h => (with_eng_like eng_like h, primary_cat))
                (firstn 3 (_scenario_hints_for _SCENARIO_TERMS domain))
                ((pre ++ (with_eng_like eng_like a, primary_cat) :: post) ++ t3)%list)
      as (t4 & E4 & _).
    unfold QueryPair in *. rewrite E4.
    destruct (fold_append_new_extends (fun q : string => (q, primary_cat))
                ((a :: rest) ++ _scenario_hints_for _SCENARIO_TERMS domain)%list
                (((pre ++ (with_eng_like eng_like a, primary_cat) :: post) ++ t3) ++ t4)%list)
      as (t5 & E5 & _).
    unfold QueryPair in *. rewrite E5.
    exists pre, (post ++ t3 ++ t4 ++ t5)%list. split; [|lia].
    rewrite <- !app_assoc. cbn [List.app]. reflexivity.
Qed.

End QueryBuilder.

(** C6.  For every sentence and language the query builder returns a plan
    that is not empty, holds at most 1 + 8 pairs, has pairwise distinct
    (lowercased query, category) keys, and is the first-seen deduplication of
    the candidate list cut at the cap; it starts with the primary query, and
    it always holds an anchor fallback: a pair with the key of the query
    built from the first anchor phrase of the sentence's domain, which in the
    worst case (no ASCII token, generic domain) is the generic anchor
    "people indoors". *)
Theorem query_plan_nonempty_capped_deduplicated
  (set_iter : list string -> list string) (_SCENARIO_TERMS : string -> list string)
  (text lang : string) :
  pylist.set_order set_iter ->
  let st := video_utils.extras_state set_iter _SCENARIO_TERMS text lang in
  let plan := fst (video_utils.sentence_to_query_extras set_iter _SCENARIO_TERMS text lang) in
  plan <> []
  /\ (List.length plan <= 1 + 8)%nat
  /\ NoDup (map video_utils.dedup_key plan)
  /\ plan = firstn (1 + 8) (dedupe_first_seen (video_utils.ex_pairs st))
  /\ hd_error plan = Some (video_utils.ex_primary st, video_utils.ex_primary_cat st)
  /\ (exists a p,
        hd_error (video_utils._domain_anchor (video_utils.ex_domain st)) = Some a
        /\ In p plan
        /\ video_utils.dedup_key p
           = video_utils.dedup_key
               (video_utils.with_eng_like (video_utils.ex_eng_like st) a,
                video_utils.ex_primary_cat st))
  /\ (video_utils.ex_eng_like st = ""%string ->
      video_utils.ex_domain st = "generic"%string ->
      exists p, In p plan
                /\ video_utils.dedup_key p
                   = ("people indoors"%string, video_utils.ex_primary_cat st)).
Proof.
  intros Horder st plan.
  destruct (extras_state_pairs set_iter _SCENARIO_TERMS text lang)
    as (Hprimary & (tl & Hpairs) & Hanchor).
  fold st in Hprimary, Hpairs, Hanchor.
  assert (Hplan : plan = firstn (1 + 8) (dedupe_first_seen (video_utils.ex_pairs st))).
  { unfold plan, video_utils.sentence_to_query_extras. cbn [fst]. fold st.
    rewrite uniq_loop_refines by (cbn; lia). reflexivity. }
  assert (Hvis : pystr.nonempty (pystr.strip (video_utils.ex_primary st)) = true).
  { rewrite nonempty_strip, Hprimary. now apply sentence_to_query_visible. }
  assert (Hhead : exists more,
             dedupe_first_seen (video_utils.ex_pairs st)
             = (video_utils.ex_primary st, video_utils.ex_primary_cat st) :: more).
  { rewrite Hpairs. unfold dedupe_first_seen. cbn [dedupe_first_seen_from fst].
    rewrite Hvis. cbn. eexists. reflexivity. }
  destruct Hhead as (more & Hhead).
  assert (Hfallback : exists a p,
             hd_error (video_utils._domain_anchor (video_utils.ex_domain st)) = Some a
             /\ In p plan
             /\ video_utils.dedup_key p
                = video_utils.dedup_key
                    (video_utils.with_eng_like (video_utils.ex_eng_like st) a,
                     video_utils.ex_primary_cat st)).
  { destruct (_domain_anchor_first (video_utils.ex_domain st)) as (a & rest & Ha & Hva).
    destruct (Hanchor a rest Ha) as (pre & post & Hsplit & Hlen).
    destruct (dedupe_first_seen_keeps_key pre post
                (video_utils.with_eng_like (video_utils.ex_eng_like st) a,
                 video_utils.ex_primary_cat st)
                ltac:(cbn [fst]; rewrite nonempty_strip; now apply with_eng_like_visible)
                []) as [[]|(y & Hy & Hk)].
    exists a, y. rewrite Ha. split; [reflexivity|]. split; [|exact Hk].
    rewrite Hplan. unfold dedupe_first_seen. rewrite Hsplit.
    apply (In_firstn_le (S (List.length pre))); [lia|exact Hy]. }
  split; [rewrite Hplan, Hhead; discriminate|].
  split; [rewrite Hplan; apply firstn_le_length|].
  split.
  { rewrite Hplan, <- firstn_map. apply NoDup_firstn.
    apply (dedupe_first_seen_keys (video_utils.ex_pairs st) []). }
  split; [exact Hplan|].
  split; [rewrite Hplan, Hhead; reflexivity|].
  split; [exact Hfallback|].
  intros Heng Hdom. destruct Hfallback as (a & p & Ha & Hp & Hk).
  exists p. split; [exact Hp|].
  rewrite Hk, Heng. rewrite Hdom in Ha. injection Ha as <-. reflexivity.
Qed.

Lemma query_plan_nonempty_capped_deduplicated_witness :
  let set_iter := pylist.insertion_order in
  let terms := fun _ : string => @nil string in
  let text := "Where is my passport and boarding pass?"%string in
  let plan := fst (video_utils.sentence_to_query_extras set_iter terms text "auto") in
  plan <> [] /\ (List.length plan <= 1 + 8)%nat /\ NoDup (map video_utils.dedup_key plan).
Proof.
  intros set_iter terms text plan.
  destruct (query_plan_nonempty_capped_deduplicated
              set_iter terms text "auto" insertion_order_is_set_order)
    as (H1 & H2 & H3 & _).
  exact (conj H1 (conj H2 H3)).
Defined.

(** The worst case, evaluated: a sentence without any token, no mined
    terms.  The plan is the two generic anchor phrases. *)
Example empty_sentence_plan :
  video_utils.sentence_to_query_extras pylist.insertion_order (fun _ => []) "" "en"
  = ([("people indoors"%string, None); ("object closeup"%string, None)], None).
Proof. vm_compute. reflexivity. Qed.

(* ================================================================= *)
(** * Part III: further properties of the code *)
(* ================================================================= *)

(** ** Absolute alignment of the final audio *)

Section AudioAlignment.

Import audio_utils.

Variable tts : string -> string -> AudioSegment.
Variable pause_rep_ms : Z.





End AudioAlignment.



(** ** The draft timeline: layout and structure *)

Section DraftLayout.

Import main.

Variable settings : Settings.
Variable tts : string -> string -> AudioSegment.

Lemma adjacent_nth {A : Type} (R : A -> A -> Prop) (l : list A) :
  adjacent R l ->
  forall i a b, nth_error l i = Some a -> nth_error l (S i) = Some b -> R a b.
Proof.
  induction l as [|x rest IH]; intros Hadj i a b Ha Hb.
  - destruct i; discriminate.
  - destruct rest as [|y rest']; [destruct i as [|[|i]]; discriminate|].
    destruct Hadj as [Hxy Hrest]. destruct i as [|i].
    + cbn in Ha, Hb. injection Ha as <-. injection Hb as <-. exact Hxy.
    + exact (IH Hrest i a b Ha Hb).
Qed.



(** The first cue of the loop starts at the cursor. *)
Lemma draft_loop_first_start (lines : list LogicalLine) (t : Z) :
  match fst (draft_loop settings tts lines t) with
  | c :: _ => cue_start c = t
  | [] => lines = []
  end.
Proof.
  destruct lines as [|[[p s] tags] rest]; [reflexivity|].
  rewrite draft_loop_cons. reflexivity.
Qed.

Lemma draft_loop_cursor_after (lines : list LogicalLine) (t : Z) :
  match fst (draft_loop settings tts lines t) with
  | c :: _ => cue_start c = t
  | [] => True
  end.
Proof.
  pose proof (draft_loop_first_start lines t) as H.
  destruct (fst (draft_loop settings tts lines t)); [exact I|exact H].
Qed.

Lemma draft_loop_gaps (lines : list LogicalLine) :
  forall t, adjacent follows (fst (draft_loop settings tts lines t)).
Proof.
  induction lines as [|[[primary secondary] tags] rest IH]; intros t; [exact I|].
  rewrite draft_loop_cons. cbv zeta. cbn [fst].
  set (total1 := total_ms settings _ (len (tts_or_silence tts primary _))).
  set (total2 := total_ms settings _ (len (tts_or_silence tts secondary _))).
  set (t1 := t + total1 + Z.max (len (silence_sent settings)) 1700).
  set (b := ENABLE_BILINGUAL settings && negb (String.eqb secondary "")).
  set (t2 := (if b then t1 + total2 else t1) + len (silence_sent settings)).
  pose proof (len_nonneg (silence_sent settings)) as Hs.
  specialize (IH t2). pose proof (draft_loop_cursor_after rest t2) as Hhd.
  destruct b.
  - cbn [List.app adjacent]. split; [unfold follows; cbn; split; intros; unfold t1; lia|].
    destruct (fst (draft_loop settings tts rest t2)) as [|c rest'] eqn:E; [exact I|].
    split; [|exact IH].
    unfold follows. cbn. split; [unfold t2 in Hhd; lia|discriminate].
  - cbn [List.app].
    destruct (fst (draft_loop settings tts rest t2)) as [|c rest'] eqn:E; [exact I|].
    cbn [adjacent]. split; [|exact IH].
    unfold follows. cbn. unfold t2, t1 in Hhd. split; intros; lia.
Qed.


(** What a line contributes to the cue list, apart from the times. *)
Lemma draft_loop_structure (lines : list LogicalLine) :
  forall t,
    let cues := fst (draft_loop settings tts lines t) in
    List.length (filter cue_is_primary cues) = List.length lines
    /\ (List.length lines <= List.length cues <= 2 * List.length lines)%nat
    /\ match cues with c :: _ => cue_is_primary c = true | [] => True end
    /\ adjacent (fun c c' => cue_is_primary c = true \/ cue_is_primary c' = true) cues
    /\ Forall (fun c =>
                 if cue_is_primary c
                 then cue_lang c = primary_code settings
                      /\ cue_repeat c = PRIMARY_REPEAT_CNT settings
                 else cue_lang c = secondary_code settings
                      /\ cue_repeat c = SECONDARY_REPEAT_CNT settings
                      /\ cue_tags c = []
                      /\ cue_text c <> ""%string
                      /\ ENABLE_BILINGUAL settings = true) cues.
Proof.
  induction lines as [|[[primary secondary] tags] rest IH]; intros t; cbn zeta.
  - cbn. repeat split; try lia. constructor.
  - rewrite draft_loop_cons. cbv zeta. cbn [fst].
    set (total1 := total_ms settings _ (len (tts_or_silence tts primary _))).
    set (total2 := total_ms settings _ (len (tts_or_silence tts secondary _))).
    set (t1 := t + total1 + Z.max (len (silence_sent settings)) 1700).
    destruct (ENABLE_BILINGUAL settings) eqn:Eb; cbn [andb];
      [destruct (String.eqb secondary "") eqn:Es; cbn [negb]|].
    + destruct (IH (t1 + len (silence_sent settings))) as (H1 & H2 & H3 & H4 & H5).
      cbn [List.app filter cue_is_primary List.length].
      split; [now rewrite H1|]. split; [lia|]. split; [reflexivity|]. split.
      * destruct (fst (draft_loop settings tts rest _)); [exact I|].
        cbn [adjacent]. split; [now left|exact H4].
      * constructor; [cbn; auto|exact H5].
    + destruct (IH (t1 + total2 + len (silence_sent settings))) as (H1 & H2 & H3 & H4 & H5).
      cbn [List.app filter cue_is_primary List.length].
      split; [now rewrite H1|]. split; [lia|]. split; [reflexivity|]. split.
      * cbn [adjacent]. split; [now left|].
        destruct (fst (draft_loop settings tts rest _)) as [|c rest']; [exact I|].
        split; [now right|exact H4].
      * constructor; [cbn; auto|]. constructor; [|exact H5].
        cbn. repeat split. now apply String.eqb_neq.
    + destruct (IH (t1 + len (silence_sent settings))) as (H1 & H2 & H3 & H4 & H5).
      cbn [List.app filter cue_is_primary List.length].
      split; [now rewrite H1|]. split; [lia|]. split; [reflexivity|]. split.
      * destruct (fst (draft_loop settings tts rest _)); [exact I|].
        cbn [adjacent]. split; [now left|exact H4].
      * constructor; [cbn; auto|exact H5].
Qed.

End DraftLayout.

(** X2.  In a draft timeline consecutive cues never overlap, whatever the
    settings and the synthesis results: each cue starts at or after the end
    of the cue before it, and at least 1700 ms after it when that cue is a
    primary cue. *)
Theorem cues_draft_never_overlap
  (settings : main.Settings) (tts : string -> string -> AudioSegment)
  (logical_lines : list main.LogicalLine) :
  forall i c c',
    nth_error (main.cues_draft settings tts logical_lines) i = Some c ->
    nth_error (main.cues_draft settings tts logical_lines) (S i) = Some c' ->
    cue_end c <= cue_start c'
    /\ (cue_is_primary c = true -> cue_end c + 1700 <= cue_start c').
Proof.
  intros i c c' Hc Hc'.
  exact (adjacent_nth follows _ (draft_loop_gaps settings tts logical_lines 0) i c c' Hc Hc').
Qed.

Lemma cues_draft_never_overlap_witness :
  exists c c',
    nth_error (main.cues_draft scenario_settings scenario_tts scenario_lines) 0 = Some c
    /\ nth_error (main.cues_draft scenario_settings scenario_tts scenario_lines) 1 = Some c'
    /\ cue_end c <= cue_start c'
    /\ (cue_is_primary c = true -> cue_end c + 1700 <= cue_start c').
Proof.
  eexists. eexists. split; [vm_compute; reflexivity|]. split; [vm_compute; reflexivity|].
  apply (cues_draft_never_overlap scenario_settings scenario_tts scenario_lines 0%nat).
  - vm_compute. reflexivity.
  - vm_compute. reflexivity.
Defined.

(** X3.  A draft timeline has one primary cue per input line; it starts with
    a primary cue and never holds two secondary cues in a row; it has between
    one and two cues per line.  A primary cue carries the primary language
    and repeat count; a secondary cue exists only in bilingual mode, has a
    text that is not empty, the secondary language and repeat count, and no
    tags. *)
Theorem cues_draft_structure
  (settings : main.Settings) (tts : string -> string -> AudioSegment)
  (logical_lines : list main.LogicalLine) :
  let cues := main.cues_draft settings tts logical_lines in
  List.length (filter cue_is_primary cues) = List.length logical_lines
  /\ (List.length logical_lines <= List.length cues <= 2 * List.length logical_lines)%nat
  /\ match cues with c :: _ => cue_is_primary c = true | [] => True end
  /\ adjacent (fun c c' => cue_is_primary c = true \/ cue_is_primary c' = true) cues
  /\ Forall (fun c =>
               if cue_is_primary c
               then cue_lang c = main.primary_code settings
                    /\ cue_repeat c = main.PRIMARY_REPEAT_CNT settings
               else cue_lang c = main.secondary_code settings
                    /\ cue_repeat c = main.SECONDARY_REPEAT_CNT settings
                    /\ cue_tags c = []
                    /\ cue_text c <> ""%string
                    /\ main.ENABLE_BILINGUAL settings = true) cues.
Proof.
  exact (draft_loop_structure settings tts logical_lines 0).
Qed.



(** ** The download walk: how many, which, and when it stops *)

Section DownloadWalk.

Import video_utils.

Variable _download_image : string -> string -> string -> option string.
Variable query : string.
Variable n : Z.

Lemma download_walk_outcome (items : list RankedItem) :
  forall (seen_src out : list string),
    let result := download_walk _download_image query n items seen_src out in
    fst result
    = (out ++ filter_map (fun call => _download_image (fst call) query (snd call))
                         (snd result))%list
    /\ Z.of_nat (List.length (fst result)) <= Z.max n (Z.of_nat (List.length out) + 1)
    /\ (Z.of_nat (List.length out) < n ->
        Z.of_nat (List.length (fst result)) <= n)
    /\ (Z.of_nat (List.length (fst result)) < n ->
        forall item, In item items ->
                     In (item_src item) seen_src \/ In (item_src item) (map fst (snd result))).
Proof.
  induction items as [|item rest IH]; intros seen_src out; cbn zeta.
  - cbn. rewrite app_nil_r. repeat split; try lia; intros; contradiction.
  - cbn [download_walk].
    destruct (pystr.mem (item_src item) seen_src) eqn:Hseen.
    + destruct (IH seen_src out) as (H1 & H2 & H3 & H4). cbv zeta in H1, H2, H3, H4.
      split; [exact H1|]. split; [exact H2|]. split; [exact H3|].
      intros Hlt it [<-|Hit]; [left; now apply mem_true_iff|].
      exact (H4 Hlt it Hit).
    + set (r := _download_image (item_src item) query (item_provider item)).
      set (out' := match r with Some p => (out ++ [p])%list | None => out end).
      assert (Hout' : out' = (out ++ filter_map
                                       (fun call => _download_image (fst call) query (snd call))
                                       [(item_src item, item_provider item)])%list).
      { unfold out'. cbn [filter_map fst snd]. fold r.
        destruct r; [reflexivity|now rewrite app_nil_r]. }
      assert (Hlen' : (List.length out <= List.length out' <= List.length out + 1)%nat).
      { unfold out'. destruct r; [rewrite length_app; cbn; lia|lia]. }
      destruct (n <=? Z.of_nat (List.length out')) eqn:Hn.
      * apply Z.leb_le in Hn. cbn [fst snd].
        split; [exact Hout'|]. split; [lia|]. split; [lia|]. lia.
      * apply Z.leb_gt in Hn.
        destruct (IH (item_src item :: seen_src) out') as (H1 & H2 & H3 & H4).
        cbv zeta in H1, H2, H3, H4.
        destruct (download_walk _download_image query n rest
                                (item_src item :: seen_src) out') as [o calls].
        cbn [fst snd] in *.
        split.
        { rewrite H1, Hout'. cbn [filter_map fst snd]. fold r.
          destruct r; cbn [filter_map]; rewrite <- ?app_assoc; reflexivity. }
        split; [specialize (H3 Hn); lia|]. split; [intros _; exact (H3 Hn)|].
        intros Hlt it [<-|Hit]; [right; now left|].
        destruct (H4 Hlt it Hit) as [[E|Hs]|Hc].
        -- right. left. exact E.
        -- now left.
        -- right. now right.
Qed.

End DownloadWalk.

(** X5.  One search returns the paths of exactly the download calls that
    succeeded, in call order; it returns at most [n] paths when [n >= 1] (at
    most one when [n <= 0]); and when it returns fewer than [n] paths, the
    candidate list was exhausted: every candidate's source URL was called
    for. *)
Theorem search_returns_successful_downloads
  (set_iter : list string -> list string)
  (pixabay_api : string -> string -> option string -> option (list video_utils.PixabayHit))
  (unsplash_api : string -> string -> option (list video_utils.UnsplashPhoto))
  (pix_key uns_key : option string)
  (_download_image : string -> string -> string -> option string)
  (query : string) (n : Z) (category : option string) :
  let ranked_all :=
    video_utils._search_both_ranked set_iter pixabay_api unsplash_api pix_key uns_key
                                    query category in
  let traced :=
    video_utils.search_and_download_best_traced
      set_iter pixabay_api unsplash_api pix_key uns_key _download_image query n category in
  let paths :=
    video_utils.search_and_download_best
      set_iter pixabay_api unsplash_api pix_key uns_key _download_image query n category in
  paths = fst traced
  /\ paths = video_utils.filter_map
               (fun call => _download_image (fst call) query (snd call)) (snd traced)
  /\ Z.of_nat (List.length paths) <= Z.max n 1
  /\ (Z.of_nat (List.length paths) < n ->
      forall item, In item ranked_all ->
                   In (video_utils.item_src item) (map fst (snd traced))).
Proof.
  intros ranked_all traced paths.
  destruct (download_walk_outcome _download_image query n ranked_all [] [])
    as (H1 & H2 & _ & H4).
  cbv zeta in H1, H2, H4. cbn [List.app List.length] in H1, H2.
  split; [reflexivity|]. split; [exact H1|]. split; [exact H2|].
  intros Hlt item Hin. destruct (H4 Hlt item Hin) as [[]|H]. exact H.
Qed.

(** ** Visual spans tile the timeline *)

Section SpansTile.

Import video_utils.

Lemma compute_visual_spans_contiguous (total : Z) (cues : list Cue) :
  adjacent (fun c c' => cue_start c <= cue_start c') cues ->
  adjacent (fun s s' => snd s = fst s') (compute_visual_spans cues total)
  /\ Forall (fun s => fst s <= snd s \/ snd s = total) (compute_visual_spans cues total).
Proof.
  induction cues as [|c rest IH]; intros Hadj; [split; [exact I|constructor]|].
  destruct rest as [|c' rest'].
  - cbn. split; [exact I|]. constructor; [now right|constructor].
  - destruct Hadj as [Hle Hrest]. destruct (IH Hrest) as [IH1 IH2].
    cbn [compute_visual_spans] in *. split.
    + cbn [adjacent]. split; [cbn; lia|exact IH1].
    + constructor; [left; cbn; lia|exact IH2].
Qed.

Lemma compute_visual_spans_last (total : Z) (cues : list Cue) :
  cues <> [] -> snd (last (compute_visual_spans cues total) (0, 0)) = total.
Proof.
  induction cues as [|c rest IH]; intros Hne; [contradiction|].
  destruct rest as [|c' rest']; [reflexivity|].
  cbn [compute_visual_spans] in *.
  change (last (?a :: ?b :: ?l) ?d) with (last (b :: l) d).
  apply IH. discriminate.
Qed.

Lemma compute_visual_spans_forward (total : Z) (cues : list Cue) :
  forall i s, nth_error (compute_visual_spans cues total) i = Some s ->
              (S i < List.length cues)%nat -> fst s <= snd s.
Proof.
  induction cues as [|c rest IH]; intros i s Hs Hi; [cbn in Hi; lia|].
  destruct rest as [|c' rest']; [cbn in Hi; lia|].
  destruct i as [|i].
  - cbn in Hs. injection Hs as <-. cbn. lia.
  - cbn [compute_visual_spans nth_error] in Hs. apply (IH i s Hs). cbn in *. lia.
Qed.

Lemma render_clips_length (path_exists : string -> bool) (fps : Z) :
  forall spans images i,
    List.length (render_clips path_exists fps i spans images)
    = Nat.min (List.length spans) (List.length images).
Proof.
  induction spans as [|s spans IH]; intros images i; [reflexivity|].
  destruct images as [|img images]; [reflexivity|].
  cbn [render_clips List.length Nat.min]. now rewrite IH.
Qed.

Lemma render_clips_numbers (path_exists : string -> bool) (fps : Z) :
  forall spans images i,
    map clip_number (render_clips path_exists fps i spans images)
    = seq i (Nat.min (List.length spans) (List.length images)).
Proof.
  induction spans as [|s spans IH]; intros images i; [reflexivity|].
  destruct images as [|img images]; [reflexivity|].
  cbn [render_clips List.length Nat.min map seq]. rewrite IH. f_equal.
  unfold render_clip. destruct img as [p|]; [|reflexivity].
  destruct (pystr.nonempty p && path_exists p); reflexivity.
Qed.

Lemma span_frames_positive (fps : Z) (span : Z * Z) : 1 <= span_frames fps span.
Proof. destruct span as [s e]. unfold span_frames. lia. Qed.

End SpansTile.

(** X6.  The visual spans are one per cue, and every span but the last runs
    forward.  When the cue starts do not decrease, the spans tile the
    timeline: each span ends where the next one starts, and the last one ends
    at the total audio length. *)
Theorem visual_spans_tile_the_timeline (cues : list Cue) (total_audio_ms : Z) :
  let spans := video_utils.compute_visual_spans cues total_audio_ms in
  List.length spans = List.length cues
  /\ (forall i s, nth_error spans i = Some s -> (S i < List.length cues)%nat ->
                  fst s <= snd s)
  /\ (cues <> [] -> snd (last spans (0, 0)) = total_audio_ms)
  /\ (adjacent (fun c c' => cue_start c <= cue_start c') cues ->
      adjacent (fun s s' => snd s = fst s') spans).
Proof.
  cbv zeta. split; [apply compute_visual_spans_length|].
  split; [apply compute_visual_spans_forward|].
  split; [apply compute_visual_spans_last|].
  intros H. now apply compute_visual_spans_contiguous.
Qed.

Lemma visual_spans_tile_the_timeline_witness :
  adjacent (fun s s' => snd s = fst s')
           (video_utils.compute_visual_spans scenario_slideshow_cues 12000)
  /\ snd (last (video_utils.compute_visual_spans scenario_slideshow_cues 12000) (0, 0))
     = 12000.
Proof.
  destruct (visual_spans_tile_the_timeline scenario_slideshow_cues 12000)
    as (_ & _ & Hlast & Htile).
  split.
  - apply Htile. cbn. lia.
  - apply Hlast. discriminate.
Defined.

(** X7.  The slideshow renders one segment per cue that has an image slot
    (as many as the shorter of the cue list and the image list), numbered
    from 1 in cue order, and every segment has at least one frame. *)
Theorem slideshow_segments_numbered_and_nonempty
  (path_exists : string -> bool) (cues : list Cue)
  (per_sentence_images : list (option string)) (total_audio_ms fps : Z) :
  let clips :=
    video_utils.build_slideshow_video_cfr path_exists cues per_sentence_images
                                          total_audio_ms fps in
  map video_utils.clip_number clips
  = seq 1 (Nat.min (List.length cues) (List.length per_sentence_images))
  /\ Forall (fun clip => 1 <= video_utils.clip_frames clip) clips
  /\ Forall (fun clip =>
               match video_utils.clip_image clip with
               | Some p => In (Some p) per_sentence_images /\ path_exists p = true
               | None => True
               end) clips.
Proof.
  cbv zeta. unfold video_utils.build_slideshow_video_cfr.
  split; [|split].
  - rewrite render_clips_numbers, compute_visual_spans_length. reflexivity.
  - apply Forall_forall. intros clip Hin.
    assert (H : In (video_utils.clip_frames clip)
                   (map video_utils.clip_frames
                        (video_utils.render_clips
                           path_exists fps 1
                           (video_utils.compute_visual_spans cues total_audio_ms)
                           per_sentence_images))) by now apply in_map.
    rewrite render_clips_frames in H. apply in_map_iff in H.
    destruct H as (span & <- & _). apply span_frames_positive.
  - generalize (video_utils.compute_visual_spans cues total_audio_ms) as spans.
    generalize 1%nat as i.
    induction per_sentence_images as [|img images IH]; intros i spans.
    + destruct spans; constructor.
    + destruct spans as [|s spans]; [constructor|].
      cbn [video_utils.render_clips]. constructor.
      * unfold video_utils.render_clip. destruct img as [p|]; [|exact I].
        destruct (pystr.nonempty p && path_exists p) eqn:E; [|exact I].
        cbn. apply andb_true_iff in E. split; [now left|tauto].
      * eapply Forall_impl; [|apply IH].
        intros clip. cbn beta. destruct (video_utils.clip_image clip); [|exact id].
        intros [H1 H2]. split; [now right|exact H2].
Qed.

(** ** Trigram similarity *)

Section TrigramSimilarity.

Import pystr pylist video_utils.

Lemma mem_In (x : string) (xs : list string) : mem x xs = true <-> In x xs.
Proof. apply mem_true_iff. Qed.

Lemma inter_list_NoDup (xs ys : list string) :
  NoDup (filter (fun x => mem x ys) (nodup string_dec xs)).
Proof. apply NoDup_filter, NoDup_nodup. Qed.

Lemma inter_list_In (xs ys : list string) (x : string) :
  In x (filter (fun x => mem x ys) (nodup string_dec xs)) <-> In x xs /\ In x ys.
Proof. rewrite filter_In, nodup_In, mem_In. reflexivity. Qed.

Lemma inter_len_sym (xs ys : list string) : inter_len xs ys = inter_len ys xs.
Proof.
  unfold inter_len. apply Permutation_length.
  apply NoDup_Permutation; try apply inter_list_NoDup.
  intros x. rewrite !inter_list_In. tauto.
Qed.

Lemma union_len_sym (xs ys : list string) : union_len xs ys = union_len ys xs.
Proof.
  unfold union_len, set_len. apply Permutation_length.
  apply NoDup_Permutation; try apply NoDup_nodup.
  intros x. rewrite !nodup_In, !in_app_iff. tauto.
Qed.

Lemma inter_le_union (xs ys : list string) : (inter_len xs ys <= union_len xs ys)%nat.
Proof.
  unfold inter_len, union_len, set_len.
  apply NoDup_incl_length; [apply inter_list_NoDup|].
  intros x Hx. apply inter_list_In in Hx. apply nodup_In, in_app_iff. tauto.
Qed.

Lemma inter_len_self (xs : list string) : inter_len xs xs = set_len xs.
Proof.
  unfold inter_len, set_len. apply Permutation_length.
  apply NoDup_Permutation; [apply inter_list_NoDup|apply NoDup_nodup|].
  intros x. rewrite inter_list_In, nodup_In. tauto.
Qed.

Lemma union_len_self (xs : list string) : union_len xs xs = set_len xs.
Proof.
  unfold union_len, set_len. apply Permutation_length.
  apply NoDup_Permutation; try apply NoDup_nodup.
  intros x. rewrite !nodup_In, in_app_iff. tauto.
Qed.

Lemma set_len_le_union (xs ys : list string) : (set_len xs <= union_len xs ys)%nat.
Proof.
  unfold union_len, set_len. apply NoDup_incl_length; [apply NoDup_nodup|].
  intros x Hx. apply nodup_In in Hx. apply nodup_In, in_app_iff. now left.
Qed.

Lemma set_len_pos (xs : list string) : xs <> [] -> (1 <= set_len xs)%nat.
Proof.
  intros H. destruct xs as [|x xs]; [contradiction|].
  unfold set_len.
  assert (Hin : In x (nodup string_dec (x :: xs))) by (apply nodup_In; now left).
  destruct (nodup string_dec (x :: xs)); [contradiction|cbn; lia].
Qed.

(** A string always has trigrams: the padding alone gives two. *)
Lemma _trigrams_nonempty (s : string) : _trigrams s <> [].
Proof.
  unfold _trigrams.
  assert (H : (4 <= String.length ("  " ++ s ++ "  "))%nat).
  { cbn [String.append String.length]. clear.
    induction s as [|c s IH]; cbn [String.append String.length]; lia. }
  destruct (String.length ("  " ++ s ++ "  ") - 3 + 1)%nat eqn:E; [lia|].
  cbn [seq map]. discriminate.
Qed.

Local Open Scope Q_scope.

Lemma ratio_bounds (i u : nat) :
  (i <= u)%nat -> (1 <= u)%nat ->
  0 <= inject_Z (Z.of_nat i) / inject_Z (Z.of_nat u)
  /\ inject_Z (Z.of_nat i) / inject_Z (Z.of_nat u) <= 1.
Proof.
  intros Hiu Hu.
  assert (Hpos : 0 < inject_Z (Z.of_nat u)) by (unfold Qlt, inject_Z; simpl; lia).
  split.
  - apply Qle_shift_div_l; [exact Hpos|].
    rewrite Qmult_0_l. unfold Qle, inject_Z. simpl. lia.
  - apply Qle_shift_div_r; [exact Hpos|].
    rewrite Qmult_1_l. unfold Qle, inject_Z. simpl. lia.
Qed.

End TrigramSimilarity.

Lemma tri_sim_range (a b : string) :
  (0 <= video_utils._tri_sim a b)%Q /\ (video_utils._tri_sim a b <= 1)%Q.
Proof.
  unfold video_utils._tri_sim.
  set (A := video_utils._trigrams (video_utils._normalize_text a)).
  set (B := video_utils._trigrams (video_utils._normalize_text b)).
  assert (HA : (1 <= pylist.set_len A)%nat) by apply set_len_pos, _trigrams_nonempty.
  assert (HB : (1 <= pylist.set_len B)%nat) by apply set_len_pos, _trigrams_nonempty.
  assert (EA : (pylist.set_len A =? 0)%nat = false) by (apply Nat.eqb_neq; lia).
  assert (EB : (pylist.set_len B =? 0)%nat = false) by (apply Nat.eqb_neq; lia).
  rewrite EA, EB. cbn [orb].
  pose proof (inter_le_union A B) as Hiu.
  pose proof (set_len_le_union A B) as Hu.
  apply ratio_bounds; [exact Hiu|lia].
Qed.

(** X8.  The trigram similarity is a similarity measure: it lies between 0
    and 1, it does not depend on the order of its two arguments, and a string
    is fully similar to itself. *)
Theorem tri_sim_is_a_similarity (a b : string) :
  (0 <= video_utils._tri_sim a b)%Q
  /\ (video_utils._tri_sim a b <= 1)%Q
  /\ video_utils._tri_sim a b = video_utils._tri_sim b a
  /\ (video_utils._tri_sim a a == 1)%Q.
Proof.
  unfold video_utils._tri_sim.
  set (A := video_utils._trigrams (video_utils._normalize_text a)).
  set (B := video_utils._trigrams (video_utils._normalize_text b)).
  assert (HA : (1 <= pylist.set_len A)%nat) by apply set_len_pos, _trigrams_nonempty.
  assert (HB : (1 <= pylist.set_len B)%nat) by apply set_len_pos, _trigrams_nonempty.
  assert (EA : (pylist.set_len A =? 0)%nat = false) by (apply Nat.eqb_neq; lia).
  assert (EB : (pylist.set_len B =? 0)%nat = false) by (apply Nat.eqb_neq; lia).
  rewrite EA, EB. cbn [orb].
  pose proof (inter_le_union A B) as Hiu.
  pose proof (set_len_le_union A B) as Hu.
  destruct (ratio_bounds (pylist.inter_len A B) (pylist.union_len A B) Hiu ltac:(lia))
    as [H0 H1].
  split; [exact H0|]. split; [exact H1|]. split.
  - now rewrite inter_len_sym, union_len_sym.
  - rewrite inter_len_self, union_len_self.
    apply Qmult_inv_r. unfold Qeq, inject_Z. simpl. lia.
Qed.

(** ** Ranges of the scores *)

Section ScoreRanges.

Import pystr pylist video_utils.
Local Open Scope Q_scope.

Variable set_iter : list string -> list string.

Lemma inter_len_le_right (xs ys : list string) : (inter_len xs ys <= set_len ys)%nat.
Proof.
  rewrite inter_len_sym. unfold inter_len, set_len. apply filter_length_le.
Qed.

Lemma overlap_of_le_1 (tags : string) (raw : list string) : overlap_of tags raw <= 1.
Proof.
  unfold overlap_of.
  apply ratio_bounds; [|lia].
  pose proof (inter_len_le_right (tag_tokens_of tags) (rq_of raw)). lia.
Qed.

Lemma tag_similarity_le_1 (tags : string) (raw : list string) :
  tag_similarity set_iter tags raw <= 1.
Proof.
  unfold tag_similarity.
  destruct (set_len (rq_of raw) =? 0)%nat; [discriminate|].
  destruct (Qle_bool 0 _); [|discriminate].
  apply tri_sim_range.
Qed.

End ScoreRanges.

Section ScoreBounds.

Import pystr pylist video_utils.
Local Open Scope Q_scope.

Variable set_iter : list string -> list string.

Lemma _domain_keyword_boost_range (text : string) :
  1 <= _domain_keyword_boost text /\ _domain_keyword_boost text <= 110 # 100.
Proof.
  unfold _domain_keyword_boost.
  repeat match goal with |- context [if ?b then _ else _] => destruct b end;
    split; discriminate.
Qed.

Lemma _score_hit_le_2 (tags : string) (raw : list string) :
  _score_hit set_iter tags raw <= 2.
Proof.
  unfold _score_hit.
  destruct (set_len (tag_tokens_of tags) =? 0)%nat; [discriminate|].
  change 2 with (1 * 2).
  apply Qmult_le_compat_nonneg.
  - split; [apply overlap_of_nonneg|apply overlap_of_le_1].
  - pose proof (tag_similarity_nonneg set_iter tags raw) as H0.
    pose proof (tag_similarity_le_1 set_iter tags raw) as H1.
    destruct (Qle_bool TRIGRAM_TAG_THRESHOLD _).
    + split.
      * apply Qle_trans with (0 + 0); [discriminate|].
        apply Qplus_le_compat; [discriminate|exact H0].
      * change 2 with (1 + 1). apply Qplus_le_compat; [apply Qle_refl|exact H1].
    + split; discriminate.
Qed.


Lemma popularity_factor_monotone (l1 l2 : Z) :
  (l1 <= l2)%Z ->
  1 + inject_Z (Z.min l1 200) / 500 <= 1 + inject_Z (Z.min l2 200) / 500.
Proof.
  intros H. apply Qplus_le_compat; [apply Qle_refl|].
  unfold Qdiv. apply Qmult_le_compat_r; [|discriminate].
  unfold Qle, inject_Z. simpl. lia.
Qed.

Lemma base_score_range (tags : string) (raw : list string) :
  0 <= _score_hit set_iter tags raw * _domain_keyword_boost tags
  /\ _score_hit set_iter tags raw * _domain_keyword_boost tags <= 2 * (110 # 100).
Proof.
  destruct (_domain_keyword_boost_range tags) as [Hb1 Hb2].
  split.
  - apply Qmult_le_0_compat; [apply _score_hit_nonneg|].
    apply Qle_trans with 1; [discriminate|exact Hb1].
  - apply Qmult_le_compat_nonneg.
    + split; [apply _score_hit_nonneg|apply _score_hit_le_2].
    + split; [apply Qle_trans with 1; [discriminate|exact Hb1]|exact Hb2].
Qed.

End ScoreBounds.


(** X10.  The popularity boost of an Unsplash candidate never lowers with
    more likes and saturates at 200 likes: of two photos with the same tag
    text, the one with more likes scores at least as high, and beyond 200
    likes the score no longer changes. *)
Theorem unsplash_popularity_monotone_and_capped
  (set_iter : list string -> list string) (raw_tokens : list string)
  (ph1 ph2 : video_utils.UnsplashPhoto) (it1 it2 : video_utils.RankedItem) :
  video_utils.unsplash_item set_iter raw_tokens ph1 = Some it1 ->
  video_utils.unsplash_item set_iter raw_tokens ph2 = Some it2 ->
  video_utils.unsplash_tags ph1 = video_utils.unsplash_tags ph2 ->
  video_utils.uns_likes ph1 <= video_utils.uns_likes ph2 ->
  (video_utils.item_score it1 <= video_utils.item_score it2)%Q
  /\ (200 <= video_utils.uns_likes ph1 ->
      (video_utils.item_score it1 == video_utils.item_score it2)%Q).
Proof.
  intros H1 H2 Ht Hl.
  rewrite (unsplash_item_score _ _ _ _ H1), (unsplash_item_score _ _ _ _ H2), Ht.
  destruct (base_score_range set_iter (video_utils.unsplash_tags ph2) raw_tokens) as [H0 _].
  set (base := (video_utils._score_hit _ _ _ * _)%Q) in *.
  split.
  - rewrite !(Qmult_comm base).
    apply Qmult_le_compat_r; [now apply popularity_factor_monotone|exact H0].
  - intros Hsat. rewrite !Z.min_r by lia. reflexivity.
Qed.

Lemma unsplash_popularity_monotone_and_capped_witness :
  let raw_tokens :=
    video_utils._tokenize (video_utils._normalize_text scenario_query) "en" in
  let ph2 :=
    video_utils.mkUnsplashPhoto "https://u/3.jpg" "" "" [] "zebra under big umbrella" ""
      40 "id3" "dan" "dan3" "" "" in
  exists it1 it2,
    video_utils.unsplash_item pylist.insertion_order raw_tokens scenario_unsplash_photo
    = Some it1
    /\ video_utils.unsplash_item pylist.insertion_order raw_tokens ph2 = Some it2
    /\ (video_utils.item_score it1 <= video_utils.item_score it2)%Q.
Proof.
  cbv zeta. eexists. eexists. split; [reflexivity|]. split; [reflexivity|].
  eapply proj1.
  apply (unsplash_popularity_monotone_and_capped
           pylist.insertion_order
           (video_utils._tokenize (video_utils._normalize_text scenario_query) "en")
           scenario_unsplash_photo
           (video_utils.mkUnsplashPhoto "https://u/3.jpg" "" "" [] "zebra under big umbrella"
                                        "" 40 "id3" "dan" "dan3" "" "")).
  - reflexivity.
  - reflexivity.
  - reflexivity.
  - simpl. lia.
Defined.

(** ** What a query plan holds *)

Section PlanContents.

Import pystr pylist video_utils.

Lemma dedupe_first_seen_kept (pairs : list QueryPair) :
  forall seen p,
    In p (dedupe_first_seen_from seen pairs) ->
    In p pairs /\ nonempty (strip (fst p)) = true.
Proof.
  induction pairs as [|q rest IH]; intros seen p Hin; [contradiction|].
  cbn [dedupe_first_seen_from] in Hin.
  destruct (negb (pair_mem (dedup_key q) seen)); cbn [andb] in Hin.
  - destruct (nonempty (strip (fst q))) eqn:E.
    + destruct Hin as [<-|Hin]; [split; [now left|exact E]|].
      destruct (IH _ _ Hin). split; [now right|assumption].
    + destruct (IH _ _ Hin). split; [now right|assumption].
  - destruct (IH _ _ Hin). split; [now right|assumption].
Qed.

Lemma In_firstn {A : Type} (n : nat) (l : list A) (x : A) :
  In x (firstn n l) -> In x l.
Proof.
  intros H. rewrite <- (firstn_skipn n l). apply in_or_app. now left.
Qed.

Lemma nonempty_true_iff (s : string) : nonempty s = true <-> s <> ""%string.
Proof. destruct s; cbn; split; congruence. Qed.

End PlanContents.

(** X11.  Every pair of a query plan is one of the candidate pairs the
    builder collected, and no query of the plan is blank. *)
Theorem query_plan_entries_are_visible_candidates
  (set_iter : list string -> list string) (_SCENARIO_TERMS : string -> list string)
  (text lang : string) :
  Forall (fun p =>
            In p (video_utils.ex_pairs
                    (video_utils.extras_state set_iter _SCENARIO_TERMS text lang))
            /\ pystr.strip (fst p) <> ""%string)
         (fst (video_utils.sentence_to_query_extras set_iter _SCENARIO_TERMS text lang)).
Proof.
  unfold video_utils.sentence_to_query_extras. cbn [fst].
  rewrite uniq_loop_refines by (cbn; lia). cbn [List.app List.length].
  apply Forall_forall. intros p Hin.
  apply In_firstn in Hin. apply dedupe_first_seen_kept in Hin.
  destruct Hin as [H1 H2]. split; [exact H1|now apply nonempty_true_iff].
Qed.

(** X12.  [sentence_to_query] never returns a blank query: when a concept is
    detected it is the template of the first hit, otherwise a phrase that
    holds an anchor of the guessed domain. *)
Theorem sentence_to_query_never_blank
  (set_iter : list string -> list string) (_SCENARIO_TERMS : string -> list string)
  (text lang : string) (max_words : nat) :
  pylist.set_order set_iter ->
  let query := video_utils.sentence_to_query set_iter _SCENARIO_TERMS text lang max_words in
  pystr.strip query <> ""%string
  /\ match video_utils._detect_candidates
             set_iter (video_utils._clean_modifiers set_iter text)
             (video_utils.auto_lang text lang) with
     | first :: _ =>
         exists cat, pylist.get first video_utils.QUERY_TEMPLATES = Some (query, cat)
     | [] => True
     end.
Proof.
  intros Horder query. split.
  - apply nonempty_true_iff. rewrite nonempty_strip.
    now apply sentence_to_query_visible.
  - unfold query, video_utils.sentence_to_query.
    destruct (video_utils._detect_candidates _ _ _) as [|first hits] eqn:E; [exact I|].
    assert (Hin : In first (map fst video_utils.LEXICON)).
    { apply (_detect_candidates_in_lexicon set_iter _SCENARIO_TERMS Horder
               (video_utils._clean_modifiers set_iter text)
               (video_utils.auto_lang text lang)).
      rewrite E. now left. }
    assert (Hall : forallb (fun k => match pylist.get k video_utils.QUERY_TEMPLATES with
                                     | Some _ => true
                                     | None => false
                                     end) (map fst video_utils.LEXICON) = true)
      by (vm_compute; reflexivity).
    rewrite forallb_forall in Hall. specialize (Hall first Hin).
    unfold video_utils.template_get.
    destruct (pylist.get first video_utils.QUERY_TEMPLATES) as [[tmpl cat]|];
      [|discriminate].
    exists cat. reflexivity.
Qed.

Lemma sentence_to_query_never_blank_witness :
  pystr.strip (video_utils.sentence_to_query pylist.insertion_order (fun _ => [])
                                             "Two towels, please." "en" 6)
  <> ""%string.
Proof.
  pose proof (sentence_to_query_never_blank pylist.insertion_order (fun _ => [])
                                            "Two towels, please." "en" 6
                                            insertion_order_is_set_order) as H.
  cbv zeta in H. destruct H as [H _]. exact H.
Defined.

(** ** Background music *)

Section BackgroundMusic.

Import audio_utils.




End BackgroundMusic.



(** ** The stem of the output files *)

Section Slug.

Import pystr main_input.

Lemma slug_char_plain (c : ascii) :
  is_slug_char c = true -> is_space c = false /\ lower_char c = c.
Proof.
  destruct c as [[] [] [] [] [] [] [] []]; vm_compute; intros H;
    first [discriminate H | split; reflexivity].
Qed.

Lemma filter_chars_all (p : ascii -> bool) (s : string) :
  forall_chars p (filter_chars p s) = true.
Proof.
  induction s as [|c s IH]; [reflexivity|].
  cbn [filter_chars]. destruct (p c) eqn:E; [|exact IH].
  cbn [forall_chars]. now rewrite E, IH.
Qed.

Lemma slug_chars_unchanged (t : string) :
  forall_chars is_slug_char t = true ->
  lower t = t /\ lstrip t = t /\ rstrip t = t
  /\ sub_ws_runs_from "_" false t = t /\ filter_chars is_slug_char t = t.
Proof.
  induction t as [|c t IH]; [repeat split|].
  cbn [forall_chars]. intros H. apply andb_prop in H as [Hc Ht].
  destruct (IH Ht) as (H1 & _ & H3 & H4 & H5).
  destruct (slug_char_plain c Hc) as [Hsp Hlow].
  unfold lower in *.
  cbn [map_chars lstrip rstrip sub_ws_runs_from filter_chars].
  rewrite Hsp, Hc, Hlow, H1, H3, H4, H5. repeat split.
Qed.

End Slug.

(** X14.  The stem computed for the output files is never empty, holds only
    lowercase letters, digits, underscores and hyphens, and is stable: the
    stem of a stem is the stem itself. *)
Theorem slug_is_a_stable_file_stem (s : string) :
  let r := main_input._slug s in
  pystr.nonempty r = true
  /\ pystr.forall_chars main_input.is_slug_char r = true
  /\ main_input._slug r = r.
Proof.
  cbv zeta.
  assert (H : pystr.nonempty (main_input._slug s) = true
              /\ pystr.forall_chars main_input.is_slug_char (main_input._slug s) = true).
  { unfold main_input._slug. cbv zeta.
    destruct (pystr.nonempty (pystr.filter_chars _ _)) eqn:E.
    - split; [exact E|apply filter_chars_all].
    - split; reflexivity. }
  destruct H as [Hne Hall]. split; [exact Hne|]. split; [exact Hall|].
  destruct (slug_chars_unchanged _ Hall) as (H1 & H2 & H3 & H4 & H5).
  set (r := main_input._slug s) in *.
  unfold main_input._slug at 1. cbv zeta.
  unfold pystr.strip, pystr.sub_ws_runs. rewrite H1, H2, H3, H4, H5, Hne. reflexivity.
Qed.

(** ** The images shown with the cues *)

Section ExpandedImages.

Import main_video.

Lemma expand_images_props (cues : list Cue) :
  forall (images : list (option string)) (last_img : option string),
    let out := expand_images cues images last_img in
    let primaries := List.length (filter cue_is_primary cues) in
    List.length out = List.length cues
    /\ (forall c, nth_error cues 0 = Some c -> cue_is_primary c = false ->
                  nth_error out 0 = Some last_img)
    /\ (forall i c, nth_error cues (S i) = Some c -> cue_is_primary c = false ->
                    nth_error out (S i) = nth_error out i)
    /\ map snd (filter (fun p => cue_is_primary (fst p)) (combine cues out))
       = (firstn primaries images ++ repeat None (primaries - List.length images))%list.
Proof.
  induction cues as [|c0 rest IH]; intros images last_img; cbv zeta.
  - cbn. repeat split; intros; discriminate.
  - assert (Hshape : exists x images',
               expand_images (c0 :: rest) images last_img
               = x :: expand_images rest images' x
               /\ (cue_is_primary c0 = false -> x = last_img /\ images' = images)
               /\ (cue_is_primary c0 = true ->
                   (images = x :: images')
                   \/ (images = [] /\ images' = [] /\ x = None))).
    { cbn [expand_images]. destruct (cue_is_primary c0) eqn:Hp.
      - destruct images as [|img images'].
        + exists None, []. split; [reflexivity|]. split; [discriminate|]. intros _. now right.
        + exists img, images'. split; [reflexivity|]. split; [discriminate|]. intros _. now left.
      - exists last_img, images. split; [reflexivity|]. split; [now split|discriminate]. }
    destruct Hshape as (x & images' & Hout & Hsec & Hprim). rewrite Hout.
    destruct (IH images' x) as (H1 & H2 & H3 & H4). cbv zeta in H1, H2, H3, H4.
    split; [cbn [List.length]; now rewrite H1|].
    split.
    { intros c Hc Hcp. cbn in Hc. injection Hc as <-.
      destruct (Hsec Hcp) as [-> _]. reflexivity. }
    split.
    { intros [|i] c Hc Hcp.
      - cbn [nth_error] in Hc |- *. exact (H2 c Hc Hcp).
      - cbn [nth_error] in Hc |- *. exact (H3 i c Hc Hcp). }
    cbn [combine filter fst]. destruct (cue_is_primary c0) eqn:Hp.
    + cbn [map snd List.length]. rewrite H4.
      destruct (Hprim eq_refl) as [->|(-> & -> & ->)].
      * reflexivity.
      * cbn [List.length]. rewrite !firstn_nil, !Nat.sub_0_r. reflexivity.
    + destruct (Hsec eq_refl) as [_ ->]. exact H4.
Qed.

End ExpandedImages.

(** X15.  The images laid under the cues: there is one entry per cue; the
    primary cues take the images of the list in order, and [None] once the
    list is used up; a secondary cue shows what the cue before it shows (and
    nothing when it is the first cue). *)
Theorem expanded_images_follow_the_cues
  (cues : list Cue) (images : list (option string)) :
  let out := main_video.expand_images cues images None in
  let primaries := List.length (filter cue_is_primary cues) in
  List.length out = List.length cues
  /\ (forall c, nth_error cues 0 = Some c -> cue_is_primary c = false ->
                nth_error out 0 = Some None)
  /\ (forall i c, nth_error cues (S i) = Some c -> cue_is_primary c = false ->
                  nth_error out (S i) = nth_error out i)
  /\ map snd (filter (fun p => cue_is_primary (fst p)) (combine cues out))
     = (firstn primaries images ++ repeat None (primaries - List.length images))%list.
Proof.
  exact (expand_images_props cues images None).
Qed.

Section ImagesForCuesFacts.

Import video_utils.

Variable set_iter : list string -> list string.
Variable _SCENARIO_TERMS : string -> list string.
Variable pixabay_api : string -> string -> option string -> option (list PixabayHit).
Variable unsplash_api : string -> string -> option (list UnsplashPhoto).
Variable pix_key : option string.
Variable uns_key : option string.
Variable _download_image : string -> string -> string -> option string.
Variable IMAGES_PER_SENTENCE : Z.

Let images_loop :=
  get_images_loop set_iter _SCENARIO_TERMS pixabay_api unsplash_api pix_key uns_key
                  _download_image IMAGES_PER_SENTENCE.

Let image_of :=
  image_for_cue set_iter _SCENARIO_TERMS pixabay_api unsplash_api pix_key uns_key
                _download_image IMAGES_PER_SENTENCE.

Let search :=
  search_images set_iter pixabay_api unsplash_api pix_key uns_key
                _download_image IMAGES_PER_SENTENCE.

Lemma expand_images_of_primaries (cues : list Cue) :
  forall last_img last_img',
    main_video.expand_images cues (images_loop (filter cue_is_primary cues) last_img')
                             last_img
    = images_loop cues last_img.
Proof.
  induction cues as [|c rest IH]; intros last_img last_img'; [reflexivity|].
  unfold images_loop in *.
  cbn [filter main_video.expand_images get_images_loop].
  destruct (cue_is_primary c) eqn:Hp.
  - cbn [get_images_loop]. rewrite Hp. cbv zeta. now rewrite IH.
  - now rewrite IH.
Qed.

Lemma images_loop_length (cues : list Cue) :
  forall last_img, List.length (images_loop cues last_img) = List.length cues.
Proof.
  unfold images_loop.
  induction cues as [|c rest IH]; intros last_img; [reflexivity|].
  cbn [get_images_loop]. destruct (cue_is_primary c); cbn [List.length]; now rewrite IH.
Qed.

Lemma search_downloaded (q : string) (cat : option string) (p : string) :
  In p (search q cat) ->
  exists src provider, _download_image src q provider = Some p.
Proof.
  unfold search, search_images, search_and_download_best, search_and_download_best_traced.
  intros H.
  destruct (download_walk_outcome _download_image q (Z.max 1 IMAGES_PER_SENTENCE)
              (_search_both_ranked set_iter pixabay_api unsplash_api pix_key uns_key q cat)
              [] []) as (H1 & _).
  cbv zeta in H1. rewrite H1 in H. cbn [List.app] in H.
  apply filter_map_In in H as (call & _ & Hcall).
  now exists (fst call), (snd call).
Qed.

Lemma first_hit_In {A : Type} (f : A -> list string) (qs : list A) (p : string) :
  first_hit f qs = Some p -> exists q, In q qs /\ In p (f q).
Proof.
  induction qs as [|q rest IH]; [discriminate|].
  cbn [first_hit]. destruct (f q) as [|p' ps] eqn:E.
  - intros H. destruct (IH H) as (q' & Hq' & Hp). exists q'. split; [now right|exact Hp].
  - intros H. injection H as <-. exists q. split; [now left|]. rewrite E. now left.
Qed.

Lemma image_of_downloaded (c : Cue) (p : string) :
  image_of c = Some p ->
  exists q src provider,
    In q (candidate_queries set_iter _SCENARIO_TERMS c)
    /\ _download_image src q provider = Some p.
Proof.
  unfold image_of, image_for_cue, candidate_queries. cbv zeta. fold search.
  set (lang := if pystr.nonempty (cue_lang c) then cue_lang c else "auto"%string).
  set (plan := sentence_to_query_extras set_iter _SCENARIO_TERMS (cue_text c) lang).
  set (tags_norm := filter pystr.nonempty (map _norm_tag (cue_tags c))).
  assert (Hplan : forall p0,
             first_hit (fun qc : QueryPair => search (fst qc) (snd qc)) (fst plan) = Some p0 ->
             exists q src provider,
               In q (pystr.join " " tags_norm :: tags_norm ++ map fst (fst plan))%list
               /\ _download_image src q provider = Some p0).
  { intros p0 H. apply first_hit_In in H as (qc & Hqc & Hp).
    destruct (search_downloaded _ _ _ Hp) as (src & provider & Hd).
    exists (fst qc), src, provider. split; [|exact Hd].
    right. apply in_or_app. right. now apply in_map. }
  assert (Htags : forall p0,
             match tags_norm with
             | [] => None
             | _ :: _ =>
                 match search (pystr.join " " tags_norm) (snd plan) with
                 | p1 :: _ => Some p1
                 | [] => first_hit (fun t => search t (snd plan)) tags_norm
                 end
             end = Some p0 ->
             exists q src provider,
               In q (pystr.join " " tags_norm :: tags_norm ++ map fst (fst plan))%list
               /\ _download_image src q provider = Some p0).
  { intros p0 H. destruct tags_norm as [|t ts] eqn:Et; [discriminate|]. rewrite <- Et in *.
    destruct (search (pystr.join " " tags_norm) (snd plan)) as [|p1 ps] eqn:Es.
    - apply first_hit_In in H as (q & Hq & Hp).
      destruct (search_downloaded _ _ _ Hp) as (src & provider & Hd).
      exists q, src, provider. split; [|exact Hd].
      right. apply in_or_app. now left.
    - injection H as <-.
      destruct (search_downloaded (pystr.join " " tags_norm) (snd plan) p1) as (src & provider & Hd).
      { rewrite Es. now left. }
      exists (pystr.join " " tags_norm), src, provider. split; [now left|exact Hd]. }
  destruct (cue_tags c) as [|t0 ts0] eqn:Etags.
  - intros H. apply Hplan. exact H.
  - fold tags_norm in Htags |- *.
    destruct (match tags_norm with
              | [] => None
              | _ :: _ =>
                  match search (pystr.join " " tags_norm) (snd plan) with
                  | p1 :: _ => Some p1
                  | [] => first_hit (fun t => search t (snd plan)) tags_norm
                  end
              end) as [p1|] eqn:E.
    + intros H. injection H as <-. now apply Htags.
    + intros H. apply Hplan. exact H.
Qed.

Lemma images_loop_origin (cues : list Cue) :
  forall last_img i p,
    nth_error (images_loop cues last_img) i = Some (Some p) ->
    last_img = Some p
    \/ exists j c, (j <= i)%nat /\ nth_error cues j = Some c
                   /\ cue_is_primary c = true /\ image_of c = Some p.
Proof.
  unfold images_loop, image_of.
  induction cues as [|c rest IH]; intros last_img i p H; [destruct i; discriminate|].
  cbn [get_images_loop] in H. destruct (cue_is_primary c) eqn:Hp; cbv zeta in H.
  - right. destruct i as [|i]; cbn [nth_error] in H.
    + injection H as H. exists 0%nat, c. repeat split; [lia|assumption|exact H].
    + destruct (IH _ i p H) as [Hl|(j & c' & Hj & Hc' & Hp' & Himg)].
      * exists 0%nat, c. repeat split; [lia|assumption|exact Hl].
      * exists (S j), c'. repeat split; [lia|exact Hc'|exact Hp'|exact Himg].
  - destruct i as [|i]; cbn [nth_error] in H.
    + left. now injection H.
    + destruct (IH _ i p H) as [Hl|(j & c' & Hj & Hc' & Hp' & Himg)]; [now left|].
      right. exists (S j), c'. repeat split; [lia|exact Hc'|exact Hp'|exact Himg].
Qed.

End ImagesForCuesFacts.

Section NoKeys.

Import video_utils.

Variable set_iter : list string -> list string.
Variable _SCENARIO_TERMS : string -> list string.
Variable pixabay_api : string -> string -> option string -> option (list PixabayHit).
Variable unsplash_api : string -> string -> option (list UnsplashPhoto).
Variable _download_image : string -> string -> string -> option string.
Variable IMAGES_PER_SENTENCE : Z.

Lemma first_hit_nothing {A : Type} (f : A -> list string) (qs : list A) :
  (forall q, f q = []) -> first_hit f qs = None.
Proof.
  intros Hf. induction qs as [|q rest IH]; [reflexivity|].
  cbn [first_hit]. now rewrite Hf.
Qed.

Lemma search_images_without_keys (q : string) (cat : option string) :
  search_images set_iter pixabay_api unsplash_api None None _download_image
                IMAGES_PER_SENTENCE q cat = [].
Proof. reflexivity. Qed.

Lemma image_for_cue_without_keys (c : Cue) :
  image_for_cue set_iter _SCENARIO_TERMS pixabay_api unsplash_api None None
                _download_image IMAGES_PER_SENTENCE c = None.
Proof.
  unfold image_for_cue. cbv zeta.
  rewrite (first_hit_nothing
             (fun qc : QueryPair =>
                search_images set_iter pixabay_api unsplash_api None None _download_image
                              IMAGES_PER_SENTENCE (fst qc) (snd qc)))
    by (intros; apply search_images_without_keys).
  destruct (cue_tags c) as [|t ts]; [reflexivity|].
  destruct (filter pystr.nonempty (map _norm_tag (t :: ts))) as [|t1 ts1] eqn:E; [reflexivity|].
  rewrite search_images_without_keys.
  rewrite first_hit_nothing by (intros; apply search_images_without_keys).
  reflexivity.
Qed.

End NoKeys.

(** X16.  The video stage of [main] asks for the images of the primary cues
    only and lays them under all cues itself; the result is, cue for cue,
    what [get_images_for_cues] returns for the whole cue list, and it has
    one entry per cue. *)
Theorem expanded_images_agree_with_get_images_for_cues
  (set_iter : list string -> list string) (_SCENARIO_TERMS : string -> list string)
  (pixabay_api : string -> string -> option string -> option (list video_utils.PixabayHit))
  (unsplash_api : string -> string -> option (list video_utils.UnsplashPhoto))
  (pix_key uns_key : option string)
  (_download_image : string -> string -> string -> option string)
  (IMAGES_PER_SENTENCE : Z) (cues_src : list Cue) :
  let get_images :=
    video_utils.get_images_for_cues set_iter _SCENARIO_TERMS pixabay_api unsplash_api
                                    pix_key uns_key _download_image IMAGES_PER_SENTENCE in
  let primary_cues := filter cue_is_primary cues_src in
  main_video.expand_images cues_src (get_images primary_cues) None = get_images cues_src
  /\ List.length (get_images cues_src) = List.length cues_src
  /\ List.length (get_images primary_cues) = List.length primary_cues.
Proof.
  cbv zeta. unfold video_utils.get_images_for_cues.
  split; [apply expand_images_of_primaries|].
  split; apply images_loop_length.
Qed.

(** X17.  Without API keys no image is searched for or downloaded: every cue
    gets [None], whatever the endpoints and the download would return. *)
Theorem no_keys_no_images
  (set_iter : list string -> list string) (_SCENARIO_TERMS : string -> list string)
  (pixabay_api : string -> string -> option string -> option (list video_utils.PixabayHit))
  (unsplash_api : string -> string -> option (list video_utils.UnsplashPhoto))
  (_download_image : string -> string -> string -> option string)
  (IMAGES_PER_SENTENCE : Z) (cues : list Cue) :
  video_utils.get_images_for_cues set_iter _SCENARIO_TERMS pixabay_api unsplash_api
                                  None None _download_image IMAGES_PER_SENTENCE cues
  = repeat None (List.length cues)
  /\ (forall query n category,
         video_utils.search_and_download_best_traced
           set_iter pixabay_api unsplash_api None None _download_image query n category
         = ([], [])).
Proof.
  split; [|reflexivity].
  unfold video_utils.get_images_for_cues.
  induction cues as [|c rest IH]; [reflexivity|].
  cbn [video_utils.get_images_loop List.length repeat].
  rewrite image_for_cue_without_keys.
  destruct (cue_is_primary c); now rewrite IH.
Qed.

(** X18.  Every image in the result of [get_images_for_cues] was returned
    by a download made for a primary cue at or before that position, for one
    of that cue's own queries: its normalised tags joined, one of its
    normalised tags, or a query of the plan of its text. *)
Theorem images_come_from_the_cue_queries
  (set_iter : list string -> list string) (_SCENARIO_TERMS : string -> list string)
  (pixabay_api : string -> string -> option string -> option (list video_utils.PixabayHit))
  (unsplash_api : string -> string -> option (list video_utils.UnsplashPhoto))
  (pix_key uns_key : option string)
  (_download_image : string -> string -> string -> option string)
  (IMAGES_PER_SENTENCE : Z) (cues : list Cue) (i : nat) (p : string) :
  nth_error (video_utils.get_images_for_cues
               set_iter _SCENARIO_TERMS pixabay_api unsplash_api pix_key uns_key
               _download_image IMAGES_PER_SENTENCE cues) i = Some (Some p) ->
  exists j c q src provider,
    (j <= i)%nat /\ nth_error cues j = Some c /\ cue_is_primary c = true
    /\ In q (candidate_queries set_iter _SCENARIO_TERMS c)
    /\ _download_image src q provider = Some p.
Proof.
  intros H. unfold video_utils.get_images_for_cues in H.
  apply images_loop_origin in H as [H|(j & c & Hj & Hc & Hp & Himg)]; [discriminate|].
  apply image_of_downloaded in Himg as (q & src & provider & Hq & Hd).
  exists j, c, q, src, provider. repeat split; assumption.
Qed.

Lemma images_come_from_the_cue_queries_witness :
  exists j c q src provider,
    (j <= 1)%nat /\ nth_error scenario_tagged_cues j = Some c /\ cue_is_primary c = true
    /\ In q (candidate_queries pylist.insertion_order (fun _ => []) c)
    /\ scenario_download src q provider = Some "https://p/1.jpg"%string.
Proof.
  apply (images_come_from_the_cue_queries
           pylist.insertion_order (fun _ => []) scenario_pixabay_api scenario_unsplash_api
           (Some "k1"%string) (Some "k2"%string) scenario_download 1
           scenario_tagged_cues 1 "https://p/1.jpg"%string).
  vm_compute. reflexivity.
Defined.

(** ** Tokens *)

Section Tokens.

Import pystr video_utils.


Lemma forall_chars_app (p : ascii -> bool) (a b : string) :
  forall_chars p (a ++ b) = forall_chars p a && forall_chars p b.
Proof.
  induction a as [|c a IH]; [reflexivity|].
  cbn [String.append forall_chars]. now rewrite IH, andb_assoc.
Qed.

Lemma forall_chars_lstrip (p : ascii -> bool) (s : string) :
  forall_chars p s = true -> forall_chars p (lstrip s) = true.
Proof.
  induction s as [|c s IH]; [reflexivity|].
  cbn [lstrip]. destruct (is_space c); [|tauto].
  cbn [forall_chars]. intros H. apply andb_prop in H as [_ H]. now apply IH.
Qed.

Lemma forall_chars_rstrip (p : ascii -> bool) (s : string) :
  forall_chars p s = true -> forall_chars p (rstrip s) = true.
Proof.
  induction s as [|c s IH]; [reflexivity|].
  cbn [rstrip forall_chars]. intros H. apply andb_prop in H as [Hc H].
  destruct (is_space c && negb (nonempty (rstrip s))); [reflexivity|].
  cbn [forall_chars]. now rewrite Hc, IH.
Qed.

Lemma forall_chars_strip (p : ascii -> bool) (s : string) :
  forall_chars p s = true -> forall_chars p (strip s) = true.
Proof. intros H. now apply forall_chars_rstrip, forall_chars_lstrip. Qed.




End Tokens.



(** ** Scenario hints *)

Section StringOrder.

Import pylist.

Lemma string_leb_trans (a : string) :
  forall b c, String.leb a b = true -> String.leb b c = true -> String.leb a c = true.
Proof.
  unfold String.leb.
  induction a as [|x a IH]; intros [|y b] [|z c]; cbn; try congruence.
  unfold Ascii.compare.
  destruct (N.compare_spec (N_of_ascii x) (N_of_ascii y)),
           (N.compare_spec (N_of_ascii y) (N_of_ascii z)),
           (N.compare_spec (N_of_ascii x) (N_of_ascii z));
    intros Hab Hbc; try discriminate; try reflexivity; try lia.
  eapply IH; eassumption.
Qed.

Lemma string_leb_false (a b : string) : String.leb a b = false -> String.leb b a = true.
Proof.
  intros H. destruct (String.leb_total a b) as [H'|H']; [congruence|exact H'].
Qed.

Lemma insert_string_perm (x : string) (l : list string) :
  Permutation (insert_string x l) (x :: l).
Proof.
  induction l as [|y l IH]; [reflexivity|].
  cbn [insert_string]. destruct (String.leb x y); [reflexivity|].
  rewrite IH. apply perm_swap.
Qed.

Lemma sorted_strings_perm (l : list string) : Permutation (sorted_strings l) l.
Proof.
  induction l as [|x l IH]; [reflexivity|].
  cbn [sorted_strings fold_right]. fold (sorted_strings l).
  rewrite insert_string_perm. now apply perm_skip.
Qed.

Lemma insert_string_sorted (x : string) (l : list string) :
  ~ In x l -> StronglySorted string_lt l -> StronglySorted string_lt (insert_string x l).
Proof.
  intros Hx Hs. induction Hs as [|y l Hs IH Hall].
  - repeat constructor.
  - cbn [insert_string]. destruct (String.leb x y) eqn:E.
    + constructor; [now constructor|].
      assert (Hxy : string_lt x y).
      { split; [exact E|]. intros ->. apply Hx. now left. }
      constructor; [exact Hxy|].
      rewrite Forall_forall in Hall |- *. intros z Hz.
      destruct (Hall z Hz) as [Hyz Hne]. split.
      * eapply string_leb_trans; eassumption.
      * intros ->. apply Hx. now right.
    + constructor.
      * apply IH. intros H. apply Hx. now right.
      * eapply Permutation_Forall; [symmetry; apply insert_string_perm|].
        constructor; [|exact Hall].
        split; [now apply string_leb_false|]. intros ->. apply Hx. now left.
Qed.

Lemma sorted_strings_sorted (l : list string) :
  NoDup l -> StronglySorted string_lt (sorted_strings l).
Proof.
  induction 1 as [|x l Hx Hnd IH]; [constructor|].
  cbn [sorted_strings fold_right]. fold (sorted_strings l).
  apply insert_string_sorted; [|exact IH].
  intros H. apply Hx. exact (Permutation_in _ (sorted_strings_perm l) H).
Qed.

Lemma strictly_sorted_unique (l1 : list string) :
  forall l2,
    StronglySorted string_lt l1 -> StronglySorted string_lt l2 ->
    (forall x, In x l1 <-> In x l2) -> l1 = l2.
Proof.
  induction l1 as [|a l1 IH]; intros l2 H1 H2 Hiff.
  - destruct l2 as [|b l2]; [reflexivity|]. destruct (proj2 (Hiff b)). now left.
  - destruct l2 as [|b l2]; [destruct (proj1 (Hiff a)); now left|].
    inversion H1 as [|? ? Hs1 Hall1]; subst. inversion H2 as [|? ? Hs2 Hall2]; subst.
    rewrite Forall_forall in Hall1, Hall2.
    assert (Hab : a = b).
    { destruct (proj1 (Hiff a) (or_introl eq_refl)) as [E|Ha]; [now symmetry|].
      destruct (proj2 (Hiff b) (or_introl eq_refl)) as [E|Hb]; [exact E|].
      destruct (Hall2 a Ha) as [Hba _]. destruct (Hall1 b Hb) as [Hab _].
      now apply String.leb_antisym. }
    subst b. f_equal. apply IH; [assumption|assumption|].
    intros x. split; intros Hx.
    + destruct (proj1 (Hiff x) (or_intror Hx)) as [E|H]; [|exact H].
      subst x. destruct (Hall1 a Hx) as [_ Hne]. now destruct Hne.
    + destruct (proj2 (Hiff x) (or_intror Hx)) as [E|H]; [|exact H].
      subst x. destruct (Hall2 a Hx) as [_ Hne]. now destruct Hne.
Qed.

Lemma sorted_firstn {A : Type} (R : A -> A -> Prop) (n : nat) (l : list A) :
  StronglySorted R l -> StronglySorted R (firstn n l).
Proof.
  intros H. revert n. induction H as [|a l Hs IH Hall]; intros [|n]; cbn [firstn];
    try constructor.
  - apply IH.
  - rewrite Forall_forall in Hall |- *. intros x Hx. apply Hall.
    revert Hx. clear. revert l. induction n as [|n IHn]; intros [|b l]; cbn; try tauto.
    intros [->|H]; [now left|right; now apply IHn].
Qed.

End StringOrder.

(** X20.  The scenario hints of a domain are at most 20 of its mined terms,
    in strictly ascending order, and all of them when there are at most 20;
    sorting makes them the same whatever order the set of terms is iterated
    in. *)
Theorem scenario_hints_sorted_whatever_the_set_order
  (set_iter : list string -> list string) (_SCENARIO_TERMS : string -> list string)
  (domain : string) :
  pylist.set_order set_iter ->
  let terms := _SCENARIO_TERMS domain in
  let hints := video_utils._scenario_hints_for _SCENARIO_TERMS domain in
  (List.length hints <= 20)%nat
  /\ StronglySorted string_lt hints
  /\ (forall h, In h hints -> In h terms)
  /\ ((pylist.set_len terms <= 20)%nat -> forall h, In h terms -> In h hints)
  /\ firstn 20 (pylist.sorted_strings (set_iter terms)) = hints.
Proof.
  intros Horder terms hints. unfold hints, video_utils._scenario_hints_for. fold terms.
  split; [rewrite length_firstn; lia|].
  split; [apply sorted_firstn, sorted_strings_sorted, NoDup_nodup|].
  split.
  { intros h Hh. apply In_firstn in Hh.
    apply (Permutation_in _ (sorted_strings_perm _)) in Hh. now apply nodup_In in Hh. }
  split.
  { intros Hlen h Hh. rewrite firstn_all2.
    - apply (Permutation_in _ (Permutation_sym (sorted_strings_perm _))).
      now apply nodup_In.
    - rewrite (Permutation_length (sorted_strings_perm _)). exact Hlen. }
  f_equal. destruct (Horder terms) as [Hnd Hin].
  apply strictly_sorted_unique.
  - now apply sorted_strings_sorted.
  - apply sorted_strings_sorted, NoDup_nodup.
  - intros x. split; intros Hx.
    + apply (Permutation_in _ (sorted_strings_perm _)) in Hx.
      apply (Permutation_in _ (Permutation_sym (sorted_strings_perm _))).
      apply nodup_In. now apply Hin.
    + apply (Permutation_in _ (sorted_strings_perm _)) in Hx.
      apply (Permutation_in _ (Permutation_sym (sorted_strings_perm _))).
      apply Hin. now apply nodup_In in Hx.
Qed.

Lemma scenario_hints_sorted_whatever_the_set_order_witness :
  firstn 20 (pylist.sorted_strings
               (pylist.reverse_insertion_order ["towel"; "key"; "towel"; "bed"]%string))
  = video_utils._scenario_hints_for (fun _ => ["towel"; "key"; "towel"; "bed"]%string)
                                    "hotel".
Proof.
  apply (scenario_hints_sorted_whatever_the_set_order
           pylist.reverse_insertion_order (fun _ => ["towel"; "key"; "towel"; "bed"]%string)
           "hotel" reverse_insertion_order_is_set_order).
Defined.

(** ** Hashtags of the input lines *)

Section Hashtags.

Import pystr main_input.
Local Open Scope string_scope.

Lemma string_app_nil_r (s : string) : s ++ EmptyString = s.
Proof. induction s as [|c s IH]; [reflexivity|]. cbn [String.append]. now rewrite IH. Qed.

Lemma string_app_assoc (a b c : string) : (a ++ b) ++ c = a ++ (b ++ c).
Proof. induction a as [|x a IH]; [reflexivity|]. cbn [String.append]. now rewrite IH. Qed.

Lemma tag_char_not_space (c : ascii) : is_tag_char c = true -> is_space c = false.
Proof. unfold is_tag_char. destruct (is_space c); [discriminate|reflexivity]. Qed.

Lemma tag_char_not_hash (c : ascii) : is_tag_char c = true -> is_hash c = false.
Proof.
  unfold is_tag_char, is_hash. cbn [char_in].
  destruct (Ascii.eqb c "#"); [|reflexivity].
  rewrite andb_comm. discriminate.
Qed.

Lemma space_not_tag (c : ascii) : is_space c = true -> is_tag_char c = false.
Proof. unfold is_tag_char. now intros ->. Qed.

Lemma space_not_hash (c : ascii) : is_space c = true -> is_hash c = false.
Proof.
  destruct (is_hash c) eqn:E; [|reflexivity].
  apply Ascii.eqb_eq in E. subst c. discriminate.
Qed.

Lemma head_space_not_tag (s : string) : head_is_space s = true -> head_is_tag s = false.
Proof. destruct s as [|c s]; [reflexivity|]. apply space_not_tag. Qed.

(** *** The tags found *)

Lemma scan_tags_well_formed (s : string) :
  forall cur,
    (forall t, cur = Some t -> forall_chars is_tag_char t = true) ->
    forall w, In w (scan_tags cur s) ->
              nonempty w = true /\ forall_chars is_tag_char w = true.
Proof.
  induction s as [|c s IH]; intros cur Hcur w Hw; cbn [scan_tags] in Hw.
  - destruct cur as [t|]; [|contradiction].
    destruct (nonempty t) eqn:E; [|contradiction].
    destruct Hw as [<-|[]]. split; [exact E|now apply Hcur].
  - cbv zeta in Hw.
    assert (Hnext : forall t, (if is_hash c then Some EmptyString else None) = Some t ->
                              forall_chars is_tag_char t = true).
    { intros t Ht. destruct (is_hash c); [|discriminate]. now injection Ht as <-. }
    destruct cur as [t|]; [|exact (IH _ Hnext w Hw)].
    destruct (is_tag_char c) eqn:Ec.
    + apply (IH (Some (t ++ String c EmptyString))); [|exact Hw].
      intros t' Ht'. injection Ht' as <-.
      rewrite forall_chars_app, (Hcur t eq_refl). cbn [forall_chars]. now rewrite Ec.
    + apply in_app_or in Hw as [Hw|Hw]; [|exact (IH _ Hnext w Hw)].
      destruct (nonempty t) eqn:E; [|contradiction].
      destruct Hw as [<-|[]]. split; [exact E|now apply Hcur].
Qed.

Lemma strip_no_space (s : string) :
  forall_chars (fun c => negb (is_space c)) s = true -> strip s = s.
Proof.
  intros H. unfold strip.
  assert (Hl : lstrip s = s).
  { destruct s as [|c s]; [reflexivity|]. cbn [forall_chars] in H.
    apply andb_prop in H as [Hc _]. cbn [lstrip].
    now destruct (is_space c). }
  rewrite Hl. clear Hl. induction s as [|c s IH]; [reflexivity|].
  cbn [forall_chars] in H. apply andb_prop in H as [Hc H].
  cbn [rstrip]. rewrite (IH H). now destruct (is_space c).
Qed.

Lemma tag_chars_no_space (t : string) :
  forall_chars is_tag_char t = true -> forall_chars (fun c => negb (is_space c)) t = true.
Proof.
  induction t as [|c t IH]; [reflexivity|].
  cbn [forall_chars]. intros H. apply andb_prop in H as [Hc H].
  now rewrite (tag_char_not_space c Hc), IH.
Qed.

(** *** What the removal of the hashtags leaves *)

Lemma hash_free_spaces (ws x : string) :
  forall_chars is_space ws = true -> hash_free (ws ++ x) = hash_free x.
Proof.
  induction ws as [|c ws IH]; [reflexivity|].
  cbn [forall_chars]. intros H. apply andb_prop in H as [Hc H].
  cbn [String.append hash_free]. now rewrite (space_not_hash c Hc), IH.
Qed.

Lemma head_is_tag_spaces (ws x : string) :
  forall_chars is_space ws = true ->
  head_is_tag (ws ++ x) = if nonempty ws then false else head_is_tag x.
Proof.
  destruct ws as [|c ws]; [reflexivity|].
  cbn [forall_chars]. intros H. apply andb_prop in H as [Hc _].
  cbn [String.append head_is_tag nonempty]. now apply space_not_tag.
Qed.

Lemma remove_tags_head (s : string) :
  forall st, state_ok st -> quiet st s ->
             head_is_tag (remove_tags_from st s) = false.
Proof.
  induction s as [|c s IH]; intros st Hok Hq.
  - destruct st as [ws|]; [|reflexivity]. cbn [remove_tags_from].
    rewrite <- (string_app_nil_r ws) at 1.
    rewrite head_is_tag_spaces by exact Hok. now destruct (nonempty ws).
  - cbn [remove_tags_from]. cbv zeta.
    destruct (match st with None => is_tag_char c | Some _ => false end) eqn:E1.
    { now apply IH. }
    set (ws := match st with Some ws => ws | None => EmptyString end).
    assert (Hws : forall_chars is_space ws = true).
    { unfold ws. destruct st; [exact Hok|reflexivity]. }
    destruct (is_space c) eqn:Esp.
    { apply IH.
      - cbn [state_ok]. rewrite forall_chars_app, Hws. cbn [forall_chars]. now rewrite Esp.
      - left. destruct ws; reflexivity. }
    destruct (is_hash c && head_is_tag s) eqn:Eh.
    { now apply IH. }
    rewrite head_is_tag_spaces by exact Hws.
    destruct (nonempty ws) eqn:Ene; [reflexivity|].
    cbn [head_is_tag].
    destruct st as [ws'|]; [|exact E1].
    destruct Hq as [Hq|Hq]; [|exact Hq].
    unfold ws in Ene. congruence.
Qed.

Lemma remove_tags_hash_free (s : string) :
  forall st, state_ok st -> hash_free (remove_tags_from st s) = true.
Proof.
  induction s as [|c s IH]; intros st Hok.
  - destruct st as [ws|]; [|reflexivity]. cbn [remove_tags_from].
    rewrite <- (string_app_nil_r ws). now rewrite hash_free_spaces.
  - cbn [remove_tags_from]. cbv zeta.
    destruct (match st with None => is_tag_char c | Some _ => false end) eqn:E1.
    { now apply IH. }
    set (ws := match st with Some ws => ws | None => EmptyString end).
    assert (Hws : forall_chars is_space ws = true).
    { unfold ws. destruct st; [exact Hok|reflexivity]. }
    destruct (is_space c) eqn:Esp.
    { apply IH. cbn [state_ok]. rewrite forall_chars_app, Hws. cbn [forall_chars].
      now rewrite Esp. }
    destruct (is_hash c && head_is_tag s) eqn:Eh.
    { now apply IH. }
    rewrite hash_free_spaces by exact Hws. cbn [hash_free].
    rewrite (IH (Some EmptyString) eq_refl), andb_true_r.
    destruct (is_hash c) eqn:Ehash; [|reflexivity].
    cbn [andb] in Eh |- *.
    rewrite remove_tags_head; [reflexivity|reflexivity|now right].
Qed.

Lemma remove_tags_nothing (s : string) :
  hash_free s = true -> forall ws, remove_tags_from (Some ws) s = ws ++ s.
Proof.
  induction s as [|c s IH]; intros H ws; cbn [remove_tags_from].
  - now rewrite string_app_nil_r.
  - cbv zeta. cbn [hash_free] in H. apply andb_prop in H as [Hc H].
    apply negb_true_iff in Hc. rewrite Hc.
    destruct (is_space c).
    + rewrite (IH H). now rewrite string_app_assoc.
    + now rewrite (IH H EmptyString).
Qed.

Lemma scan_tags_nothing (s : string) :
  hash_free s = true ->
  forall cur, (cur = None \/ (cur = Some EmptyString /\ head_is_tag s = false)) ->
              scan_tags cur s = [].
Proof.
  induction s as [|c s IH]; intros H cur Hcur; cbn [scan_tags].
  - destruct Hcur as [->|[-> _]]; reflexivity.
  - cbv zeta. cbn [hash_free] in H. apply andb_prop in H as [Hc H].
    apply negb_true_iff in Hc.
    assert (Hnext : scan_tags (if is_hash c then Some EmptyString else None) s = []).
    { apply (IH H). destruct (is_hash c); [right|now left].
      split; [reflexivity|exact Hc]. }
    destruct Hcur as [->|[-> Hhead]]; [exact Hnext|].
    cbn [head_is_tag] in Hhead. rewrite Hhead. exact Hnext.
Qed.

(** *** Whitespace *)

Lemma pending_ws_spaces (run : ws_run) :
  match run with OneWs w => is_space w = true | _ => True end ->
  forall_chars is_space (pending_ws run) = true.
Proof.
  destruct run as [|w|]; cbn; [reflexivity| |reflexivity].
  intros ->. reflexivity.
Qed.

Lemma sub_ws2_hash_free (s : string) :
  hash_free s = true ->
  forall run,
    match run with OneWs w => is_space w = true | _ => True end ->
    hash_free (sub_ws2_from run s) = true
    /\ (head_is_tag (sub_ws2_from run s) = true -> run = NoRun /\ head_is_tag s = true).
Proof.
  induction s as [|c s IH]; intros H run Hrun; cbn [sub_ws2_from].
  - pose proof (pending_ws_spaces run Hrun) as Hp. split.
    + rewrite <- (string_app_nil_r (pending_ws run)). now rewrite hash_free_spaces.
    + rewrite <- (string_app_nil_r (pending_ws run)). rewrite head_is_tag_spaces by exact Hp.
      destruct (nonempty _); discriminate.
  - cbn [hash_free] in H. apply andb_prop in H as [Hc H].
    destruct (is_space c) eqn:Esp.
    + set (run' := match run with NoRun => OneWs c | _ => ManyWs end).
      assert (Hrun' : match run' with OneWs w => is_space w = true | _ => True end).
      { unfold run'. destruct run; cbn; auto. }
      destruct (IH H run' Hrun') as [H1 H2]. split; [exact H1|].
      intros Hh. destruct (H2 Hh) as [E _]. unfold run' in E. destruct run; discriminate.
    + pose proof (pending_ws_spaces run Hrun) as Hp.
      destruct (IH H NoRun I) as [H1 H2]. split.
      * rewrite hash_free_spaces by exact Hp. cbn [hash_free]. rewrite H1, andb_true_r.
        destruct (is_hash c) eqn:Eh; [|reflexivity]. cbn [andb] in Hc |- *.
        destruct (head_is_tag (sub_ws2_from NoRun s)) eqn:E; [|reflexivity].
        destruct (H2 eq_refl) as [_ E']. rewrite E' in Hc. discriminate.
      * rewrite head_is_tag_spaces by exact Hp.
        destruct run as [|w|]; cbn [pending_ws nonempty]; try discriminate.
        cbn [head_is_tag]. intros Hh. now split.
Qed.

Lemma single_spaced_pending (run : ws_run) (c : ascii) (x : string) :
  match run with OneWs w => is_space w = true | _ => True end ->
  is_space c = false ->
  single_spaced (pending_ws run ++ String c x) = single_spaced (String c x).
Proof.
  intros Hrun Hc. destruct run as [|w|]; cbn [pending_ws String.append]; [reflexivity| |].
  - cbn [single_spaced head_is_space]. rewrite Hc. now rewrite andb_false_r.
  - cbn [single_spaced head_is_space]. rewrite Hc. now rewrite andb_false_r.
Qed.

Lemma sub_ws2_single_spaced (s : string) :
  forall run,
    match run with OneWs w => is_space w = true | _ => True end ->
    single_spaced (sub_ws2_from run s) = true.
Proof.
  induction s as [|c s IH]; intros run Hrun; cbn [sub_ws2_from].
  - destruct run; cbn; rewrite ?andb_false_r; reflexivity.
  - destruct (is_space c) eqn:Esp.
    + apply IH. destruct run; cbn; auto.
    + rewrite single_spaced_pending by assumption.
      cbn [single_spaced]. rewrite Esp. cbn [andb negb]. now apply IH.
Qed.

Lemma sub_ws2_nothing (s : string) :
  single_spaced s = true ->
  sub_ws2_from NoRun s = s
  /\ (forall w, head_is_space s = false -> sub_ws2_from (OneWs w) s = String w s).
Proof.
  induction s as [|c s IH]; intros H; [split; reflexivity|].
  cbn [single_spaced] in H. apply andb_prop in H as [Hc H].
  destruct (IH H) as [H1 H2]. cbn [sub_ws2_from head_is_space].
  destruct (is_space c) eqn:Esp.
  - cbn [andb] in Hc. apply negb_true_iff in Hc. split; [now apply H2|discriminate].
  - rewrite H1. split; reflexivity.
Qed.

(** *** Stripping *)

Lemma lstrip_suffix_hash_free (s : string) :
  hash_free s = true -> hash_free (lstrip s) = true.
Proof.
  induction s as [|c s IH]; [reflexivity|].
  cbn [lstrip]. destruct (is_space c); [|tauto].
  cbn [hash_free]. intros H. apply andb_prop in H as [_ H]. now apply IH.
Qed.

Lemma lstrip_single_spaced (s : string) :
  single_spaced s = true -> single_spaced (lstrip s) = true.
Proof.
  induction s as [|c s IH]; [reflexivity|].
  cbn [lstrip]. destruct (is_space c); [|tauto].
  cbn [single_spaced]. intros H. apply andb_prop in H as [_ H]. now apply IH.
Qed.

Lemma rstrip_head (s : string) :
  rstrip s = EmptyString
  \/ exists c s' r, s = String c s' /\ rstrip s = String c r.
Proof.
  destruct s as [|c s]; [now left|]. cbn [rstrip].
  destruct (is_space c && negb (nonempty (rstrip s))); [now left|].
  right. now exists c, s, (rstrip s).
Qed.

Lemma rstrip_hash_free (s : string) :
  hash_free s = true -> hash_free (rstrip s) = true.
Proof.
  induction s as [|c s IH]; [reflexivity|].
  cbn [hash_free rstrip]. intros H. apply andb_prop in H as [Hc H].
  destruct (is_space c && negb (nonempty (rstrip s))); [reflexivity|].
  cbn [hash_free]. rewrite (IH H), andb_true_r.
  destruct (rstrip_head s) as [->|(d & s' & r & -> & ->)].
  - now rewrite andb_false_r.
  - exact Hc.
Qed.

Lemma rstrip_single_spaced (s : string) :
  single_spaced s = true -> single_spaced (rstrip s) = true.
Proof.
  induction s as [|c s IH]; [reflexivity|].
  cbn [single_spaced rstrip]. intros H. apply andb_prop in H as [Hc H].
  destruct (is_space c && negb (nonempty (rstrip s))); [reflexivity|].
  cbn [single_spaced]. rewrite (IH H), andb_true_r.
  destruct (rstrip_head s) as [->|(d & s' & r & -> & ->)].
  - now rewrite andb_false_r.
  - exact Hc.
Qed.

Lemma lstrip_head (s : string) : head_is_space (lstrip s) = false.
Proof.
  induction s as [|c s IH]; [reflexivity|].
  cbn [lstrip]. destruct (is_space c) eqn:E; [exact IH|]. cbn [head_is_space]. exact E.
Qed.

Lemma lstrip_nothing (s : string) : head_is_space s = false -> lstrip s = s.
Proof.
  destruct s as [|c s]; [reflexivity|]. cbn [head_is_space lstrip]. now intros ->.
Qed.

Lemma rstrip_idempotent (s : string) : rstrip (rstrip s) = rstrip s.
Proof.
  induction s as [|c s IH]; [reflexivity|].
  cbn [rstrip]. destruct (is_space c && negb (nonempty (rstrip s))) eqn:E; [reflexivity|].
  cbn [rstrip]. rewrite IH, E. reflexivity.
Qed.

Lemma strip_idempotent (s : string) : strip (strip s) = strip s.
Proof.
  unfold strip.
  assert (H : head_is_space (rstrip (lstrip s)) = false).
  { pose proof (lstrip_head s) as Hl.
    destruct (rstrip_head (lstrip s)) as [->|(c & s' & r & E & ->)]; [reflexivity|].
    rewrite E in Hl. exact Hl. }
  rewrite (lstrip_nothing _ H). apply rstrip_idempotent.
Qed.

End Hashtags.

(** X21.  Every hashtag extracted from a line is a non-empty run of tag
    characters: it holds no whitespace, no [#] and none of [.,;:!?()]. *)
Theorem hashtags_are_well_formed (s t : string) :
  In t (snd (main_input._extract_hashtags_and_clean s)) ->
  pystr.nonempty t = true /\ pystr.forall_chars main_input.is_tag_char t = true.
Proof.
  unfold main_input._extract_hashtags_and_clean.
  destruct (negb (pystr.nonempty s)); [contradiction|]. cbn [snd].
  rewrite in_map_iff. intros (w & <- & Hw).
  apply scan_tags_well_formed in Hw as [Hne Hall]; [|discriminate].
  rewrite (strip_no_space w (tag_chars_no_space w Hall)). now split.
Qed.

Lemma hashtags_are_well_formed_witness :
  pystr.nonempty "cup" = true /\ pystr.forall_chars main_input.is_tag_char "cup" = true.
Proof.
  apply (hashtags_are_well_formed "A cup of tea. #cup #kitchen" "cup").
  vm_compute. left. reflexivity.
Defined.

(** X22.  Cleaning a line is idempotent: the cleaned text holds no hashtag
    any more, has no whitespace at its ends and no two whitespace characters
    in a row, and cleaning it again returns it unchanged with no tags. *)
Theorem cleaned_text_is_clean (s : string) :
  let cleaned := fst (main_input._extract_hashtags_and_clean s) in
  main_input._extract_hashtags_and_clean cleaned = (cleaned, [])
  /\ hash_free cleaned = true
  /\ single_spaced cleaned = true
  /\ pystr.strip cleaned = cleaned.
Proof.
  cbv zeta.
  assert (E : fst (main_input._extract_hashtags_and_clean s)
              = pystr.strip (pystr.sub_ws2
                               (main_input.remove_tags_from (Some EmptyString)
                                                            (pystr.strip s)))).
  { destruct s; reflexivity. }
  rewrite E. clear E.
  set (text := pystr.strip s).
  set (removed := main_input.remove_tags_from (Some EmptyString) text).
  set (cleaned := pystr.strip (pystr.sub_ws2 removed)).
  assert (Hhf : hash_free cleaned = true).
  { unfold cleaned, pystr.strip. apply rstrip_hash_free, lstrip_suffix_hash_free.
    apply sub_ws2_hash_free; [|exact I].
    now apply remove_tags_hash_free. }
  assert (Hss : single_spaced cleaned = true).
  { unfold cleaned, pystr.strip. apply rstrip_single_spaced, lstrip_single_spaced.
    now apply sub_ws2_single_spaced. }
  assert (Hst : pystr.strip cleaned = cleaned) by apply strip_idempotent.
  split; [|now repeat split].
  unfold main_input._extract_hashtags_and_clean.
  destruct (negb (pystr.nonempty cleaned)) eqn:Ene.
  { destruct cleaned; [reflexivity|discriminate]. }
  rewrite Hst.
  rewrite (scan_tags_nothing cleaned Hhf None) by now left.
  rewrite (remove_tags_nothing cleaned Hhf EmptyString). cbn [String.append map].
  unfold pystr.sub_ws2. rewrite (proj1 (sub_ws2_nothing cleaned Hss)).
  now rewrite Hst.
Qed.

(** X23.  A line without [#] has no tags and keeps its text: only the
    whitespace at its ends is removed and each run of two or more whitespace
    characters becomes one space. *)
Theorem line_without_hash_keeps_its_text (s : string) :
  pystr.forall_chars (fun c => negb (main_input.is_hash c)) s = true ->
  main_input._extract_hashtags_and_clean s
  = (pystr.strip (pystr.sub_ws2 (pystr.strip s)), []).
Proof.
  intros H. unfold main_input._extract_hashtags_and_clean.
  destruct (negb (pystr.nonempty s)) eqn:Ene.
  { destruct s; [reflexivity|discriminate]. }
  assert (Hhf : hash_free (pystr.strip s) = true).
  { apply (forall_chars_strip _ s) in H. revert H. generalize (pystr.strip s). intros t.
    induction t as [|c t IH]; [reflexivity|].
    cbn [pystr.forall_chars hash_free]. intros H. apply andb_prop in H as [Hc H].
    apply negb_true_iff in Hc. now rewrite Hc, IH. }
  rewrite (scan_tags_nothing _ Hhf None) by now left.
  rewrite (remove_tags_nothing _ Hhf EmptyString). reflexivity.
Qed.

Lemma line_without_hash_keeps_its_text_witness :
  main_input._extract_hashtags_and_clean "  Two   towels,  please. "
  = (pystr.strip (pystr.sub_ws2 (pystr.strip "  Two   towels,  please. ")), []).
Proof.
  apply (line_without_hash_keeps_its_text "  Two   towels,  please. ").
  vm_compute. reflexivity.
Defined.

(** ** Detected concepts *)

Section DetectedConcepts.

Import pystr pylist video_utils.

Lemma insert_asc_sorted {A : Type} (key : A -> Z) (x : A) (l : list A) :
  StronglySorted (fun a b => key a <= key b) l ->
  StronglySorted (fun a b => key a <= key b) (insert_asc key x l).
Proof.
  intros Hs. induction Hs as [|y l Hs IH Hall]; [repeat constructor|].
  cbn [insert_asc]. destruct (key x <=? key y) eqn:E.
  - apply Z.leb_le in E. constructor; [now constructor|].
    constructor; [exact E|].
    rewrite Forall_forall in Hall |- *. intros z Hz. specialize (Hall z Hz). cbv beta in *. lia.
  - apply Z.leb_gt in E. constructor; [exact IH|].
    eapply Permutation_Forall; [symmetry; apply insert_asc_perm|].
    constructor; [lia|exact Hall].
Qed.

Lemma sorted_by_sorted {A : Type} (key : A -> Z) (l : list A) :
  StronglySorted (fun a b => key a <= key b) (sorted_by key l).
Proof.
  induction l as [|x l IH]; [constructor|].
  cbn [sorted_by fold_right]. now apply insert_asc_sorted.
Qed.

Lemma existsb_same_members {A : Type} (f : A -> bool) (l l' : list A) :
  (forall x, In x l <-> In x l') -> existsb f l = existsb f l'.
Proof.
  intros H. apply eq_true_iff_eq. rewrite !existsb_exists.
  split; intros (x & Hx & Hf); exists x; split; try exact Hf; now apply H.
Qed.

Lemma sorted_by_desc_In {A : Type} (key : A -> Z) (l : list A) (x : A) :
  In x (sorted_by_desc key l) <-> In x l.
Proof.
  induction l as [|y l IH]; [reflexivity|].
  cbn [sorted_by_desc fold_right]. fold (sorted_by_desc key l).
  assert (Hins : forall m, In x (insert_desc key y m) <-> y = x \/ In x m).
  { induction m as [|z m IHm]; cbn [insert_desc]; [cbn; tauto|].
    destruct (key z <=? key y); cbn [In]; [tauto|]. rewrite IHm. tauto. }
  rewrite Hins, IH. reflexivity.
Qed.

Lemma exact_match_any_order (set_iter set_iter' : list string -> list string)
      (joined code : string) (variants : list (string * list string)) :
  set_order set_iter -> set_order set_iter' ->
  exact_match set_iter joined code variants = exact_match set_iter' joined code variants.
Proof.
  intros H H'. unfold exact_match. apply existsb_same_members. intros v.
  rewrite !sorted_by_desc_In.
  rewrite (proj2 (H _) v), (proj2 (H' _) v). reflexivity.
Qed.

Lemma lexicon_keys_distinct : NoDup (map fst LEXICON).
Proof.
  assert (E : nodup string_dec (map fst LEXICON) = map fst LEXICON)
    by (vm_compute; reflexivity).
  rewrite <- E. apply NoDup_nodup.
Qed.

Lemma keys_of_filter_distinct {K V : Type} (keep : K * V -> bool)
      (entries : list (K * V)) :
  NoDup (map fst entries) -> NoDup (map fst (filter keep entries)).
Proof.
  induction entries as [|e entries IH]; cbn [map filter]; intros Hnd; [exact Hnd|].
  inversion Hnd as [|? ? Hfresh Hrest]; subst.
  destruct (keep e); [|exact (IH Hrest)].
  cbn [map]. constructor; [|exact (IH Hrest)].
  intros Hin. apply Hfresh. apply in_map_iff in Hin as (e' & E & He').
  apply filter_In in He' as [He' _]. apply in_map_iff. now exists e'.
Qed.

End DetectedConcepts.

(** X24.  Whatever order sets are iterated in, the detected concepts are
    distinct keys of the lexicon in the order of their first occurrence in
    the sentence, and the same concepts are detected: two iteration orders
    can only change the order of concepts that occur at the same place. *)
Theorem detected_concepts_ordered_by_first_occurrence
  (set_iter set_iter' : list string -> list string) (text lang : string) :
  pylist.set_order set_iter -> pylist.set_order set_iter' ->
  let hits := video_utils._detect_candidates set_iter text lang in
  let joined := pystr.join " " (video_utils._tokenize text lang) in
  let idx := video_utils.first_idx joined (video_utils.lang_code lang) in
  NoDup hits
  /\ (forall h, In h hits -> In h (map fst video_utils.LEXICON))
  /\ StronglySorted (fun a b => idx a <= idx b) hits
  /\ Permutation hits (video_utils._detect_candidates set_iter' text lang).
Proof.
  intros Horder Horder' hits joined idx.
  unfold hits, video_utils._detect_candidates. cbv zeta. fold joined.
  set (code := video_utils.lang_code lang).
  set (tokens := video_utils._tokenize text lang).
  assert (Hsame : filter (fun entry => video_utils.exact_match set_iter joined code (snd entry))
                         video_utils.LEXICON
                  = filter (fun entry => video_utils.exact_match set_iter' joined code (snd entry))
                           video_utils.LEXICON).
  { apply filter_ext. intros entry. now apply exact_match_any_order. }
  rewrite <- Hsame.
  set (exact := filter _ video_utils.LEXICON).
  set (fuzzy := filter (fun entry => Qle_bool _ _) video_utils.LEXICON).
  set (found := match map fst exact with [] => map fst fuzzy | _ => map fst exact end).
  assert (Hfound : NoDup found /\ forall h, In h found -> In h (map fst video_utils.LEXICON)).
  { unfold found. destruct (map fst exact) eqn:E.
    - split; [apply keys_of_filter_distinct, lexicon_keys_distinct|].
      intros h Hh. apply in_map_iff in Hh as (e & <- & He).
      apply filter_In in He as [He _]. now apply in_map.
    - rewrite <- E. split; [apply keys_of_filter_distinct, lexicon_keys_distinct|].
      intros h Hh. apply in_map_iff in Hh as (e & <- & He).
      apply filter_In in He as [He _]. now apply in_map. }
  destruct Hfound as [Hnd Hlex].
  destruct (Horder found) as [Hnd1 Hin1]. destruct (Horder' found) as [Hnd2 Hin2].
  split.
  { eapply Permutation_NoDup; [symmetry; apply sorted_by_perm|exact Hnd1]. }
  split.
  { intros h Hh. apply (Permutation_in _ (sorted_by_perm _ _)) in Hh.
    apply Hlex. now apply Hin1. }
  split; [apply sorted_by_sorted|].
  rewrite !sorted_by_perm.
  apply NoDup_Permutation; [exact Hnd1|exact Hnd2|].
  intros x. rewrite Hin1, Hin2. reflexivity.
Qed.

Lemma detected_concepts_ordered_by_first_occurrence_witness :
  Permutation
    (video_utils._detect_candidates pylist.insertion_order "cough syrup" "en")
    (video_utils._detect_candidates pylist.reverse_insertion_order "cough syrup" "en").
Proof.
  pose proof (detected_concepts_ordered_by_first_occurrence
                pylist.insertion_order pylist.reverse_insertion_order "cough syrup" "en"
                insertion_order_is_set_order reverse_insertion_order_is_set_order) as H.
  cbv zeta in H. destruct H as (_ & _ & _ & H). exact H.
Defined.

(** ** Which URLs are downloaded *)

(** X25.  A search only ever downloads what a provider offered: every
    download call is made for a URL that is not empty and that is the
    preferred URL of an entry of the response of the provider it is
    attributed to, which was asked with its own key. *)
Theorem downloads_only_offered_urls
  (set_iter : list string -> list string)
  (pixabay_api : string -> string -> option string -> option (list video_utils.PixabayHit))
  (unsplash_api : string -> string -> option (list video_utils.UnsplashPhoto))
  (pix_key uns_key : option string)
  (_download_image : string -> string -> string -> option string)
  (query : string) (n : Z) (category : option string) (src provider : string) :
  In (src, provider)
     (snd (video_utils.search_and_download_best_traced
             set_iter pixabay_api unsplash_api pix_key uns_key _download_image
             query n category)) ->
  src <> ""%string
  /\ ((provider = "pixabay"%string
       /\ exists k hits h,
            pix_key = Some k /\ pixabay_api k query category = Some hits /\ In h hits
            /\ src = video_utils.or_else (video_utils.pix_largeImageURL h)
                                         (video_utils.pix_webformatURL h))
      \/ (provider = "unsplash"%string
          /\ exists k results ph,
               uns_key = Some k /\ unsplash_api k query = Some results /\ In ph results
               /\ src = video_utils.or_else
                          (video_utils.or_else (video_utils.uns_regular ph)
                                               (video_utils.uns_full ph))
                          (video_utils.uns_raw ph))).
Proof.
  unfold video_utils.search_and_download_best_traced. intros Hcall.
  destruct (download_walk_calls _download_image query n
              (video_utils._search_both_ranked set_iter pixabay_api unsplash_api
                                               pix_key uns_key query category) [] [])
    as (_ & _ & Hfrom).
  destruct (Hfrom _ Hcall) as (item & Hitem & E). injection E as -> ->.
  unfold video_utils._search_both_ranked in Hitem.
  apply (Permutation_in _ (sorted_by_desc_Q_perm _ _)) in Hitem.
  apply in_app_or in Hitem as [Hitem|Hitem].
  - destruct pix_key as [k|]; [|contradiction].
    apply _pixabay_ranked_In in Hitem as (hits & h & Hapi & Hh & Hit).
    unfold video_utils.pixabay_item in Hit. cbv zeta in Hit.
    destruct (pystr.nonempty (video_utils.or_else _ _)) eqn:Ene; [|discriminate].
    cbn [negb] in Hit. injection Hit as <-. cbn [video_utils.item_src video_utils.item_provider].
    split; [intros E; rewrite E in Ene; discriminate|].
    left. split; [reflexivity|]. now exists k, hits, h.
  - destruct uns_key as [k|]; [|contradiction].
    apply _unsplash_ranked_In in Hitem as (results & ph & Hapi & Hph & Hit).
    unfold video_utils.unsplash_item in Hit. cbv zeta in Hit.
    destruct (pystr.nonempty (video_utils.or_else _ _)) eqn:Ene; [|discriminate].
    cbn [negb] in Hit. injection Hit as <-. cbn [video_utils.item_src video_utils.item_provider].
    split; [intros E; rewrite E in Ene; discriminate|].
    right. split; [reflexivity|]. now exists k, results, ph.
Qed.

Lemma downloads_only_offered_urls_witness :
  "https://p/1.jpg"%string <> ""%string
  /\ (("pixabay"%string = "pixabay"%string
       /\ exists k hits h,
            Some "k1"%string = Some k /\ scenario_pixabay_api k scenario_query None = Some hits
            /\ In h hits
            /\ "https://p/1.jpg"%string
               = video_utils.or_else (video_utils.pix_largeImageURL h)
                                     (video_utils.pix_webformatURL h))
      \/ ("pixabay"%string = "unsplash"%string
          /\ exists k results ph,
               Some "k2"%string = Some k /\ scenario_unsplash_api k scenario_query = Some results
               /\ In ph results
               /\ "https://p/1.jpg"%string
                  = video_utils.or_else
                      (video_utils.or_else (video_utils.uns_regular ph)
                                           (video_utils.uns_full ph))
                      (video_utils.uns_raw ph))).
Proof.
  apply (downloads_only_offered_urls
           pylist.insertion_order scenario_pixabay_api scenario_unsplash_api
           (Some "k1"%string) (Some "k2"%string) scenario_download scenario_query 5 None
           "https://p/1.jpg" "pixabay").
  vm_compute. right. left. reflexivity.
Defined.

(** ** Grid snap and final audio *)

Section SnappedTimeline.

Variable f : Z -> Z.
Hypothesis f_monotone : forall x y, x <= y -> f x <= f y.


End SnappedTimeline.


